(** * LegacyRefactor AI: the pipeline core, embedded and verified

    A shallow embedding of the orchestration and response-normalisation
    layer of the repository:

    - [services/migrationService.ts]: [cleanLlmOutput], [resolveApiKey],
      the four stage runners and the two entry points [startAnalysis] and
      [completeMigration];
    - [services/llmFactory.ts]: the schema mappers, the two provider
      clients and [createLlmClient];
    - [utils/settingsManager.ts]: [getStoredApiKey];
    - [App.tsx]: [handleStartAnalysis], [handleDependencySubmit] and
      [isProcessing];
    - [components/DependencyModal.tsx]: [isComplete] and
      [handleContentChange];
    - [components/AnalysisProgress.tsx]: [getStepStatus].

    JavaScript strings are sequences of UTF-16 code units, modelled as
    [list N].  Plain objects used as dictionaries ([FileMap], the
    properties of a schema) are association lists in the order
    [Object.entries] reports; [localStorage] and [process.env] are
    [gmap]s. *)

From Stdlib Require Import NArith ZArith List Bool Lia.
From Stdlib Require Strings.String Strings.Ascii.
From Stdlib Require Import Floats.SpecFloat.
From stdpp Require Import base option list gmap.

Set Warnings "-register-all".

Open Scope N_scope.
Open Scope list_scope.

(** ** Strings *)

Abbreviation jsstring := (list N).

(** A string literal of the source, as code units. *)
Definition lit (s : String.string) : jsstring :=
  map Ascii.N_of_ascii (String.list_ascii_of_string s).
Import String.StringSyntax.
Delimit Scope string_scope with string.
Arguments lit s%_string.

Module Str.

(** ECMAScript [WhiteSpace] and [LineTerminator] code points: what
    [String.prototype.trim] strips and what [\s] matches. *)
Definition is_white_space (c : N) : bool :=
  (c =? 9) || (c =? 10) || (c =? 11) || (c =? 12) || (c =? 13)
  || (c =? 32) || (c =? 160) || (c =? 5760)
  || ((8192 <=? c) && (c <=? 8202))
  || (c =? 8232) || (c =? 8233) || (c =? 8239) || (c =? 8287)
  || (c =? 12288) || (c =? 65279).

Fixpoint trimStart (s : jsstring) : jsstring :=
  match s with
  | [] => []
  | c :: t => if is_white_space c then trimStart t else s
  end.

Fixpoint trimEnd (s : jsstring) : jsstring :=
  match s with
  | [] => []
  | c :: t =>
      match trimEnd t with
      | [] => if is_white_space c then [] else [c]
      | t' => c :: t'
      end
  end.

(** [s.trim()] *)
Definition trim (s : jsstring) : jsstring := trimEnd (trimStart s).

(** [s.startsWith(p)] *)
Fixpoint starts_with (p s : jsstring) : bool :=
  match p, s with
  | [], _ => true
  | _ :: _, [] => false
  | a :: p', b :: s' => (a =? b) && starts_with p' s'
  end.

(** [s.indexOf(p)], [None] for -1. *)
Fixpoint index_of (p s : jsstring) : option nat :=
  if starts_with p s then Some O
  else match s with
       | [] => None
       | _ :: t => option_map S (index_of p t)
       end.

(** [s.replace(re, '')] for a global regular expression [re].  The
    expression is given by [m]: [m s] is the length of the match of [re]
    anchored at the head of [s], if there is one.  The scan goes left to
    right; after a match it resumes behind the match ([skip] code units
    are still to be dropped). *)
Fixpoint replace_go (m : jsstring -> option nat) (skip : nat) (s : jsstring)
  : jsstring :=
  match s with
  | [] => []
  | c :: t =>
      match skip with
      | S k => replace_go m k t
      | O =>
          match m s with
          | Some (S n) => replace_go m n t
          | _ => c :: replace_go m O t
          end
      end
  end.

Definition remove_matches (m : jsstring -> option nat) (s : jsstring) : jsstring :=
  replace_go m O s.

(** The longest prefix of [s] made of code units satisfying [p], and
    what follows it: how a greedy [c+] or [c*] splits [s] when the next
    thing to match cannot begin with a [c]. *)
Fixpoint span (p : N -> bool) (s : jsstring) : jsstring * jsstring :=
  match s with
  | [] => ([], [])
  | c :: t =>
      if p c then let '(a, b) := span p t in (c :: a, b) else ([], s)
  end.

(** [parts.join(sep)] *)
Fixpoint join (sep : jsstring) (parts : list jsstring) : jsstring :=
  match parts with
  | [] => []
  | [x] => x
  | x :: rest => x ++ sep ++ join sep rest
  end.

(** [s.includes(p)] *)
Definition includes (p s : jsstring) : bool :=
  match index_of p s with Some _ => true | None => false end.

(** Truthiness of a string: [''] is the only falsy one. *)
Definition truthy (s : jsstring) : bool :=
  match s with [] => false | _ :: _ => true end.

(** [s || d] on strings. *)
Definition or_else (s d : jsstring) : jsstring := if truthy s then s else d.

(** Does [re] match (non-emptily) at some position of [s]? *)
Fixpoint occurs (m : jsstring -> option nat) (s : jsstring) : bool :=
  match s with
  | [] => false
  | _ :: t =>
      match m s with
      | Some (S _) => true
      | _ => occurs m t
      end
  end.

End Str.

(** ** migrationService.ts: helper utilities *)

Definition think_open : jsstring := lit "<think>".
Definition think_close : jsstring := lit "</think>".
Definition fence : jsstring := lit "```".

(** [/<think>[\s\S]*?<\/think>/] anchored at the head of [s]: the lazy
    star stops at the first closing marker behind the opening one. *)
Definition match_think (s : jsstring) : option nat :=
  if Str.starts_with think_open s then
    match Str.index_of think_close (drop (length think_open) s) with
    | Some k => Some (length think_open + k + length think_close)%nat
    | None => None
    end
  else None.

(** [/```(json|python|bash)?/] anchored at the head of [s]: the optional
    group is greedy and its alternatives are tried in order. *)
Definition match_fence (s : jsstring) : option nat :=
  if Str.starts_with fence s then
    let r := drop (length fence) s in
    Some (length fence +
          (if Str.starts_with (lit "json") r then 4
           else if Str.starts_with (lit "python") r then 6
           else if Str.starts_with (lit "bash") r then 4
           else 0))%nat
  else None.

Definition cleanLlmOutput (text : jsstring) : jsstring :=
  let cleaned := Str.trim (Str.remove_matches match_think text) in
  Str.trim (Str.remove_matches match_fence cleaned).

Definition has_think_block (s : jsstring) : bool := Str.occurs match_think s.
Definition has_fence (s : jsstring) : bool := Str.occurs match_fence s.


(** ** Plain objects as ordered dictionaries

    An object is the list of its own enumerable string-keyed properties
    in the order [Object.entries] reports them: array-index keys first,
    ascending, then the other keys in creation order. *)

Module Obj.

Definition proto_key : jsstring := lit "__proto__".

Definition digit (c : N) : option N :=
  if (48 <=? c) && (c <=? 57) then Some (c - 48) else None.

Fixpoint digits_value (acc : N) (s : jsstring) : option N :=
  match s with
  | [] => Some acc
  | c :: t =>
      match digit c with
      | Some d => digits_value (10 * acc + d) t
      | None => None
      end
  end.

(** The array index a property key denotes: a canonical decimal numeral
    below [2^32 - 1]. *)
Definition array_index (k : jsstring) : option N :=
  match k with
  | [] => None
  | [c] => digit c
  | c :: _ =>
      if c =? 48 then None
      else match digits_value 0 k with
           | Some n => if n <? 4294967295 then Some n else None
           | None => None
           end
  end.

Section Dict.
Context {V : Type}.

(** Own-property lookup. *)
Fixpoint get (k : jsstring) (o : list (jsstring * V)) : option V :=
  match o with
  | [] => None
  | (k', v) :: t => if decide (k' = k) then Some v else get k t
  end.

Fixpoint replace (k : jsstring) (v : V) (o : list (jsstring * V))
  : list (jsstring * V) :=
  match o with
  | [] => []
  | (k', v') :: t =>
      if decide (k' = k) then (k, v) :: t else (k', v') :: replace k v t
  end.

Fixpoint insert_index (i : N) (k : jsstring) (v : V) (o : list (jsstring * V))
  : list (jsstring * V) :=
  match o with
  | [] => [(k, v)]
  | (k', v') :: t =>
      match array_index k' with
      | Some j =>
          if j <? i then (k', v') :: insert_index i k v t else (k, v) :: o
      | None => (k, v) :: o
      end
  end.

(** [CreateDataProperty]: what an object literal, a computed key and a
    spread do for each property. *)
Definition define (k : jsstring) (v : V) (o : list (jsstring * V))
  : list (jsstring * V) :=
  match get k o with
  | Some _ => replace k v o
  | None =>
      match array_index k with
      | Some i => insert_index i k v o
      | None => o ++ [(k, v)]
      end
  end.

(** [o[k] = v] on an object created by [{}]: the key [__proto__] reaches
    the accessor of [Object.prototype] and creates no own property. *)
Definition assign (k : jsstring) (v : V) (o : list (jsstring * V))
  : list (jsstring * V) :=
  if decide (k = proto_key) then o else define k v o.

(** [{ ...a, ...b }] continued: the properties of [b] defined over [a]. *)
Definition spread (a b : list (jsstring * V)) : list (jsstring * V) :=
  fold_left (fun o kv => define (fst kv) (snd kv) o) b a.

End Dict.
End Obj.

(** ** JavaScript values

    What [JSON.parse] returns and what property reads on it yield.
    Numbers are IEEE 754 doubles. *)

Inductive value :=
| VUndefined
| VNull
| VBool (b : bool)
| VNum (n : spec_float)
| VStr (s : jsstring)
| VArr (elems : list value)
| VObj (fields : list (jsstring * value)).

(** [SdkFault]: whatever a provider SDK throws, as far as the clients
    look at it: [error.message], [error.error.message] and
    [JSON.stringify(error)]. *)
Record SdkFault := {
  fault_message : option jsstring;
  fault_api_message : option jsstring;
  fault_json : jsstring
}.

Inductive exn :=
| Error (message : jsstring)        (* [new Error(message)] *)
| SyntaxError (message : jsstring)  (* raised by [JSON.parse] *)
| TypeError (what : jsstring)       (* raised by the engine *)
| SdkError (f : SdkFault).          (* raised inside a provider SDK *)

Definition ToBoolean (v : value) : bool :=
  match v with
  | VUndefined | VNull => false
  | VBool b => b
  | VNum (S754_zero _) | VNum S754_nan => false
  | VNum _ => true
  | VStr s => Str.truthy s
  | VArr _ | VObj _ => true
  end.

(** [v.k] for a key [k] that no built-in prototype defines ([files],
    [filename], [content], [required_files], [security_issues],
    [comments]). *)
Definition get_prop (v : value) (k : jsstring) : exn + value :=
  match v with
  | VUndefined | VNull => inl (TypeError k)
  | VObj fields =>
      inr (match Obj.get k fields with Some x => x | None => VUndefined end)
  | _ => inr VUndefined
  end.

(** [Array.isArray(v)] *)
Definition isArray (v : value) : bool :=
  match v with VArr _ => true | _ => false end.

(** [n > 0] on doubles. *)
Definition number_positive (n : spec_float) : bool :=
  match n with
  | S754_infinity false | S754_finite false _ _ => true
  | _ => false
  end.

(** The file maps of the source: [Record<string, string>] by
    declaration, any value at run time where the entries come out of
    parsed model output. *)
Abbreviation FileMap := (list (jsstring * value)).

(** A file map that honours its declared type. *)
Definition all_strings (m : FileMap) : Prop :=
  Forall (fun kv => exists s, snd kv = VStr s) m.

(** ** types.ts: the vendor-neutral schema *)

Inductive SchemaType := STRING | NUMBER | INTEGER | BOOLEAN | ARRAY | OBJECT.

Definition SchemaType_value (t : SchemaType) : jsstring :=
  match t with
  | STRING => lit "STRING"
  | NUMBER => lit "NUMBER"
  | INTEGER => lit "INTEGER"
  | BOOLEAN => lit "BOOLEAN"
  | ARRAY => lit "ARRAY"
  | OBJECT => lit "OBJECT"
  end.

Inductive ResponseSchema := mkSchema {
  type : SchemaType;
  description : option jsstring;
  properties : option (list (jsstring * ResponseSchema));
  items : option ResponseSchema;
  enum : option (list jsstring);
  required : option (list jsstring)
}.

(** The invariant of the data model: an OBJECT node defines
    [properties], an ARRAY node defines [items], at every depth. *)
Fixpoint well_formed (s : ResponseSchema) : Prop :=
  match s with
  | mkSchema t _ ps it _ _ =>
      (t = OBJECT -> ps <> None) /\
      (t = ARRAY -> it <> None) /\
      match ps with
      | Some l =>
          (fix all (l : list (jsstring * ResponseSchema)) : Prop :=
             match l with
             | [] => True
             | (_, c) :: r => well_formed c /\ all r
             end) l
      | None => True
      end /\
      match it with
      | Some c => well_formed c
      | None => True
      end
  end.

(** ** llmFactory.ts: schema mappers *)

(** The [Type] enumeration of the Google SDK. *)
Inductive GoogleType :=
| Type_STRING | Type_NUMBER | Type_INTEGER | Type_BOOLEAN | Type_ARRAY
| Type_OBJECT.

Inductive GoogleSchema := mkGoogleSchema {
  g_type : GoogleType;
  g_description : option jsstring;
  g_enum : option (list jsstring);
  g_required : option (list jsstring);
  g_properties : option (list (jsstring * GoogleSchema));
  g_items : option GoogleSchema
}.

Definition googleTypeMap (t : SchemaType) : GoogleType :=
  match t with
  | STRING => Type_STRING
  | NUMBER => Type_NUMBER
  | INTEGER => Type_INTEGER
  | BOOLEAN => Type_BOOLEAN
  | ARRAY => Type_ARRAY
  | OBJECT => Type_OBJECT
  end.

(** [if (schema.description) out.description = ...]: kept when truthy. *)
Definition keep_truthy (d : option jsstring) : option jsstring :=
  match d with
  | Some s => if Str.truthy s then Some s else None
  | None => None
  end.

Fixpoint mapToGoogleSchema (schema : ResponseSchema) : GoogleSchema :=
  match schema with
  | mkSchema t d ps it e r =>
      {| g_type := googleTypeMap t;
         g_description := keep_truthy d;
         g_enum := e;
         g_required := r;
         g_properties :=
           match ps with
           | Some l =>
               Some ((fix loop (l : list (jsstring * ResponseSchema))
                          (out : list (jsstring * GoogleSchema)) :=
                        match l with
                        | [] => out
                        | (key, prop) :: rest =>
                            loop rest (Obj.assign key (mapToGoogleSchema prop) out)
                        end) l [])
           | None => None
           end;
         g_items :=
           match it with
           | Some i => Some (mapToGoogleSchema i)
           | None => None
           end |}
  end.

(** The loose JSON-Schema-like dialect. *)
Inductive JsonSchema := mkJsonSchema {
  j_type : jsstring;
  j_description : option jsstring;
  j_enum : option (list jsstring);
  j_required : option (list jsstring);
  j_properties : option (list (jsstring * JsonSchema));
  j_additionalProperties : option bool;
  j_items : option JsonSchema
}.

(** [toLowerCase] and [toUpperCase] on ASCII text, which the six type
    names and the two provider names are. *)
Definition ascii_lower (c : N) : N :=
  if (65 <=? c) && (c <=? 90) then c + 32 else c.

Definition ascii_upper (c : N) : N :=
  if (97 <=? c) && (c <=? 122) then c - 32 else c.

Fixpoint mapToJsonSchema (schema : ResponseSchema) : JsonSchema :=
  match schema with
  | mkSchema t d ps it e r =>
      {| j_type := map ascii_lower (SchemaType_value t);
         j_description := keep_truthy d;
         j_enum := e;
         j_required := r;
         j_properties :=
           match ps with
           | Some l =>
               Some ((fix loop (l : list (jsstring * ResponseSchema))
                          (out : list (jsstring * JsonSchema)) :=
                        match l with
                        | [] => out
                        | (key, prop) :: rest =>
                            loop rest (Obj.assign key (mapToJsonSchema prop) out)
                        end) l [])
           | None => None
           end;
         j_additionalProperties :=
           match ps with
           | Some _ => Some false
           | None => None
           end;
         j_items :=
           match it with
           | Some i => Some (mapToJsonSchema i)
           | None => None
           end |}
  end.

(** A property of every node of a translated schema. *)
Fixpoint every_node (P : JsonSchema -> Prop) (o : JsonSchema) : Prop :=
  match o with
  | mkJsonSchema _ _ _ _ ps _ it =>
      P o /\
      match ps with
      | Some l =>
          (fix all (l : list (jsstring * JsonSchema)) : Prop :=
             match l with
             | [] => True
             | (_, c) :: r => every_node P c /\ all r
             end) l
      | None => True
      end /\
      match it with
      | Some c => every_node P c
      | None => True
      end
  end.

Definition lowercase_type_names : list jsstring :=
  [lit "string"; lit "number"; lit "integer"; lit "boolean"; lit "array";
   lit "object"].

(** What the loose dialect promises of a node. *)
Definition closed_node (o : JsonSchema) : Prop :=
  In (j_type o) lowercase_type_names /\
  (j_type o = lit "object" -> j_additionalProperties o = Some false).

(** The name of a type in the loose dialect. *)
Definition loose_type_name (t : SchemaType) : jsstring :=
  match t with
  | STRING => lit "string"
  | NUMBER => lit "number"
  | INTEGER => lit "integer"
  | BOOLEAN => lit "boolean"
  | ARRAY => lit "array"
  | OBJECT => lit "object"
  end.

(** [o] is a translation of the schema [s] to the loose dialect: it
    carries the lower-case name of the type of [s], and
    [additionalProperties: false] when [s] is an OBJECT node; it has
    properties and items where [s] has them; its properties are named as
    properties of [s] are, and under the name of a property of [s] it
    holds a translation of that property (of the last one, should the
    name be given twice; [__proto__] names no property of an object
    written by assignment); its items are a translation of those of
    [s]. *)
Fixpoint translates (s : ResponseSchema) (o : JsonSchema) {struct s} : Prop :=
  match s with
  | mkSchema t _ ps it _ _ =>
      j_type o = loose_type_name t /\
      (t = OBJECT -> j_additionalProperties o = Some false) /\
      match ps, j_properties o with
      | Some l, Some out =>
          (forall k, Obj.get k out <> None -> In k (map fst l)) /\
          (fix each (l : list (jsstring * ResponseSchema)) : Prop :=
             match l with
             | [] => True
             | (k, c) :: r =>
                 (k <> Obj.proto_key -> ~ In k (map fst r) ->
                  exists o', Obj.get k out = Some o' /\ translates c o') /\
                 each r
             end) l
      | None, None => True
      | _, _ => False
      end /\
      match it, j_items o with
      | Some c, Some o' => translates c o'
      | None, None => True
      | _, _ => False
      end
  end.

(** ** types.ts: pipeline data *)

Inductive AnalysisStep :=
| IDLE | ANALYST | WAITING_FOR_USER | ARCHITECT | CODER | AUDITOR | COMPLETE
| ERROR.

Inductive LlmProvider := google | openrouter.

Definition provider_name (p : LlmProvider) : jsstring :=
  match p with
  | google => lit "google"
  | openrouter => lit "openrouter"
  end.

Record ApiKeys := { keys_google : jsstring; keys_openrouter : jsstring }.

Record ModelSelection := { provider : LlmProvider; model : jsstring }.

Record ModelConfig := {
  cfg_ANALYST : ModelSelection;
  cfg_ARCHITECT : ModelSelection;
  cfg_CODER : ModelSelection;
  cfg_AUDITOR : ModelSelection
}.

Record Usage := { input : Z; output : Z; total : Z }.

(** The [type] of a log entry. *)
Module Kind.
Inductive t := prompt | response | info | error.
End Kind.

Record LogEntry := {
  step : AnalysisStep;
  entry_type : Kind.t;
  content : jsstring;
  timestamp : Z;
  durationMs : option Z;
  tokens : option Usage
}.

Record RefactorResult := {
  plan : value;
  generatedFiles : FileMap;
  securityReport : value;
  auditorComments : value;
  result_modelConfig : ModelConfig
}.

Inductive Tab := INPUT | PLAN | CODE | SECURITY | LOGS.

(** ** The JavaScript platform

    Built-ins whose results the pipeline passes along without looking
    into them, or which it looks into only through the values above. *)

Record Platform := {
  (** [JSON.parse(text)]: the value, or the message of the
      [SyntaxError]. *)
  JSON_parse : jsstring -> jsstring + value;
  (** [JSON.stringify(schema, null, 2)] *)
  JSON_stringify : JsonSchema -> jsstring;
  (** [String(n)] for a number [n] *)
  Number_toString : spec_float -> jsstring;
  (** [String(o)] and [Number(o)] for an array or an object [o]; [None]
      for the [TypeError] raised when [o] hides [toString] or [valueOf]
      behind a property that is no function. *)
  Object_toString : value -> option jsstring;
  Object_toNumber : value -> option spec_float;
  (** [Number(s)] for a string *)
  String_toNumber : jsstring -> spec_float;
  (** [s.toLowerCase()] *)
  String_toLowerCase : jsstring -> jsstring;
  (** The [message] of the [TypeError] raised by the engine. *)
  TypeError_message : jsstring -> jsstring
}.

(** prompts.ts: the four templates.  Their wording is not modelled. *)
Record PromptTemplates := {
  PROMPTS_ANALYST : jsstring -> jsstring;
  PROMPTS_ARCHITECT : value -> jsstring -> jsstring;
  PROMPTS_CODER : jsstring -> jsstring -> jsstring;
  PROMPTS_AUDITOR : jsstring -> jsstring -> jsstring
}.

(** ** Provider SDKs, as seen by the clients *)

Record GoogleConfig := {
  config_systemInstruction : option jsstring;
  config_responseSchema : option GoogleSchema;
  config_responseMimeType : option jsstring
}.

Record GoogleRequest := {
  greq_model : jsstring;
  greq_contents : jsstring;
  greq_config : GoogleConfig
}.

Record UsageMetadata := {
  promptTokenCount : option Z;
  candidatesTokenCount : option Z;
  totalTokenCount : option Z
}.

Record GoogleResponse := {
  gres_text : option jsstring;
  usageMetadata : option UsageMetadata
}.

Inductive Role := system | user.

Record OpenRouterRequest := {
  oreq_model : jsstring;
  oreq_messages : list (Role * jsstring)
}.

Record CompletionUsage := {
  prompt_tokens : Z;
  completion_tokens : Z;
  total_tokens : Z
}.

(** A choice of a chat completion: its [message], if any, and the
    [content] of that message, if any. *)
Record Choice := { choice_message : option (option jsstring) }.

Record Completion := {
  choices : list Choice;
  completion_usage : option CompletionUsage
}.

Inductive SdkCall :=
| GoogleCall (apiKey : jsstring) (req : GoogleRequest)
| OpenRouterCall (apiKey : jsstring) (req : OpenRouterRequest).

(** ** The world around one run *)

Record World := {
  (** [typeof window !== 'undefined'] *)
  has_window : bool;
  localStorage : gmap jsstring jsstring;
  (** [process.env] *)
  env : gmap jsstring jsstring;
  (** The successive results of [Date.now()]. *)
  clock : nat -> Z;
  (** What the SDKs answer to the n-th request of the run. *)
  google_sdk : nat -> jsstring -> GoogleRequest -> SdkFault + GoogleResponse;
  openrouter_sdk :
    nat -> jsstring -> OpenRouterRequest -> SdkFault + Completion
}.

(** What a run leaves behind: the entries handed to [onLog], the steps
    handed to [onProgress], the requests sent to the SDKs, the lines
    written with [console.error], and the number of clock readings. *)
Record Trace := {
  logs : list LogEntry;
  steps : list AnalysisStep;
  requests : list SdkCall;
  console : list (jsstring * exn);
  ticks : nat
}.

Definition empty_trace : Trace :=
  {| logs := []; steps := []; requests := []; console := []; ticks := O |}.

(** ** Effects: a state and exception monad over [Trace] *)

Definition M (A : Type) : Type := Trace -> (exn + A) * Trace.

#[global] Instance M_ret : MRet M := fun A (x : A) tr => (inr x, tr).

#[global] Instance M_bind : MBind M := fun A B (f : A -> M B) (m : M A) tr =>
  match m tr with
  | (inr x, tr') => f x tr'
  | (inl e, tr') => (inl e, tr')
  end.

Definition throw {A} (e : exn) : M A := fun tr => (inl e, tr).

Definition try_catch {A} (body : M A) (handler : exn -> M A) : M A := fun tr =>
  match body tr with
  | (inr x, tr') => (inr x, tr')
  | (inl e, tr') => handler e tr'
  end.

(** A pure computation that may throw. *)
Definition lift {A} (r : exn + A) : M A := fun tr => (r, tr).

Definition onLog (entry : LogEntry) : M unit := fun tr =>
  (inr tt,
   {| logs := logs tr ++ [entry]; steps := steps tr; requests := requests tr;
      console := console tr; ticks := ticks tr |}).

Definition onProgress (s : AnalysisStep) : M unit := fun tr =>
  (inr tt,
   {| logs := logs tr; steps := steps tr ++ [s]; requests := requests tr;
      console := console tr; ticks := ticks tr |}).

Definition console_error (label : jsstring) (e : exn) : M unit := fun tr =>
  (inr tt,
   {| logs := logs tr; steps := steps tr; requests := requests tr;
      console := console tr ++ [(label, e)]; ticks := ticks tr |}).

Definition sent (c : SdkCall) (tr : Trace) : Trace :=
  {| logs := logs tr; steps := steps tr; requests := requests tr ++ [c];
     console := console tr; ticks := ticks tr |}.

Definition nl : jsstring := [10].

Section Pipeline.

Variable JS : Platform.
Variable PROMPTS : PromptTemplates.
Variable W : World.

Definition Date_now : M Z := fun tr =>
  (inr (clock W (ticks tr)),
   {| logs := logs tr; steps := steps tr; requests := requests tr;
      console := console tr; ticks := S (ticks tr) |}).

(** *** Conversions *)

(** [String(v)], as a template literal and a property key apply it. *)
Definition ToString (v : value) : exn + jsstring :=
  match v with
  | VUndefined => inr (lit "undefined")
  | VNull => inr (lit "null")
  | VBool true => inr (lit "true")
  | VBool false => inr (lit "false")
  | VNum n => inr (Number_toString JS n)
  | VStr s => inr s
  | VArr _ | VObj _ =>
      match Object_toString JS v with
      | Some s => inr s
      | None => inl (TypeError (lit "toString"))
      end
  end.

(** [v > 0] *)
Definition greater_than_zero (v : value) : exn + bool :=
  match v with
  | VUndefined | VNull => inr false
  | VBool b => inr b
  | VNum n => inr (number_positive n)
  | VStr s => inr (number_positive (String_toNumber JS s))
  | VArr _ | VObj _ =>
      match Object_toNumber JS v with
      | Some n => inr (number_positive n)
      | None => inl (TypeError (lit "valueOf"))
      end
  end.

(** [v.length > 0] *)
Definition length_positive (v : value) : exn + bool :=
  match v with
  | VUndefined | VNull => inl (TypeError (lit "length"))
  | VArr l => inr (negb (Nat.eqb (length l) O))
  | VStr s => inr (negb (Nat.eqb (length s) O))
  | VObj fields =>
      match Obj.get (lit "length") fields with
      | Some x => greater_than_zero x
      | None => inr false
      end
  | VBool _ | VNum _ => inr false
  end.

(** [e.message] *)
Definition exn_message (e : exn) : jsstring :=
  match e with
  | Error m | SyntaxError m => m
  | TypeError w => TypeError_message JS w
  | SdkError f => match fault_message f with Some m => m | None => [] end
  end.

Definition exn_name (e : exn) : jsstring :=
  match e with
  | SyntaxError _ => lit "SyntaxError"
  | TypeError _ => lit "TypeError"
  | Error _ | SdkError _ => lit "Error"
  end.

(** [`${e}`] for an error object: [Error.prototype.toString]. *)
Definition exn_toString (e : exn) : jsstring :=
  if Str.truthy (exn_message e)
  then exn_name e ++ lit ": " ++ exn_message e
  else exn_name e.

(** [s.toLowerCase()]: computed on ASCII text, the platform's otherwise. *)
Definition toLowerCase (s : jsstring) : jsstring :=
  if forallb (fun c => c <? 128) s then map ascii_lower s
  else String_toLowerCase JS s.

(** [a || b] on optional strings: the first truthy one. *)
Definition first_truthy (a : option jsstring) (b : option jsstring)
  : option jsstring :=
  match keep_truthy a with
  | Some s => Some s
  | None => b
  end.

(** *** utils/settingsManager.ts *)

Definition getStoredApiKey (p : LlmProvider) : option jsstring :=
  if negb (has_window W) then None
  else
    match keep_truthy
            (localStorage W !! (map ascii_upper (provider_name p)
                                ++ lit "_API_KEY")) with
    | Some storedKey => Some storedKey
    | None =>
        match p with
        | google => env W !! lit "API_KEY"
        | openrouter => env W !! lit "OPENROUTER_API_KEY"
        end
    end.

(** *** services/llmFactory.ts: the clients *)

Record GenerateContentParams := {
  p_model : jsstring;
  p_systemInstruction : option jsstring;
  p_prompt : jsstring;
  p_responseSchema : option ResponseSchema;
  p_responseMimeType : option jsstring
}.

Record GenerateContentResult := {
  text : jsstring;
  usage : option Usage
}.

Inductive ILlmClient :=
| GoogleLlmClient (apiKey : jsstring)
| OpenRouterLlmClient (apiKey : jsstring).

Definition google_call (apiKey : jsstring) (req : GoogleRequest)
  : M GoogleResponse := fun tr =>
  match google_sdk W (length (requests tr)) apiKey req with
  | inr r => (inr r, sent (GoogleCall apiKey req) tr)
  | inl f => (inl (SdkError f), sent (GoogleCall apiKey req) tr)
  end.

Definition openrouter_call (apiKey : jsstring) (req : OpenRouterRequest)
  : M Completion := fun tr =>
  match openrouter_sdk W (length (requests tr)) apiKey req with
  | inr r => (inr r, sent (OpenRouterCall apiKey req) tr)
  | inl f => (inl (SdkError f), sent (OpenRouterCall apiKey req) tr)
  end.

Definition or_zero (n : option Z) : Z :=
  match n with Some k => k | None => 0%Z end.

(** [error.message || JSON.stringify(error)] *)
Definition google_detail (e : exn) : jsstring :=
  match e with
  | SdkError f =>
      match keep_truthy (fault_message f) with
      | Some m => m
      | None => fault_json f
      end
  | _ => exn_message e
  end.

Definition google_error_message (model : jsstring) (detail : jsstring)
  : jsstring :=
  lit "Google AI Error (" ++ model ++ lit "): " ++ detail.

Definition Google_generateContent (apiKey : jsstring)
    (params : GenerateContentParams) : M GenerateContentResult :=
  let isGemma := Str.includes (lit "gemma") (toLowerCase (p_model params)) in
  let si := keep_truthy (p_systemInstruction params) in
  let finalPrompt :=
    match si with
    | Some s =>
        if isGemma
        then lit "SYSTEM INSTRUCTION: " ++ s ++ nl ++ nl
             ++ lit "USER PROMPT: " ++ p_prompt params
        else p_prompt params
    | None => p_prompt params
    end in
  let config :=
    {| config_systemInstruction :=
         match si with
         | Some s => if isGemma then None else Some s
         | None => None
         end;
       config_responseSchema :=
         match p_responseSchema params with
         | Some schema => Some (mapToGoogleSchema schema)
         | None => None
         end;
       config_responseMimeType := keep_truthy (p_responseMimeType params) |} in
  try_catch
    (response ← google_call apiKey
       {| greq_model := p_model params; greq_contents := finalPrompt;
          greq_config := config |};
     let usage :=
       match usageMetadata response with
       | Some u =>
           Some {| input := or_zero (promptTokenCount u);
                   output := or_zero (candidatesTokenCount u);
                   total := or_zero (totalTokenCount u) |}
       | None => None
       end in
     mret {| text := match keep_truthy (gres_text response) with
                     | Some s => s
                     | None => []
                     end;
             usage := usage |})
    (fun error =>
       console_error (lit "Google AI Error:") error;;
       throw (Error (google_error_message (p_model params)
                       (google_detail error)))).

(** [error?.error?.message || error.message || "Unknown error"] *)
Definition openrouter_detail (e : exn) : jsstring :=
  match e with
  | SdkError f =>
      match first_truthy (fault_api_message f) (keep_truthy (fault_message f))
      with
      | Some m => m
      | None => lit "Unknown error"
      end
  | _ => Str.or_else (exn_message e) (lit "Unknown error")
  end.

Definition openrouter_error_message (model : jsstring) (msg : jsstring)
  : jsstring :=
  lit "OpenRouter Error (" ++ model ++ lit "): " ++ msg.

Definition OpenRouter_generateContent (apiKey : jsstring)
    (params : GenerateContentParams) : M GenerateContentResult :=
  let systemContent :=
    match keep_truthy (p_systemInstruction params) with
    | Some s => s
    | None => lit "You are a helpful AI assistant."
    end in
  let systemContent :=
    if decide (p_responseMimeType params = Some (lit "application/json")) then
      let systemContent :=
        systemContent ++ nl ++ nl ++
        lit "CRITICAL INSTRUCTION: You MUST respond with valid, raw JSON only. Do not wrap in markdown code blocks. Do not add explanations." in
      match p_responseSchema params with
      | Some schema =>
          systemContent ++ nl ++ nl ++ lit "Schema to follow:" ++ nl
          ++ JSON_stringify JS (mapToJsonSchema schema)
      | None => systemContent
      end
    else systemContent in
  let messages := [(system, systemContent); (user, p_prompt params)] in
  try_catch
    (completion ← openrouter_call apiKey
       {| oreq_model := p_model params; oreq_messages := messages |};
     match choices completion with
     | [] => throw (TypeError (lit "message"))
     | choice :: _ =>
         mret {| text :=
                   match choice_message choice with
                   | Some content =>
                       match keep_truthy content with
                       | Some s => s
                       | None => []
                       end
                   | None => []
                   end;
                 usage :=
                   match completion_usage completion with
                   | Some u =>
                       Some {| input := prompt_tokens u;
                               output := completion_tokens u;
                               total := total_tokens u |}
                   | None => None
                   end |}
     end)
    (fun error =>
       console_error (lit "OpenRouter Error:") error;;
       throw (Error (openrouter_error_message (p_model params)
                       (openrouter_detail error)))).

Definition generateContent (client : ILlmClient)
    (params : GenerateContentParams) : M GenerateContentResult :=
  match client with
  | GoogleLlmClient apiKey => Google_generateContent apiKey params
  | OpenRouterLlmClient apiKey => OpenRouter_generateContent apiKey params
  end.

Definition createLlmClient (p : LlmProvider) (apiKey : option jsstring)
  : M ILlmClient :=
  match p with
  | google =>
      match first_truthy apiKey
              (first_truthy (env W !! lit "API_KEY")
                 (keep_truthy (env W !! lit "NEXT_PUBLIC_GOOGLE_API_KEY")))
      with
      | Some key => mret (GoogleLlmClient key)
      | None => throw (Error (lit "Google API Key missing."))
      end
  | openrouter =>
      match first_truthy apiKey
              (first_truthy (env W !! lit "OPENROUTER_API_KEY")
                 (keep_truthy (env W !! lit "NEXT_PUBLIC_OPENROUTER_API_KEY")))
      with
      | Some key => mret (OpenRouterLlmClient key)
      | None => throw (Error (lit "OpenRouter API Key missing."))
      end
  end.

(** *** services/migrationService.ts *)

Definition createLog (step : AnalysisStep) (type : Kind.t) (content : jsstring)
    (durationMs : option Z) (tokens : option Usage) : M LogEntry :=
  now ← Date_now;
  mret {| step := step; entry_type := type; content := content;
          timestamp := now; durationMs := durationMs; tokens := tokens |}.

Definition resolveApiKey (p : LlmProvider) (sessionKeys : option ApiKeys)
  : option jsstring :=
  match sessionKeys with
  | Some keys =>
      match p with
      | google =>
          if Str.truthy (keys_google keys) then Some (keys_google keys)
          else getStoredApiKey p
      | openrouter =>
          if Str.truthy (keys_openrouter keys) then Some (keys_openrouter keys)
          else getStoredApiKey p
      end
  | None => getStoredApiKey p
  end.

(** [!apiKey] *)
Definition no_key (apiKey : option jsstring) : bool :=
  match keep_truthy apiKey with Some _ => false | None => true end.

Definition using_provider (selection : ModelSelection) (prompt : jsstring)
  : jsstring :=
  lit "Using Provider: " ++ provider_name (provider selection)
  ++ lit ", Model: " ++ model selection ++ nl ++ prompt.

Definition leaf (t : SchemaType) : ResponseSchema :=
  mkSchema t None None None None None.

Definition array_of (t : SchemaType) : ResponseSchema :=
  mkSchema ARRAY None None (Some (leaf t)) None None.

Definition analyst_schema : ResponseSchema :=
  mkSchema OBJECT None
    (Some [ (lit "summary", leaf STRING);
            (lit "variables", array_of STRING);
            (lit "security_concerns", array_of STRING);
            (lit "migration_strategy", leaf STRING);
            (lit "required_files",
             mkSchema ARRAY
               (Some (lit "List of filenames found in local imports/includes"))
               None (Some (leaf STRING)) None None) ])
    None None
    (Some [lit "summary"; lit "variables"; lit "security_concerns";
           lit "migration_strategy"; lit "required_files"]).

Definition application_json : jsstring := lit "application/json".

Definition missing_key_analyst (p : LlmProvider) : jsstring :=
  lit "Missing API Key for " ++ provider_name p
  ++ lit ". Please click 'Settings' (Zahnrad) and enter your Key.".

Definition analyst_invalid_json : jsstring :=
  lit "Analyst failed to produce valid JSON.".

Definition missing_key (p : LlmProvider) : jsstring :=
  lit "Missing API Key for " ++ provider_name p ++ lit ". Check Settings.".

(** Step 1: Analyst *)
Definition runAnalyst (selection : ModelSelection) (keys : ApiKeys)
    (mainCode : jsstring) : M value :=
  let prompt := PROMPTS_ANALYST PROMPTS mainCode in
  entry ← createLog ANALYST Kind.prompt (using_provider selection prompt)
            None None;
  onLog entry;;
  startTime ← Date_now;
  let apiKey := resolveApiKey (provider selection) (Some keys) in
  if no_key apiKey then throw (Error (missing_key_analyst (provider selection)))
  else
    client ← createLlmClient (provider selection) apiKey;
    response ← generateContent client
      {| p_model := model selection; p_systemInstruction := None;
         p_prompt := prompt; p_responseSchema := Some analyst_schema;
         p_responseMimeType := Some application_json |};
    finish ← Date_now;
    let durationMs := (finish - startTime)%Z in
    let rawText := cleanLlmOutput (Str.or_else (text response) (lit "{}")) in
    entry ← createLog ANALYST Kind.response rawText (Some durationMs)
              (usage response);
    onLog entry;;
    match JSON_parse JS rawText with
    | inr plan => mret plan
    | inl message =>
        entry ← createLog ANALYST Kind.error
                  (lit "JSON Parse Error: " ++ message) None None;
        onLog entry;;
        throw (Error analyst_invalid_json)
    end.

(** [Object.entries(files).map(([name, content]) => ...).join("\n")] *)
Fixpoint render_entries (fmt : jsstring -> value -> exn + jsstring)
    (files : FileMap) : exn + list jsstring :=
  match files with
  | [] => inr []
  | (name, content) :: rest =>
      match fmt name content with
      | inl e => inl e
      | inr line =>
          match render_entries fmt rest with
          | inl e => inl e
          | inr lines => inr (line :: lines)
          end
      end
  end.

Definition render (fmt : jsstring -> value -> exn + jsstring) (files : FileMap)
  : exn + jsstring :=
  match render_entries fmt files with
  | inl e => inl e
  | inr lines => inr (Str.join nl lines)
  end.

Definition context_line (name : jsstring) (content : value) : exn + jsstring :=
  match ToString content with
  | inl e => inl e
  | inr c => inr (lit "--- FILE: " ++ name ++ lit " ---" ++ nl ++ c ++ nl)
  end.

(** Step 2: Architect *)
Definition runArchitect (selection : ModelSelection) (keys : ApiKeys)
    (plan : value) (allContext : FileMap) : M jsstring :=
  contextStr ← lift (render context_line allContext);
  let prompt := PROMPTS_ARCHITECT PROMPTS plan contextStr in
  entry ← createLog ARCHITECT Kind.prompt (using_provider selection prompt)
            None None;
  onLog entry;;
  startTime ← Date_now;
  let apiKey := resolveApiKey (provider selection) (Some keys) in
  if no_key apiKey then throw (Error (missing_key (provider selection)))
  else
    client ← createLlmClient (provider selection) apiKey;
    response ← generateContent client
      {| p_model := model selection; p_systemInstruction := None;
         p_prompt := prompt; p_responseSchema := None;
         p_responseMimeType := None |};
    finish ← Date_now;
    let durationMs := (finish - startTime)%Z in
    let rawText :=
      cleanLlmOutput (Str.or_else (text response) (lit "Architect failed.")) in
    entry ← createLog ARCHITECT Kind.response rawText (Some durationMs)
              (usage response);
    onLog entry;;
    mret rawText.

(** The callback of [parsed.files.forEach]: the file map after the
    entry [f], or what reading [f] raised. *)
Definition add_file (fileMap : FileMap) (f : value) : exn + FileMap :=
  match get_prop f (lit "filename") with
  | inl e => inl e
  | inr filename =>
      if ToBoolean filename then
        match get_prop f (lit "content") with
        | inl e => inl e
        | inr content =>
            if ToBoolean content then
              match ToString filename with
              | inl e => inl e
              | inr key => inr (Obj.assign key content fileMap)
              end
            else inr fileMap
        end
      else inr fileMap
  end.

(** [parsed.files.forEach(...)]: an exception ends the iteration and
    leaves in the file map what the entries before it put there. *)
Fixpoint forEach_files (files : list value) (fileMap : FileMap)
  : FileMap * option exn :=
  match files with
  | [] => (fileMap, None)
  | f :: rest =>
      match add_file fileMap f with
      | inl e => (fileMap, Some e)
      | inr fileMap' => forEach_files rest fileMap'
      end
  end.

(** Strategy 1: the body of the [try] block.  The file map it leaves,
    [jsonSuccess], and the exception it ended with, if any. *)
Definition strict_extraction (text : jsstring) : FileMap * bool * option exn :=
  match JSON_parse JS (cleanLlmOutput text) with
  | inl message => ([], false, Some (SyntaxError message))
  | inr parsed =>
      match get_prop parsed (lit "files") with
      | inl e => ([], false, Some e)
      | inr (VArr files) =>
          match forEach_files files [] with
          | (fileMap, None) => (fileMap, true, None)
          | (fileMap, Some e) => (fileMap, false, Some e)
          end
      | inr _ => ([], false, None)
      end
  end.

Definition is_name_char (c : N) : bool :=
  ((97 <=? c) && (c <=? 122)) || ((65 <=? c) && (c <=? 90))
  || ((48 <=? c) && (c <=? 57))
  || (c =? 95) || (c =? 45) || (c =? 46) || (c =? 47).

(** The fallback pattern
    [###\s+([a-zA-Z0-9_\-\.\/]+)\s+`{3}(?:python|bash|json)?\s*([\s\S]*?)`{3}]
    anchored at the head of [s]: the length of the match and its two
    groups.  Every greedy run is followed by something that cannot begin
    inside it, so each run is taken whole; the lazy group ends at the
    first fence behind it. *)
Definition match_file_block (s : jsstring)
  : option (nat * jsstring * jsstring) :=
  if Str.starts_with (lit "###") s then
    let '(w1, r) := Str.span Str.is_white_space (drop 3 s) in
    let '(name, r) := Str.span is_name_char r in
    let '(w2, r) := Str.span Str.is_white_space r in
    if Str.truthy w1 && Str.truthy name && Str.truthy w2
       && Str.starts_with fence r then
      let r := drop 3 r in
      let lang :=
        if Str.starts_with (lit "python") r then 6%nat
        else if Str.starts_with (lit "bash") r then 4%nat
        else if Str.starts_with (lit "json") r then 4%nat
        else 0%nat in
      let '(w3, r) := Str.span Str.is_white_space (drop lang r) in
      match Str.index_of fence r with
      | Some k =>
          Some (3 + length w1 + length name + length w2 + 3 + lang
                + length w3 + k + 3, name, take k r)%nat
      | None => None
      end
    else None
  else None.

(** The [while ((match = regex.exec(text)) !== null)] loop: the groups
    of the successive matches. *)
Fixpoint exec_all (skip : nat) (s : jsstring) : list (jsstring * jsstring) :=
  match s with
  | [] => []
  | _ :: t =>
      match skip with
      | S k => exec_all k t
      | O =>
          match match_file_block s with
          | Some (S n, name, body) => (name, body) :: exec_all n t
          | _ => exec_all O t
          end
      end
  end.

(** Strategy 2: the body of the loop, over all matches. *)
Definition regex_fallback (text : jsstring) (fileMap : FileMap) : FileMap :=
  fold_left
    (fun fileMap m =>
       let filename := Str.trim (fst m) in
       let content := Str.trim (snd m) in
       Obj.assign filename (VStr content) fileMap)
    (exec_all O text) fileMap.

(** [!jsonSuccess || Object.keys(fileMap).length === 0] *)
Definition fallback_runs (jsonSuccess : bool) (fileMap : FileMap) : bool :=
  negb jsonSuccess || Nat.eqb (length fileMap) O.

Definition coder_failed : jsstring :=
  lit "Coder failed to generate files. Neither JSON parser nor Regex could find valid code blocks.".

(** What [runCoder] makes of the response text, behind the log entry. *)
Definition extract_files (text : jsstring) : M FileMap :=
  let '(fileMap, jsonSuccess, caught) := strict_extraction text in
  match caught with
  | Some e =>
      entry ← createLog CODER Kind.info
                (lit "Coder JSON Parse Failed: " ++ exn_toString e
                 ++ lit ". Attempting Regex Fallback.") None None;
      onLog entry
  | None => mret tt
  end;;
  let fileMap :=
    if fallback_runs jsonSuccess fileMap then regex_fallback text fileMap
    else fileMap in
  if Nat.eqb (length fileMap) O then throw (Error coder_failed)
  else mret fileMap.

(** Step 3: Coder *)
Definition runCoder (selection : ModelSelection) (keys : ApiKeys)
    (plan : value) (architecture : jsstring) (allContext : FileMap)
  : M FileMap :=
  contextStr ← lift (render context_line allContext);
  let prompt := PROMPTS_CODER PROMPTS architecture contextStr in
  entry ← createLog CODER Kind.prompt (using_provider selection prompt)
            None None;
  onLog entry;;
  startTime ← Date_now;
  let apiKey := resolveApiKey (provider selection) (Some keys) in
  if no_key apiKey then throw (Error (missing_key (provider selection)))
  else
    client ← createLlmClient (provider selection) apiKey;
    response ← generateContent client
      {| p_model := model selection; p_systemInstruction := None;
         p_prompt := prompt; p_responseSchema := None;
         p_responseMimeType := Some application_json |};
    finish ← Date_now;
    let durationMs := (finish - startTime)%Z in
    let text := Str.or_else (text response) [] in
    entry ← createLog CODER Kind.response text (Some durationMs)
              (usage response);
    onLog entry;;
    extract_files text.

Definition auditor_schema : ResponseSchema :=
  mkSchema OBJECT None
    (Some [ (lit "comments", leaf STRING);
            (lit "security_issues",
             mkSchema ARRAY None None
               (Some (mkSchema OBJECT None
                  (Some [ (lit "severity",
                           mkSchema STRING None None None
                             (Some [lit "Critical"; lit "High"; lit "Medium";
                                    lit "Low"]) None);
                          (lit "title", leaf STRING);
                          (lit "description", leaf STRING);
                          (lit "location", leaf STRING) ])
                  None None
                  (Some [lit "severity"; lit "title"; lit "description";
                         lit "location"])))
               None None) ])
    None None
    (Some [lit "comments"; lit "security_issues"]).

(** [`${n}: ${c.substring(0, 500)}...`] *)
Definition original_line (n : jsstring) (c : value) : exn + jsstring :=
  match c with
  | VStr s => inr (n ++ lit ": " ++ take 500 s ++ lit "...")
  | _ => inl (TypeError (lit "substring"))
  end.

Definition generated_line (n : jsstring) (c : value) : exn + jsstring :=
  match ToString c with
  | inl e => inl e
  | inr s => inr (lit "--- " ++ n ++ lit " ---" ++ nl ++ s)
  end.

(** Step 4: Auditor *)
Definition runAuditor (selection : ModelSelection) (keys : ApiKeys)
    (originalContext : FileMap) (generatedFiles : FileMap) : M value :=
  originalStr ← lift (render original_line originalContext);
  newStr ← lift (render generated_line generatedFiles);
  let prompt := PROMPTS_AUDITOR PROMPTS originalStr newStr in
  entry ← createLog AUDITOR Kind.prompt (using_provider selection prompt)
            None None;
  onLog entry;;
  startTime ← Date_now;
  let apiKey := resolveApiKey (provider selection) (Some keys) in
  if no_key apiKey then throw (Error (missing_key (provider selection)))
  else
    client ← createLlmClient (provider selection) apiKey;
    response ← generateContent client
      {| p_model := model selection; p_systemInstruction := None;
         p_prompt := prompt; p_responseSchema := Some auditor_schema;
         p_responseMimeType := Some application_json |};
    finish ← Date_now;
    let durationMs := (finish - startTime)%Z in
    let rawText := cleanLlmOutput (Str.or_else (text response) (lit "{}")) in
    entry ← createLog AUDITOR Kind.response rawText (Some durationMs)
              (usage response);
    onLog entry;;
    match JSON_parse JS rawText with
    | inr v => mret v
    | inl message => throw (SyntaxError message)
    end.

(** *** Pipeline functions *)

(** [a || b] on values. *)
Definition value_or (a b : value) : value := if ToBoolean a then a else b.

Definition startAnalysis (mainCode : jsstring) (modelConfig : ModelConfig)
    (apiKeys : ApiKeys) : M (value * value) :=
  try_catch
    (onProgress ANALYST;;
     plan ← runAnalyst (cfg_ANALYST modelConfig) apiKeys mainCode;
     required_files ← lift (get_prop plan (lit "required_files"));
     needsFiles ←
       (if ToBoolean required_files then
          positive ← lift (length_positive required_files);
          mret (VBool positive)
        else mret required_files);
     mret (plan, needsFiles))
    (fun error =>
       console_error (lit "Analysis Failed:") error;;
       onProgress ERROR;;
       throw error).

Definition completeMigration (plan : value) (allContext : FileMap)
    (modelConfig : ModelConfig) (apiKeys : ApiKeys) : M RefactorResult :=
  try_catch
    (onProgress ARCHITECT;;
     arch ← runArchitect (cfg_ARCHITECT modelConfig) apiKeys plan allContext;
     onProgress CODER;;
     generatedFiles ← runCoder (cfg_CODER modelConfig) apiKeys plan arch
                        allContext;
     onProgress AUDITOR;;
     auditResult ← runAuditor (cfg_AUDITOR modelConfig) apiKeys allContext
                     generatedFiles;
     onProgress COMPLETE;;
     security_issues ← lift (get_prop auditResult (lit "security_issues"));
     comments ← lift (get_prop auditResult (lit "comments"));
     mret {| plan := plan;
             generatedFiles := generatedFiles;
             securityReport := value_or security_issues (VArr []);
             auditorComments :=
               value_or comments (VStr (lit "Audit completed."));
             result_modelConfig := modelConfig |})
    (fun error =>
       console_error (lit "Migration Completion Failed:") error;;
       onProgress ERROR;;
       throw error).

(** *** App.tsx: the two handlers that drive the pipeline

    [analysisStep] and [logs] are the last of [steps] and the [logs] of
    the trace: [onProgress] is [setAnalysisStep], [onLog] is [addLog]. *)

Record AppState := {
  inputCode : jsstring;
  activeTab : Tab;
  result : option RefactorResult;
  error : option jsstring;
  modelConfig : option ModelConfig;
  apiKeys : ApiKeys;
  showSettingsModal : bool;
  partialPlan : option value;
  showDependencyModal : bool
}.

Definition analysisStep (tr : Trace) : AnalysisStep := List.last (steps tr) IDLE.

Definition setAnalysisStep (s : AnalysisStep) (tr : Trace) : Trace :=
  snd (onProgress s tr).

Definition setLogs (l : list LogEntry) (tr : Trace) : Trace :=
  {| logs := l; steps := steps tr; requests := requests tr;
     console := console tr; ticks := ticks tr |}.

Definition main_legacy : jsstring := lit "main.legacy".

Definition failed (st : AppState) (err : exn) (fallback : jsstring) : AppState :=
  {| inputCode := inputCode st; activeTab := activeTab st;
     result := result st;
     error := Some (Str.or_else (exn_message err) fallback);
     modelConfig := modelConfig st; apiKeys := apiKeys st;
     showSettingsModal := showSettingsModal st;
     partialPlan := partialPlan st;
     showDependencyModal := showDependencyModal st |}.

Definition finished (st : AppState) (finalResult : RefactorResult) : AppState :=
  {| inputCode := inputCode st; activeTab := CODE;
     result := Some finalResult; error := error st;
     modelConfig := modelConfig st; apiKeys := apiKeys st;
     showSettingsModal := showSettingsModal st;
     partialPlan := partialPlan st;
     showDependencyModal := showDependencyModal st |}.

Definition handleStartAnalysis (st : AppState) (tr : Trace)
  : AppState * Trace :=
  if negb (Str.truthy (Str.trim (inputCode st))) then (st, tr)
  else
    match modelConfig st with
    | None =>
        ({| inputCode := inputCode st; activeTab := activeTab st;
            result := result st; error := error st;
            modelConfig := modelConfig st; apiKeys := apiKeys st;
            showSettingsModal := true; partialPlan := partialPlan st;
            showDependencyModal := showDependencyModal st |}, tr)
    | Some config =>
        let st :=
          {| inputCode := inputCode st; activeTab := activeTab st;
             result := None; error := None;
             modelConfig := modelConfig st; apiKeys := apiKeys st;
             showSettingsModal := showSettingsModal st; partialPlan := None;
             showDependencyModal := showDependencyModal st |} in
        let tr := setLogs [] (setAnalysisStep ANALYST tr) in
        match startAnalysis (inputCode st) config (apiKeys st) tr with
        | (inr (plan, needsFiles), tr) =>
            if ToBoolean needsFiles then
              ({| inputCode := inputCode st; activeTab := activeTab st;
                  result := result st; error := error st;
                  modelConfig := modelConfig st; apiKeys := apiKeys st;
                  showSettingsModal := showSettingsModal st;
                  partialPlan := Some plan; showDependencyModal := true |},
               setAnalysisStep WAITING_FOR_USER tr)
            else
              match completeMigration plan
                      [(main_legacy, VStr (inputCode st))] config (apiKeys st)
                      tr with
              | (inr finalResult, tr) => (finished st finalResult, tr)
              | (inl err, tr) =>
                  (failed st err
                     (lit "Analysis failed. Check LLM Logs for details."),
                   setAnalysisStep ERROR tr)
              end
        | (inl err, tr) =>
            (failed st err (lit "Analysis failed. Check LLM Logs for details."),
             setAnalysisStep ERROR tr)
        end
    end.

Definition handleDependencySubmit (additionalFiles : FileMap) (st : AppState)
    (tr : Trace) : AppState * Trace :=
  let st :=
    {| inputCode := inputCode st; activeTab := activeTab st;
       result := result st; error := error st;
       modelConfig := modelConfig st; apiKeys := apiKeys st;
       showSettingsModal := showSettingsModal st;
       partialPlan := partialPlan st; showDependencyModal := false |} in
  match partialPlan st, modelConfig st with
  | Some partialPlan, Some config =>
      if ToBoolean partialPlan then
        let fullContext :=
          Obj.spread [(main_legacy, VStr (inputCode st))] additionalFiles in
        match completeMigration partialPlan fullContext config (apiKeys st) tr
        with
        | (inr finalResult, tr) => (finished st finalResult, tr)
        | (inl err, tr) =>
            (failed st err
               (lit "Error completing migration with dependencies."),
             setAnalysisStep ERROR tr)
        end
      else (st, tr)
  | _, _ => (st, tr)
  end.

End Pipeline.

(* ================================================================== *)
(** * Further code of the application *)
(* ================================================================== *)

(** ** App.tsx: the processing flag *)

(** [isProcessing]: the step is none of [IDLE], [COMPLETE], [ERROR] and
    [WAITING_FOR_USER]. *)
Definition isProcessing (current : AnalysisStep) : bool :=
  match current with
  | IDLE | COMPLETE | ERROR | WAITING_FOR_USER => false
  | ANALYST | ARCHITECT | CODER | AUDITOR => true
  end.

(** ** components/DependencyModal.tsx *)

(** The property names [Object.prototype] defines: what a read of a
    plain object finds when the object has no such property of its
    own. *)
Definition Object_prototype_keys : list jsstring :=
  [lit "constructor"; lit "hasOwnProperty"; lit "isPrototypeOf";
   lit "propertyIsEnumerable"; lit "toLocaleString"; lit "toString";
   lit "valueOf"; lit "__proto__"; lit "__defineGetter__";
   lit "__defineSetter__"; lit "__lookupGetter__"; lit "__lookupSetter__"].

(** What [o[k]] finds: a property of [o] itself, a built-in inherited
    from [Object.prototype] (a function, or the prototype object for
    [__proto__]), or nothing. *)
Inductive Lookup :=
| Own (v : value)
| Inherited
| Absent.

Definition read (o : FileMap) (k : jsstring) : Lookup :=
  match Obj.get k o with
  | Some v => Own v
  | None => if bool_decide (k ∈ Object_prototype_keys) then Inherited else Absent
  end.

(** [requiredFiles.every(f => fileContents[f] &&
    fileContents[f].trim().length > 0)]: a falsy content ends the scan
    with [false]; a truthy content that is no string has no [trim]. *)
Fixpoint isComplete (requiredFiles : list jsstring) (fileContents : FileMap)
  : exn + bool :=
  match requiredFiles with
  | [] => inr true
  | f :: rest =>
      match read fileContents f with
      | Absent => inr false
      | Inherited => inl (TypeError (lit "trim"))
      | Own v =>
          if ToBoolean v then
            match v with
            | VStr s =>
                if negb (Nat.eqb (length (Str.trim s)) O)
                then isComplete rest fileContents
                else inr false
            | _ => inl (TypeError (lit "trim"))
            end
          else inr false
      end
  end.

(** [handleContentChange]: [{ ...prev, [filename]: content }]. *)
Definition handleContentChange (filename : jsstring) (content : value)
    (prev : FileMap) : FileMap :=
  Obj.define filename content (Obj.spread [] prev).

(** ** components/AnalysisProgress.tsx *)

Inductive StepStatus := status_error | completed | active | pending.

Definition stepOrder : list AnalysisStep :=
  [ANALYST; ARCHITECT; CODER; AUDITOR; COMPLETE].

#[global] Instance AnalysisStep_eq_dec : EqDecision AnalysisStep.
Proof. solve_decision. Defined.

(** [array.indexOf(x)]: the first position of [x], or -1. *)
Fixpoint indexOf {A} `{EqDecision A} (l : list A) (x : A) : Z :=
  match l with
  | [] => (-1)%Z
  | y :: rest =>
      if decide (y = x) then 0%Z
      else match indexOf rest x with
           | Zneg _ => (-1)%Z
           | i => (i + 1)%Z
           end
  end.

Definition getStepStatus (currentStep stepId : AnalysisStep) : StepStatus :=
  let currentIndex := indexOf stepOrder currentStep in
  let stepIndex := indexOf stepOrder stepId in
  if decide (currentStep = ERROR) then status_error
  else if (stepIndex <? currentIndex)%Z then completed
  else if (stepIndex =? currentIndex)%Z then active
  else pending.

(** The four steps the component shows, in the order it shows them. *)
Definition shown_steps : list AnalysisStep := [ANALYST; ARCHITECT; CODER; AUDITOR].

(* ================================================================== *)
(** * Vocabulary of the properties *)
(* ================================================================== *)

(** A string that does not begin with white space. *)
Definition no_lead_ws (s : jsstring) : Prop :=
  match s with
  | [] => True
  | c :: _ => Str.is_white_space c = false
  end.

(** Where an entry of the file map comes from. *)
Definition source_of (JS : Platform) (k : jsstring) (v : value) (f : value) : Prop :=
  exists filename,
    get_prop f (lit "filename") = inr filename /\
    ToBoolean filename = true /\
    get_prop f (lit "content") = inr v /\
    ToBoolean v = true /\
    ToString JS filename = inr k.

(** The [error]-kind entries of a log. *)
Definition is_error_entry (e : LogEntry) : bool :=
  match entry_type e with Kind.error => true | _ => false end.

Definition error_entries (l : list LogEntry) : list LogEntry :=
  List.filter is_error_entry l.

(** An invariant relates the trace before a computation to the trace
    after it; it is kept by doing nothing and by doing two things in a
    row. *)
Class Invariant (I : Trace -> Trace -> Prop) := {
  inv_refl : forall tr, I tr tr;
  inv_trans : forall a b c, I a b -> I b c -> I a c
}.

Definition Keeps (I : Trace -> Trace -> Prop) {A} (m : M A) : Prop :=
  forall tr, I tr (snd (m tr)).

(** No progress is reported. *)
Definition same_steps (tr tr' : Trace) : Prop := steps tr' = steps tr.

(** No [error]-kind entry is logged. *)
Definition same_errors (tr tr' : Trace) : Prop :=
  error_entries (logs tr') = error_entries (logs tr).

(** No request is sent. *)
Definition same_requests (tr tr' : Trace) : Prop :=
  requests tr' = requests tr.

(** Progress is only appended, and never [WAITING_FOR_USER]. *)
Definition no_wait (tr tr' : Trace) : Prop :=
  exists l, steps tr' = steps tr ++ l /\ ~ In WAITING_FOR_USER l.

(** The log only grows. *)
Definition logs_extend (tr tr' : Trace) : Prop :=
  exists l, logs tr' = logs tr ++ l.

(** The four stages, each with the arguments of its runner. *)
Inductive Stage :=
| Analyst (mainCode : jsstring)
| Architect (plan : value) (allContext : FileMap)
| Coder (plan : value) (architecture : jsstring) (allContext : FileMap)
| Auditor (originalContext generatedFiles : FileMap).

(** The file maps handed to a stage honour their declared type. *)
Definition stage_typed (s : Stage) : Prop :=
  match s with
  | Analyst _ => True
  | Architect _ c | Coder _ _ c => all_strings c
  | Auditor o g => all_strings o /\ all_strings g
  end.

Definition stage_tag (s : Stage) : AnalysisStep :=
  match s with
  | Analyst _ => ANALYST
  | Architect _ _ => ARCHITECT
  | Coder _ _ _ => CODER
  | Auditor _ _ => AUDITOR
  end.

(** What a computation raised, if it raised. *)
Definition failure {A} (r : (exn + A) * Trace) : option exn :=
  match fst r with
  | inl e => Some e
  | inr _ => None
  end.

Definition run_stage (JS : Platform) (PROMPTS : PromptTemplates) (W : World)
    (selection : ModelSelection) (keys : ApiKeys) (s : Stage) (tr : Trace)
  : option exn * Trace :=
  match s with
  | Analyst c =>
      let r := runAnalyst JS PROMPTS W selection keys c tr in (failure r, snd r)
  | Architect p c =>
      let r := runArchitect JS PROMPTS W selection keys p c tr in
      (failure r, snd r)
  | Coder p a c =>
      let r := runCoder JS PROMPTS W selection keys p a c tr in
      (failure r, snd r)
  | Auditor o g =>
      let r := runAuditor JS PROMPTS W selection keys o g tr in
      (failure r, snd r)
  end.

(** The explicit per-call credential for a provider. *)
Definition session_key (keys : ApiKeys) (p : LlmProvider) : jsstring :=
  match p with
  | google => keys_google keys
  | openrouter => keys_openrouter keys
  end.

Definition nullish (v : value) : bool :=
  match v with
  | VUndefined | VNull => true
  | _ => false
  end.

(** [f.filename && f.content] is truthy. *)
Definition contributes (f : value) : bool :=
  match get_prop f (lit "filename"), get_prop f (lit "content") with
  | inr filename, inr content => ToBoolean filename && ToBoolean content
  | _, _ => false
  end.

(** An entry the callback passes over: it can be read and does not
    contribute. *)
Definition omitted (f : value) : bool := negb (nullish f) && negb (contributes f).

(** A well-formed file entry: a non-empty name and non-empty content. *)
Definition valid_file (f : value) (name content : jsstring) : Prop :=
  get_prop f (lit "filename") = inr (VStr name) /\
  get_prop f (lit "content") = inr (VStr content) /\
  name <> [] /\ content <> [].

(** [response.text || ''] of the Google client. *)
Definition google_text (r : GoogleResponse) : jsstring :=
  match keep_truthy (gres_text r) with
  | Some s => s
  | None => []
  end.

(** [choice.message?.content || ''] of the OpenRouter client, when there
    is a first choice. *)
Definition completion_text (c : Completion) : option jsstring :=
  match choices c with
  | [] => None
  | choice :: _ =>
      Some (match choice_message choice with
            | Some content =>
                match keep_truthy content with
                | Some s => s
                | None => []
                end
            | None => []
            end)
  end.

(** The provider [p] answers the request number [n] of the run,
    whatever it asks, with a response whose text is [text]. *)
Definition answers (W : World) (p : LlmProvider) (n : nat) (text : jsstring)
  : Prop :=
  match p with
  | google =>
      forall key req, exists r,
        google_sdk W n key req = inr r /\ google_text r = text
  | openrouter =>
      forall key req, exists c,
        openrouter_sdk W n key req = inr c /\ completion_text c = Some text
  end.

(** The two entry points of the orchestrator. *)
Inductive EntryPoint :=
| Start (mainCode : jsstring) (config : ModelConfig) (keys : ApiKeys)
| Resume (plan : value) (allContext : FileMap) (config : ModelConfig)
    (keys : ApiKeys).

Definition run_entry (JS : Platform) (PROMPTS : PromptTemplates) (W : World)
    (ep : EntryPoint) (tr : Trace) : option exn * Trace :=
  match ep with
  | Start c g k =>
      let r := startAnalysis JS PROMPTS W c g k tr in (failure r, snd r)
  | Resume p c g k =>
      let r := completeMigration JS PROMPTS W p c g k tr in (failure r, snd r)
  end.

(** The one failure that comes with an [error]-kind log entry: the
    Analyst's response did not parse. *)
Definition analyst_parse_failure (ep : EntryPoint) (e : exn) : Prop :=
  match ep with
  | Start _ _ _ => e = Error analyst_invalid_json
  | Resume _ _ _ _ => False
  end.

(** The trace the [catch] block of an entry point leaves when it
    receives [e] at the trace [t]: the error on the console under the
    entry point's label, [ERROR] reported, and nothing else. *)
Definition after_catch (label : jsstring) (e : exn) (t : Trace) : Trace :=
  {| logs := logs t; steps := steps t ++ [ERROR]; requests := requests t;
     console := console t ++ [(label, e)]; ticks := ticks t |}.

Definition catch_label (ep : EntryPoint) : jsstring :=
  match ep with
  | Start _ _ _ => lit "Analysis Failed:"
  | Resume _ _ _ _ => lit "Migration Completion Failed:"
  end.

(** How the [try] block of an entry point, started at [tr], comes to
    raise [e] at the trace [t].  A stage raises it: the stage is run for
    the model the configuration selects for it, with the keys and the
    arguments of the entry point and the results of the stages before
    it, at the trace those stages left, its own step reported.  Or the
    last stage returned and reading a field of its result raises it. *)
Inductive try_raises (JS : Platform) (PROMPTS : PromptTemplates) (W : World)
  : EntryPoint -> Trace -> exn -> Trace -> Prop :=
| analyst_raised code config keys tr e t :
    runAnalyst JS PROMPTS W (cfg_ANALYST config) keys code
      (snd (onProgress ANALYST tr)) = (inl e, t) ->
    try_raises JS PROMPTS W (Start code config keys) tr e t
| plan_unreadable code config keys tr plan e t :
    runAnalyst JS PROMPTS W (cfg_ANALYST config) keys code
      (snd (onProgress ANALYST tr)) = (inr plan, t) ->
    (get_prop plan (lit "required_files") = inl e \/
     exists required_files,
       get_prop plan (lit "required_files") = inr required_files /\
       ToBoolean required_files = true /\
       length_positive JS required_files = inl e) ->
    try_raises JS PROMPTS W (Start code config keys) tr e t
| architect_raised plan ctx config keys tr e t :
    runArchitect JS PROMPTS W (cfg_ARCHITECT config) keys plan ctx
      (snd (onProgress ARCHITECT tr)) = (inl e, t) ->
    try_raises JS PROMPTS W (Resume plan ctx config keys) tr e t
| coder_raised plan ctx config keys tr arch t1 e t :
    runArchitect JS PROMPTS W (cfg_ARCHITECT config) keys plan ctx
      (snd (onProgress ARCHITECT tr)) = (inr arch, t1) ->
    runCoder JS PROMPTS W (cfg_CODER config) keys plan arch ctx
      (snd (onProgress CODER t1)) = (inl e, t) ->
    try_raises JS PROMPTS W (Resume plan ctx config keys) tr e t
| auditor_raised plan ctx config keys tr arch t1 files t2 e t :
    runArchitect JS PROMPTS W (cfg_ARCHITECT config) keys plan ctx
      (snd (onProgress ARCHITECT tr)) = (inr arch, t1) ->
    runCoder JS PROMPTS W (cfg_CODER config) keys plan arch ctx
      (snd (onProgress CODER t1)) = (inr files, t2) ->
    runAuditor JS PROMPTS W (cfg_AUDITOR config) keys ctx files
      (snd (onProgress AUDITOR t2)) = (inl e, t) ->
    try_raises JS PROMPTS W (Resume plan ctx config keys) tr e t
| audit_unreadable plan ctx config keys tr arch t1 files t2 audit t3 e :
    runArchitect JS PROMPTS W (cfg_ARCHITECT config) keys plan ctx
      (snd (onProgress ARCHITECT tr)) = (inr arch, t1) ->
    runCoder JS PROMPTS W (cfg_CODER config) keys plan arch ctx
      (snd (onProgress CODER t1)) = (inr files, t2) ->
    runAuditor JS PROMPTS W (cfg_AUDITOR config) keys ctx files
      (snd (onProgress AUDITOR t2)) = (inr audit, t3) ->
    get_prop audit (lit "security_issues") = inl e ->
    try_raises JS PROMPTS W (Resume plan ctx config keys) tr e
      (snd (onProgress COMPLETE t3)).

(** The trace at which [handleStartAnalysis] runs the Analyst: the step
    set to [ANALYST], the log emptied, [ANALYST] reported by
    [startAnalysis]. *)
Definition started (tr : Trace) : Trace :=
  snd (onProgress ANALYST (setLogs [] (setAnalysisStep ANALYST tr))).

(** ** Vocabulary of the further properties *)

(** The loop of both schema mappers:
    [for (const [key, prop] of Object.entries(...)) out[key] = f(prop)]. *)
Definition assign_each {A B : Type} (f : A -> B) (l : list (jsstring * A))
    (out : list (jsstring * B)) : list (jsstring * B) :=
  (fix loop (l : list (jsstring * A)) (out : list (jsstring * B)) :=
     match l with
     | [] => out
     | (key, prop) :: rest => loop rest (Obj.assign key (f prop) out)
     end) l out.

(** Two translations of one schema node, up to the spelling of the type
    name and the closing of object nodes. *)
Fixpoint same_shape (g : GoogleSchema) (j : JsonSchema) {struct g} : Prop :=
  match g, j with
  | mkGoogleSchema gt gd ge gr gps git, mkJsonSchema jt jd je jr jps jap jit =>
      (exists t, gt = googleTypeMap t /\
                 jt = map ascii_lower (SchemaType_value t)) /\
      gd = jd /\ ge = je /\ gr = jr /\
      match gps, jps with
      | Some l, Some l' =>
          jap = Some false /\
          (fix all (l : list (jsstring * GoogleSchema))
               (l' : list (jsstring * JsonSchema)) : Prop :=
             match l, l' with
             | [], [] => True
             | (k, c) :: r, (k', c') :: r' =>
                 k = k' /\ same_shape c c' /\ all r r'
             | _, _ => False
             end) l l'
      | None, None => jap = None
      | _, _ => False
      end /\
      match git, jit with
      | Some c, Some c' => same_shape c c'
      | None, None => True
      | _, _ => False
      end
  end.

(** What a request says about itself. *)
Definition call_provider (c : SdkCall) : LlmProvider :=
  match c with
  | GoogleCall _ _ => google
  | OpenRouterCall _ _ => openrouter
  end.

Definition call_key (c : SdkCall) : jsstring :=
  match c with
  | GoogleCall apiKey _ | OpenRouterCall apiKey _ => apiKey
  end.

Definition call_model (c : SdkCall) : jsstring :=
  match c with
  | GoogleCall _ req => greq_model req
  | OpenRouterCall _ req => oreq_model req
  end.

Definition client_provider (c : ILlmClient) : LlmProvider :=
  match c with
  | GoogleLlmClient _ => google
  | OpenRouterLlmClient _ => openrouter
  end.

Definition client_key (c : ILlmClient) : jsstring :=
  match c with
  | GoogleLlmClient apiKey | OpenRouterLlmClient apiKey => apiKey
  end.

(** The label under which a client writes a failure to the console. *)
Definition client_label (p : LlmProvider) : jsstring :=
  match p with
  | google => lit "Google AI Error:"
  | openrouter => lit "OpenRouter Error:"
  end.

(** The message of the error a client raises. *)
Definition client_error_message (p : LlmProvider) (model detail : jsstring)
  : jsstring :=
  match p with
  | google => google_error_message model detail
  | openrouter => openrouter_error_message model detail
  end.

(** [params] without its response schema. *)
Definition without_schema (params : GenerateContentParams)
  : GenerateContentParams :=
  {| p_model := p_model params;
     p_systemInstruction := p_systemInstruction params;
     p_prompt := p_prompt params;
     p_responseSchema := None;
     p_responseMimeType := p_responseMimeType params |}.

(** What a stage logs of a response: the text it goes on with. *)
Definition shown (tag : AnalysisStep) (text : jsstring) : jsstring :=
  match tag with
  | ARCHITECT => cleanLlmOutput (Str.or_else text (lit "Architect failed."))
  | CODER => Str.or_else text []
  | _ => cleanLlmOutput (Str.or_else text (lit "{}"))
  end.

(** The message of a stage that finds no credential. *)
Definition missing (tag : AnalysisStep) (p : LlmProvider) : jsstring :=
  match tag with
  | ANALYST => missing_key_analyst p
  | _ => missing_key p
  end.

(** The entry a stage logs first. *)
Definition prompt_entry (tag : AnalysisStep) (selection : ModelSelection)
    (e : LogEntry) : Prop :=
  step e = tag /\ entry_type e = Kind.prompt /\
  durationMs e = None /\ tokens e = None /\
  exists prompt, content e = using_provider selection prompt.

(** The entry a stage logs when its provider has answered. *)
Definition response_entry (tag : AnalysisStep) (response : GenerateContentResult)
    (e : LogEntry) : Prop :=
  step e = tag /\ entry_type e = Kind.response /\
  content e = shown tag (text response) /\ tokens e = usage response /\
  exists d, durationMs e = Some d.

(** A request as the stage's configuration wants it: to the selected
    provider, for the selected model, with the credential resolved for
    that provider. *)
Definition served (W : World) (selection : ModelSelection) (keys : ApiKeys)
    (c : SdkCall) : Prop :=
  call_provider c = provider selection /\
  call_model c = model selection /\
  resolveApiKey W (provider selection) (Some keys) = Some (call_key c) /\
  call_key c <> [].

(** The part the four stages share, from the prompt to the response:
    where it ends and what it has done to the trace by then.  [typed]
    says that the file maps of the stage hold strings. *)
Inductive reached (W : World) (selection : ModelSelection) (keys : ApiKeys)
    (tag : AnalysisStep) (typed : Prop) (tr : Trace)
  : exn + GenerateContentResult -> Trace -> Prop :=
| reached_unrendered w :
    ~ typed ->
    reached W selection keys tag typed tr (inl (TypeError w)) tr
| reached_no_key p tr1 :
    no_key (resolveApiKey W (provider selection) (Some keys)) = true ->
    prompt_entry tag selection p ->
    logs tr1 = logs tr ++ [p] -> requests tr1 = requests tr ->
    console tr1 = console tr -> steps tr1 = steps tr ->
    reached W selection keys tag typed tr
      (inl (Error (missing tag (provider selection)))) tr1
| reached_call_failed p call cause detail tr1 :
    prompt_entry tag selection p -> served W selection keys call ->
    logs tr1 = logs tr ++ [p] -> requests tr1 = requests tr ++ [call] ->
    console tr1 = console tr ++ [(client_label (provider selection), cause)] ->
    steps tr1 = steps tr ->
    reached W selection keys tag typed tr
      (inl (Error (client_error_message (provider selection) (model selection)
                     detail))) tr1
| reached_answered p q call response tr1 :
    prompt_entry tag selection p -> served W selection keys call ->
    response_entry tag response q ->
    logs tr1 = logs tr ++ [p; q] -> requests tr1 = requests tr ++ [call] ->
    console tr1 = console tr -> steps tr1 = steps tr ->
    reached W selection keys tag typed tr (inr response) tr1.

(** The client [createLlmClient] makes of a provider and a key. *)
Definition client_of (p : LlmProvider) (key : jsstring) : ILlmClient :=
  match p with
  | google => GoogleLlmClient key
  | openrouter => OpenRouterLlmClient key
  end.

(** The text the four stage runners have in common, from the prompt
    entry to the response entry; [k] is what the runner goes on with. *)
Definition stage_core {A : Type} (JS : Platform) (W : World)
    (tag : AnalysisStep) (selection : ModelSelection) (keys : ApiKeys)
    (prompt : jsstring) (schema : option ResponseSchema)
    (mime : option jsstring) (k : GenerateContentResult -> M A) : M A :=
  entry ← createLog W tag Kind.prompt (using_provider selection prompt)
            None None;
  onLog entry;;
  startTime ← Date_now W;
  let apiKey := resolveApiKey W (provider selection) (Some keys) in
  if no_key apiKey then throw (Error (missing tag (provider selection)))
  else
    client ← createLlmClient W (provider selection) apiKey;
    response ← generateContent JS W client
      {| p_model := model selection; p_systemInstruction := None;
         p_prompt := prompt; p_responseSchema := schema;
         p_responseMimeType := mime |};
    finish ← Date_now W;
    let durationMs := (finish - startTime)%Z in
    entry ← createLog W tag Kind.response (shown tag (text response))
              (Some durationMs) (usage response);
    onLog entry;;
    k response.

(** What the Analyst does with a response. *)
Definition analyst_finish (JS : Platform) (W : World)
    (response : GenerateContentResult) : M value :=
  match JSON_parse JS (shown ANALYST (text response)) with
  | inr plan => mret plan
  | inl message =>
      entry ← createLog W ANALYST Kind.error
                (lit "JSON Parse Error: " ++ message) None None;
      onLog entry;;
      throw (Error analyst_invalid_json)
  end.

(** What the Auditor does with a response. *)
Definition auditor_finish (JS : Platform) (response : GenerateContentResult)
  : M value :=
  match JSON_parse JS (shown AUDITOR (text response)) with
  | inr v => mret v
  | inl message => throw (SyntaxError message)
  end.

(** What a stage does with a response, as [run_stage] reports it. *)
Definition stage_finish (JS : Platform) (W : World) (s : Stage)
    (response : GenerateContentResult) (tr : Trace) : option exn * Trace :=
  match s with
  | Analyst _ =>
      let r := analyst_finish JS W response tr in (failure r, snd r)
  | Architect _ _ => (None, tr)
  | Coder _ _ _ =>
      let r := extract_files JS W (shown CODER (text response)) tr in
      (failure r, snd r)
  | Auditor _ _ =>
      let r := auditor_finish JS response tr in (failure r, snd r)
  end.

(** The kinds of the entries a stage logs, in order. *)
Definition log_kinds (s : Stage) : list Kind.t :=
  match s with
  | Analyst _ => [Kind.prompt; Kind.response; Kind.error]
  | Coder _ _ _ => [Kind.prompt; Kind.response; Kind.info]
  | Architect _ _ | Auditor _ _ => [Kind.prompt; Kind.response]
  end.

(** The messages with which [createLlmClient] refuses to make a client. *)
Definition factory_messages : list jsstring :=
  [lit "Google API Key missing."; lit "OpenRouter API Key missing."].

(** Where [getStoredApiKey] looks for the credential of a provider. *)
Definition storage_key (p : LlmProvider) : jsstring :=
  map ascii_upper (provider_name p) ++ lit "_API_KEY".

Definition env_key (p : LlmProvider) : jsstring :=
  match p with
  | google => lit "API_KEY"
  | openrouter => lit "OPENROUTER_API_KEY"
  end.

(** The steps [completeMigration] reports when nothing fails. *)
Definition migration_steps : list AnalysisStep :=
  [ARCHITECT; CODER; AUDITOR; COMPLETE].

(** The contents of the dialog after the user has entered, one after the
    other, the texts [entries] (each a file name and what was typed,
    pasted or uploaded for it), starting from the contents [prev]. *)
Definition entered (entries : list (jsstring * jsstring)) (prev : FileMap)
  : FileMap :=
  fold_left (fun m e => handleContentChange (fst e) (VStr (snd e)) m)
    entries prev.

(** ** Concrete runs

    A platform, prompt templates and worlds on which the pipeline can be
    evaluated.  [JSON_parse] is given by a table of the texts used
    below with the values [JSON.parse] returns for them; the other
    built-ins are stand-ins and play no part in the runs evaluated. *)

Module Fixture.

Definition quoted (s : jsstring) : jsstring := [34] ++ s ++ [34].

Definition file_json (name content : String.string) : jsstring :=
  lit "{" ++ quoted (lit "filename") ++ lit ":" ++ quoted (lit name)
  ++ lit "," ++ quoted (lit "content") ++ lit ":" ++ quoted (lit content)
  ++ lit "}".

Definition file_value (name content : String.string) : value :=
  VObj [(lit "filename", VStr (lit name)); (lit "content", VStr (lit content))].

Arguments file_json (name content)%_string.
Arguments file_value (name content)%_string.

Definition files_json (files : list jsstring) : jsstring :=
  lit "{" ++ quoted (lit "files") ++ lit ":[" ++ Str.join (lit ",") files
  ++ lit "]}".

Definition plan_json (required : String.string) : jsstring :=
  lit "{" ++ quoted (lit "required_files") ++ lit ":[" ++ quoted (lit required)
  ++ lit "]}".

Definition plan_value (required : String.string) : value :=
  VObj [(lit "required_files", VArr [VStr (lit required)])].

Arguments plan_json required%_string.
Arguments plan_value required%_string.

Definition three_files : jsstring :=
  files_json [file_json "a.py" "x"; file_json "b.py" "y"; file_json "c.py" "z"].

Definition duplicate_names : jsstring :=
  files_json [file_json "a.py" "x"; file_json "a.py" "y"; file_json "b.py" "z"].

Definition no_plan_files : jsstring :=
  lit "{" ++ quoted (lit "required_files") ++ lit ":[]}".

Definition parse_table : list (jsstring * value) :=
  [ (lit "{}", VObj []);
    (three_files,
     VObj [(lit "files",
            VArr [file_value "a.py" "x"; file_value "b.py" "y";
                  file_value "c.py" "z"])]);
    (duplicate_names,
     VObj [(lit "files",
            VArr [file_value "a.py" "x"; file_value "a.py" "y";
                  file_value "b.py" "z"])]);
    (plan_json "dep.php", plan_value "dep.php");
    (plan_json "main.legacy", plan_value "main.legacy");
    (no_plan_files, VObj [(lit "required_files", VArr [])]) ].

Definition platform : Platform :=
  {| JSON_parse := fun text =>
       match Obj.get text parse_table with
       | Some v => inr v
       | None => inl (lit "Unexpected token")
       end;
     JSON_stringify := fun _ => lit "{}";
     Number_toString := fun _ => lit "0";
     Object_toString := fun _ => Some (lit "[object Object]");
     Object_toNumber := fun _ => Some S754_nan;
     String_toNumber := fun _ => S754_nan;
     String_toLowerCase := fun s => s;
     TypeError_message := fun what =>
       lit "Cannot read properties of null (reading '" ++ what ++ lit "')" |}.

(** Templates that show their arguments. *)
Definition prompts : PromptTemplates :=
  {| PROMPTS_ANALYST := fun mainCode => lit "ANALYST " ++ mainCode;
     PROMPTS_ARCHITECT := fun _ contextStr => lit "ARCHITECT " ++ contextStr;
     PROMPTS_CODER := fun architecture contextStr =>
       lit "CODER " ++ architecture ++ nl ++ contextStr;
     PROMPTS_AUDITOR := fun originalStr newStr =>
       lit "AUDITOR " ++ originalStr ++ nl ++ newStr |}.

(** A browser with nothing stored, whose providers answer the n-th
    request of a run with the text [answer n]. *)
Definition world (answer : nat -> jsstring) : World :=
  {| has_window := true;
     localStorage := ∅;
     env := ∅;
     clock := fun n => Z.of_nat (1000 * n);
     google_sdk := fun n _ _ =>
       inr {| gres_text := Some (answer n); usageMetadata := None |};
     openrouter_sdk := fun n _ _ =>
       inr {| choices := [ {| choice_message := Some (Some (answer n)) |} ];
              completion_usage := None |} |}.

(** The same browser with the providers down. *)
Definition offline : World :=
  {| has_window := true;
     localStorage := ∅;
     env := ∅;
     clock := fun n => Z.of_nat (1000 * n);
     google_sdk := fun _ _ _ =>
       inl {| fault_message := Some (lit "fetch failed");
              fault_api_message := None; fault_json := lit "{}" |};
     openrouter_sdk := fun _ _ _ =>
       inl {| fault_message := Some (lit "fetch failed");
              fault_api_message := None; fault_json := lit "{}" |} |}.

Definition no_keys : ApiKeys := {| keys_google := []; keys_openrouter := [] |}.

Definition keys : ApiKeys :=
  {| keys_google := lit "g-key"; keys_openrouter := lit "o-key" |}.

Definition flash : ModelSelection :=
  {| provider := google; model := lit "gemini-3.0-flash" |}.

Definition gemma : ModelSelection :=
  {| provider := openrouter; model := lit "google/gemma-3-27b-it:free" |}.

Definition config : ModelConfig :=
  {| cfg_ANALYST := flash; cfg_ARCHITECT := flash; cfg_CODER := flash;
     cfg_AUDITOR := gemma |}.

Definition legacy_code : jsstring := lit "<?php include('dep.php'); ?>".

(** The application with that code in the editor. *)
Definition app : AppState :=
  {| inputCode := legacy_code; activeTab := INPUT; result := None;
     error := None; modelConfig := Some config; apiKeys := keys;
     showSettingsModal := false; partialPlan := None;
     showDependencyModal := false |}.

(** Providers whose first answer is [first] and whose later answers are
    [Done.]. *)
Definition first_answer (first : jsstring) (n : nat) : jsstring :=
  match n with
  | O => first
  | S _ => lit "Done."
  end.

End Fixture.

(** Further platforms, worlds and states. *)
Module Scenario.

(** A browser with nothing stored, whose OpenRouter answers every
    request with a completion that holds no choice. *)
Definition no_choice : World :=
  {| has_window := true;
     localStorage := ∅;
     env := ∅;
     clock := fun n => Z.of_nat (1000 * n);
     google_sdk := fun _ _ _ =>
       inr {| gres_text := None; usageMetadata := None |};
     openrouter_sdk := fun _ _ _ =>
       inr {| choices := []; completion_usage := None |} |}.

(** A process without a [window], with the Google key in its
    environment. *)
Definition server : World :=
  {| has_window := false;
     localStorage := ∅;
     env := {[ lit "API_KEY" := lit "env-key" ]};
     clock := fun n => Z.of_nat (1000 * n);
     google_sdk := fun _ _ _ =>
       inr {| gres_text := Some (lit "ok"); usageMetadata := None |};
     openrouter_sdk := fun _ _ _ =>
       inr {| choices := []; completion_usage := None |} |}.

(** A response whose second file entry is [null]. *)
Definition null_entry : jsstring :=
  Fixture.files_json
    [Fixture.file_json "a.py" "x"; lit "null"; Fixture.file_json "c.py" "z"].

(** A response that is no JSON and holds one heading with a fenced
    block. *)
Definition markdown : jsstring :=
  lit "Here you go:" ++ nl ++ lit "### app/main.py" ++ nl ++ lit "```python"
  ++ nl ++ lit "print(1)" ++ nl ++ lit "```" ++ nl.

Definition parse_table : list (jsstring * value) :=
  [ (lit "{}", VObj []);
    (lit "null", VNull);
    (Fixture.three_files,
     VObj [(lit "files",
            VArr [Fixture.file_value "a.py" "x"; Fixture.file_value "b.py" "y";
                  Fixture.file_value "c.py" "z"])]);
    (null_entry,
     VObj [(lit "files",
            VArr [Fixture.file_value "a.py" "x"; VNull;
                  Fixture.file_value "c.py" "z"])]);
    (Fixture.plan_json "dep.php", Fixture.plan_value "dep.php");
    (Fixture.no_plan_files, VObj [(lit "required_files", VArr [])]) ].

(** [JSON.parse] by that table; the other built-ins as in [Fixture]. *)
Definition platform : Platform :=
  {| JSON_parse := fun text =>
       match Obj.get text parse_table with
       | Some v => inr v
       | None => inl (lit "Unexpected token")
       end;
     JSON_stringify := JSON_stringify Fixture.platform;
     Number_toString := Number_toString Fixture.platform;
     Object_toString := Object_toString Fixture.platform;
     Object_toNumber := Object_toNumber Fixture.platform;
     String_toNumber := String_toNumber Fixture.platform;
     String_toLowerCase := String_toLowerCase Fixture.platform;
     TypeError_message := TypeError_message Fixture.platform |}.

(** Providers that answer the requests of a run with the given texts,
    in order, and with [{}] from then on. *)
Definition script (answers : list jsstring) (n : nat) : jsstring :=
  nth n answers (lit "{}").

(** The application waiting for [dep.php]. *)
Definition waiting : AppState :=
  {| inputCode := Fixture.legacy_code; activeTab := INPUT; result := None;
     error := None; modelConfig := Some Fixture.config;
     apiKeys := Fixture.keys; showSettingsModal := false;
     partialPlan := Some (Fixture.plan_value "dep.php");
     showDependencyModal := true |}.

(** What the user supplies for it. *)
Definition supplied : FileMap := [(lit "dep.php", VStr (lit "<?php dep ?>"))].

End Scenario.

(* ================================================================== *)
(** * Properties *)
(* ================================================================== *)

(** ** Facts about the string primitives *)

Module StrFacts.
Import Str.

Lemma starts_with_app p s :
  starts_with p s = true <-> exists r, s = p ++ r.
Proof.
  revert s; induction p as [|a p IH]; intros s; simpl.
  - split; eauto.
  - destruct s as [|b s].
    + split; [discriminate | intros [r Hr]; discriminate].
    + rewrite andb_true_iff, IH, N.eqb_eq. split.
      * intros [-> [r ->]]. eauto.
      * intros [r Hr]. injection Hr as -> ->. eauto.
Qed.

Lemma starts_with_prefix p x y :
  starts_with p x = true -> starts_with p (x ++ y) = true.
Proof.
  rewrite !starts_with_app. intros [r ->]. exists (r ++ y).
  now rewrite app_assoc.
Qed.

Lemma trimStart_suffix s : exists w, s = w ++ trimStart s.
Proof.
  induction s as [|c t [w Hw]]; simpl.
  - now exists [].
  - destruct (is_white_space c).
    + exists (c :: w). simpl. now f_equal.
    + now exists [].
Qed.

Lemma trimEnd_prefix s : exists w, s = trimEnd s ++ w.
Proof.
  induction s as [|c t [w Hw]]; simpl.
  - now exists [].
  - destruct (trimEnd t) as [|d t'] eqn:E.
    + destruct (is_white_space c).
      * now exists (c :: t).
      * exists w. simpl. now f_equal.
    + exists w. simpl. now f_equal.
Qed.

Lemma trim_length s : (length (trim s) <= length s)%nat.
Proof.
  unfold trim.
  destruct (trimStart_suffix s) as [w Hw].
  destruct (trimEnd_prefix (trimStart s)) as [v Hv].
  rewrite Hw at 2. rewrite Hv at 2. rewrite !length_app. lia.
Qed.

Lemma trimEnd_idem s : trimEnd (trimEnd s) = trimEnd s.
Proof.
  induction s as [|c t IH]; simpl; [reflexivity|].
  destruct (trimEnd t) as [|d t'] eqn:E.
  - destruct (is_white_space c) eqn:W; simpl; [reflexivity|].
    now rewrite W.
  - simpl in *. now rewrite IH.
Qed.

Lemma trimStart_no_lead s : no_lead_ws (trimStart s).
Proof.
  induction s as [|c t IH]; simpl; [exact I|].
  destruct (is_white_space c) eqn:W; [exact IH | exact W].
Qed.

Lemma trimEnd_no_lead s : no_lead_ws s -> no_lead_ws (trimEnd s).
Proof.
  destruct s as [|c t]; simpl; [trivial|]. intros W.
  destruct (trimEnd t); [now rewrite W | exact W].
Qed.

Lemma trimStart_fix s : no_lead_ws s -> trimStart s = s.
Proof. destruct s as [|c t]; simpl; [trivial|]. now intros ->. Qed.

Lemma trim_idem s : trim (trim s) = trim s.
Proof.
  unfold trim.
  rewrite (trimStart_fix (trimEnd (trimStart s))).
  - apply trimEnd_idem.
  - apply trimEnd_no_lead, trimStart_no_lead.
Qed.

Section Replace.
Variable m : jsstring -> option nat.

Lemma replace_go_length k s : (length (replace_go m k s) <= length s)%nat.
Proof.
  revert k; induction s as [|c t IH]; intros k; simpl; [lia|].
  destruct k as [|k].
  - destruct (m (c :: t)) as [[|n]|]; simpl;
      first [ specialize (IH O); lia | specialize (IH n); lia ].
  - specialize (IH k). lia.
Qed.

Lemma occurs_false_id s : occurs m s = false -> remove_matches m s = s.
Proof.
  unfold remove_matches.
  induction s as [|c t IH]; simpl; [reflexivity|].
  destruct (m (c :: t)) as [[|n]|]; try discriminate;
    intros H; now rewrite IH.
Qed.

Lemma occurs_true_shrinks s :
  occurs m s = true -> (length (remove_matches m s) < length s)%nat.
Proof.
  unfold remove_matches.
  induction s as [|c t IH]; simpl; [discriminate|].
  destruct (m (c :: t)) as [[|n]|]; intros H; simpl.
  - specialize (IH H). lia.
  - pose proof (replace_go_length n t). lia.
  - specialize (IH H). lia.
Qed.

Lemma occurs_app_r x y : occurs m y = true -> occurs m (x ++ y) = true.
Proof.
  intros H. induction x as [|c x IH]; simpl; [exact H|].
  now destruct (m (c :: x ++ y)) as [[|n]|].
Qed.

End Replace.
End StrFacts.

(** ** Cleaning of model output *)

Module CleanFacts.
Import Str StrFacts.

#[local] Arguments N.eqb : simpl never.
#[local] Arguments starts_with : simpl nomatch.

Lemma fence_units : fence = [96; 96; 96].
Proof. reflexivity. Qed.

Lemma match_fence_spec s :
  match Str.starts_with fence s with
  | true => exists n, match_fence s = Some (S (S (S n)))
  | false => match_fence s = None
  end.
Proof.
  unfold match_fence. destruct (starts_with fence s); [|reflexivity].
  eexists. reflexivity.
Qed.

Lemma match_fence_pos s n : match_fence s = Some n -> (3 <= n)%nat.
Proof.
  pose proof (match_fence_spec s) as H.
  destruct (starts_with fence s).
  - destruct H as [k ->]. intros [= <-]. lia.
  - rewrite H. discriminate.
Qed.

Lemma match_fence_None s :
  match_fence s = None <-> starts_with fence s = false.
Proof.
  pose proof (match_fence_spec s) as H.
  destruct (starts_with fence s).
  - destruct H as [k ->]. split; discriminate.
  - tauto.
Qed.

(** The scan for fences, when it emits the head of the string. *)
Lemma replace_fence_cons c t :
  starts_with fence (c :: t) = false ->
  replace_go match_fence O (c :: t) = c :: replace_go match_fence O t.
Proof.
  intros H. apply match_fence_None in H. simpl. now rewrite H.
Qed.

Lemma replace_fence_tick1 s :
  starts_with [96] s = false ->
  starts_with [96] (replace_go match_fence O s) = false.
Proof.
  destruct s as [|c t]; [trivial|]. intros H.
  rewrite replace_fence_cons.
  - exact H.
  - rewrite fence_units. simpl in *.
    destruct (96 =? c); simpl in *; [discriminate | reflexivity].
Qed.

Lemma replace_fence_tick2 s :
  starts_with [96; 96] s = false ->
  starts_with [96; 96] (replace_go match_fence O s) = false.
Proof.
  destruct s as [|c t]; [trivial|]. intros H.
  assert (Hf : starts_with fence (c :: t) = false).
  { rewrite fence_units. simpl in *. destruct (96 =? c); [|reflexivity].
    simpl in *. destruct t as [|d t]; [reflexivity|].
    simpl in *. destruct (96 =? d); simpl in *; [discriminate | reflexivity]. }
  rewrite (replace_fence_cons _ _ Hf).
  simpl in *. destruct (96 =? c); [|reflexivity]. simpl in *.
  apply (replace_fence_tick1 t). exact H.
Qed.

Lemma replace_fence_head k s :
  starts_with fence (replace_go match_fence k s) = false.
Proof.
  revert k; induction s as [|c t IH]; intros k; [reflexivity|].
  destruct k as [|k]; [|apply IH].
  destruct (starts_with fence (c :: t)) eqn:Hf.
  - pose proof (match_fence_spec (c :: t)) as H. rewrite Hf in H.
    destruct H as [n Hn]. simpl. rewrite Hn. apply IH.
  - rewrite (replace_fence_cons _ _ Hf).
    rewrite fence_units in *. simpl in *.
    destruct (96 =? c); [|reflexivity]. simpl in *.
    apply (replace_fence_tick2 t). exact Hf.
Qed.

Lemma replace_fence_clean k s :
  has_fence (replace_go match_fence k s) = false.
Proof.
  unfold has_fence.
  revert k; induction s as [|c t IH]; intros k; [reflexivity|].
  destruct k as [|k]; [|apply IH].
  destruct (starts_with fence (c :: t)) eqn:Hf.
  - pose proof (match_fence_spec (c :: t)) as H. rewrite Hf in H.
    destruct H as [n Hn]. simpl. rewrite Hn. apply IH.
  - pose proof (replace_fence_head O (c :: t)) as Hh.
    rewrite (replace_fence_cons _ _ Hf) in *.
    apply match_fence_None in Hh. simpl. rewrite Hh. apply IH.
Qed.

Lemma has_fence_app_l x y :
  has_fence x = true -> has_fence (x ++ y) = true.
Proof.
  unfold has_fence. induction x as [|c x IH]; simpl; [discriminate|].
  pose proof (match_fence_spec (c :: x)) as H.
  pose proof (match_fence_spec (c :: x ++ y)) as H'.
  destruct (starts_with fence (c :: x)) eqn:Hf.
  - apply (starts_with_prefix _ _ y) in Hf.
    change ((c :: x) ++ y) with (c :: x ++ y) in Hf.
    rewrite Hf in H'. destruct H' as [n ->]. reflexivity.
  - rewrite H. intros Ho. specialize (IH Ho).
    destruct (match_fence (c :: x ++ y)) as [[|n]|]; auto.
Qed.

Lemma has_fence_trim s : has_fence s = false -> has_fence (trim s) = false.
Proof.
  intros H. destruct (has_fence (trim s)) eqn:E; [|reflexivity].
  unfold trim in E.
  destruct (trimStart_suffix s) as [w Hw].
  destruct (trimEnd_prefix (trimStart s)) as [v Hv].
  apply (has_fence_app_l _ v) in E. rewrite <- Hv in E.
  apply (occurs_app_r match_fence w) in E. rewrite <- Hw in E.
  unfold has_fence in H. congruence.
Qed.

Lemma clean_no_fence s : has_fence (cleanLlmOutput s) = false.
Proof. apply has_fence_trim, replace_fence_clean. Qed.

Lemma clean_trimmed s : trim (cleanLlmOutput s) = cleanLlmOutput s.
Proof. apply trim_idem. Qed.

Lemma clean_length s : (length (cleanLlmOutput s) <= length s)%nat.
Proof.
  unfold cleanLlmOutput, remove_matches.
  etransitivity; [apply trim_length|].
  etransitivity; [apply replace_go_length|].
  etransitivity; [apply trim_length|].
  apply replace_go_length.
Qed.

End CleanFacts.

(** ** Facts about objects *)

Module ObjFacts.
Import Obj.

Section Dict.
Context {V : Type}.
Implicit Types (o : list (jsstring * V)) (k : jsstring) (v : V).

Lemma Forall_replace (Q : V -> Prop) k v o :
  Q v -> Forall (fun kv => Q (snd kv)) o ->
  Forall (fun kv => Q (snd kv)) (replace k v o).
Proof.
  intros Hv. induction 1 as [|[k' v'] o Hx Ho IH]; simpl; [constructor|].
  destruct (decide (k' = k)); constructor; auto.
Qed.

Lemma Forall_insert_index (Q : V -> Prop) i k v o :
  Q v -> Forall (fun kv => Q (snd kv)) o ->
  Forall (fun kv => Q (snd kv)) (insert_index i k v o).
Proof.
  intros Hv. induction 1 as [|[k' v'] o Hx Ho IH]; simpl.
  - repeat constructor. exact Hv.
  - destruct (array_index k') as [j|]; [destruct (j <? i)|];
      repeat (constructor; auto).
Qed.

Lemma Forall_define (Q : V -> Prop) k v o :
  Q v -> Forall (fun kv => Q (snd kv)) o ->
  Forall (fun kv => Q (snd kv)) (define k v o).
Proof.
  intros Hv Ho. unfold define. destruct (get k o).
  - now apply Forall_replace.
  - destruct (array_index k).
    + now apply Forall_insert_index.
    + apply Forall_app. split; [exact Ho|]. repeat constructor. exact Hv.
Qed.

Lemma Forall_assign (Q : V -> Prop) k v o :
  Q v -> Forall (fun kv => Q (snd kv)) o ->
  Forall (fun kv => Q (snd kv)) (assign k v o).
Proof.
  intros Hv Ho. unfold assign. destruct (decide (k = proto_key)); [exact Ho|].
  now apply Forall_define.
Qed.

Lemma get_replace_eq k v o : get k o <> None -> get k (replace k v o) = Some v.
Proof.
  induction o as [|[k' v'] o IH]; simpl; [congruence|].
  destruct (decide (k' = k)) as [->|Hne]; simpl.
  - intros _. now rewrite decide_True.
  - intros H. rewrite decide_False by exact Hne. auto.
Qed.

Lemma get_replace_ne k k' v o : k <> k' -> get k' (replace k v o) = get k' o.
Proof.
  intros Hne. induction o as [|[k1 v1] o IH]; simpl; [reflexivity|].
  destruct (decide (k1 = k)) as [->|H1]; simpl.
  - now rewrite !decide_False by exact Hne.
  - destruct (decide (k1 = k')); auto.
Qed.

Lemma get_insert_index_eq i k v o :
  get k o = None -> get k (insert_index i k v o) = Some v.
Proof.
  induction o as [|[k' v'] o IH]; simpl.
  - intros _. now rewrite decide_True.
  - destruct (decide (k' = k)) as [->|Hne]; [discriminate|]. intros H.
    destruct (array_index k') as [j|]; [destruct (j <? i)|]; simpl;
      rewrite ?decide_True by reflexivity; rewrite ?decide_False by exact Hne;
      auto.
Qed.

Lemma get_insert_index_ne i k k' v o :
  k <> k' -> get k' (insert_index i k v o) = get k' o.
Proof.
  intros Hne. induction o as [|[k1 v1] o IH]; simpl.
  - now rewrite decide_False by exact Hne.
  - destruct (array_index k1) as [j|]; [destruct (j <? i)|]; simpl;
      rewrite ?(decide_False (P := k = k')) by exact Hne; try reflexivity.
    now rewrite IH.
Qed.

Lemma get_app k o o' :
  get k (o ++ o') = match get k o with Some x => Some x | None => get k o' end.
Proof.
  induction o as [|[k1 v1] o IH]; simpl; [reflexivity|].
  destruct (decide (k1 = k)); auto.
Qed.

Lemma get_define_eq k v o : get k (define k v o) = Some v.
Proof.
  unfold define. destruct (get k o) eqn:E.
  - apply get_replace_eq. congruence.
  - destruct (array_index k).
    + now apply get_insert_index_eq.
    + rewrite get_app, E. simpl. now rewrite decide_True.
Qed.

Lemma get_define_ne k k' v o : k <> k' -> get k' (define k v o) = get k' o.
Proof.
  intros Hne. unfold define. destruct (get k o) eqn:E.
  - now apply get_replace_ne.
  - destruct (array_index k).
    + now apply get_insert_index_ne.
    + rewrite get_app. destruct (get k' o); [reflexivity|].
      simpl. now rewrite decide_False by exact Hne.
Qed.

Lemma length_replace k v o : length (replace k v o) = length o.
Proof.
  induction o as [|[k' v'] o IH]; simpl; [reflexivity|].
  destruct (decide (k' = k)); simpl; congruence.
Qed.

Lemma length_insert_index i k v o :
  length (insert_index i k v o) = S (length o).
Proof.
  induction o as [|[k' v'] o IH]; simpl; [reflexivity|].
  destruct (array_index k') as [j|]; [destruct (j <? i)|]; simpl; congruence.
Qed.

Lemma length_define k v o :
  length (define k v o)
  = match get k o with Some _ => length o | None => S (length o) end.
Proof.
  unfold define. destruct (get k o).
  - apply length_replace.
  - destruct (array_index k).
    + apply length_insert_index.
    + rewrite length_app. simpl. lia.
Qed.

Lemma define_not_nil k v o : define k v o <> [].
Proof.
  intros H. pose proof (get_define_eq k v o) as G. rewrite H in G. discriminate.
Qed.

End Dict.
End ObjFacts.

(** ** More on objects *)

Module ObjMore.
Import Obj.

Section Dict.
Context {V : Type}.
Implicit Types (o : list (jsstring * V)) (k : jsstring) (v : V).

Lemma get_assign_eq k v o : k <> proto_key -> get k (assign k v o) = Some v.
Proof.
  intros H. unfold assign. rewrite decide_False by exact H.
  apply ObjFacts.get_define_eq.
Qed.

Lemma get_assign_ne k k' v o : k <> k' -> get k' (assign k v o) = get k' o.
Proof.
  intros H. unfold assign. destruct (decide (k = proto_key)); [reflexivity|].
  now apply ObjFacts.get_define_ne.
Qed.

Lemma get_assign_proto k v o : get proto_key (assign k v o) = get proto_key o.
Proof.
  unfold assign. destruct (decide (k = proto_key)) as [|H]; [reflexivity|].
  now apply ObjFacts.get_define_ne.
Qed.

Lemma get_assign_inv k k' v x o :
  get k' (assign k v o) = Some x -> (k = k' /\ v = x) \/ get k' o = Some x.
Proof.
  destruct (decide (k = k')) as [->|Hne].
  - unfold assign. destruct (decide (k' = proto_key)); [auto|].
    rewrite ObjFacts.get_define_eq. intros [= ->]. auto.
  - rewrite get_assign_ne by exact Hne. auto.
Qed.

Lemma get_In k v o : get k o = Some v -> In (k, v) o.
Proof.
  induction o as [|[k' v'] o IH]; simpl; [discriminate|].
  destruct (decide (k' = k)) as [->|]; [intros [= ->]; auto | auto].
Qed.

Lemma get_None k o : get k o = None <-> ~ In k (map fst o).
Proof.
  induction o as [|[k' v'] o IH]; simpl; [tauto|].
  destruct (decide (k' = k)) as [->|Hne].
  - split; [discriminate | tauto].
  - rewrite IH. tauto.
Qed.

Lemma In_get k v o : NoDup (map fst o) -> In (k, v) o -> get k o = Some v.
Proof.
  induction o as [|[k' v'] o IH]; simpl; [tauto|].
  intros Hnd. apply NoDup_cons in Hnd as [Hk Hnd].
  intros [[= -> ->]|Hin].
  - now rewrite decide_True.
  - rewrite decide_False; [auto|].
    intros ->. apply Hk, list_elem_of_In. apply (in_map fst) in Hin. exact Hin.
Qed.

(** A key that is no array index goes behind the properties there are. *)
Lemma define_new k v o :
  get k o = None -> array_index k = None -> define k v o = o ++ [(k, v)].
Proof. intros Hg Hi. unfold define. now rewrite Hg, Hi. Qed.

End Dict.

Section Loop.
Context {A B : Type} (f : A -> B).
Implicit Types (l : list (jsstring * A)) (out : list (jsstring * B)).

Lemma assign_each_cons key prop l out :
  assign_each f ((key, prop) :: l) out
  = assign_each f l (assign key (f prop) out).
Proof. reflexivity. Qed.

Lemma assign_each_other k l out :
  ~ In k (map fst l) -> get k (assign_each f l out) = get k out.
Proof.
  revert out. induction l as [|[k0 c0] l IH]; intros out Hk; [reflexivity|].
  rewrite assign_each_cons, IH by (simpl in Hk; tauto).
  apply get_assign_ne. simpl in Hk. tauto.
Qed.

Lemma assign_each_proto l out :
  get proto_key (assign_each f l out) = get proto_key out.
Proof.
  revert out. induction l as [|[k0 c0] l IH]; intros out; [reflexivity|].
  rewrite assign_each_cons, IH. apply get_assign_proto.
Qed.

Lemma assign_each_get k c l out :
  NoDup (map fst l) -> In (k, c) l -> k <> proto_key ->
  get k (assign_each f l out) = Some (f c).
Proof.
  revert out. induction l as [|[k0 c0] l IH]; intros out Hnd Hin Hp;
    [destruct Hin|].
  simpl in Hnd. apply NoDup_cons in Hnd as [Hk Hnd].
  rewrite assign_each_cons. destruct Hin as [[= -> ->]|Hin].
  - rewrite assign_each_other by (rewrite <- list_elem_of_In; exact Hk).
    now apply get_assign_eq.
  - now apply IH.
Qed.

Lemma assign_each_inv k x l out :
  get k (assign_each f l out) = Some x ->
  get k out = Some x \/ exists c, In (k, c) l /\ x = f c.
Proof.
  revert out. induction l as [|[k0 c0] l IH]; intros out; [auto|].
  rewrite assign_each_cons. intros H.
  apply IH in H as [H|(c & Hin & ->)].
  - apply get_assign_inv in H as [[-> <-]|H]; [|auto].
    right. exists c0. simpl. auto.
  - right. exists c. simpl. auto.
Qed.

(** Names that are neither array indices nor [__proto__], each given
    once, come out in the order they went in. *)
Lemma assign_each_keys l out :
  NoDup (map fst out ++ map fst l) ->
  Forall (fun kc => array_index (fst kc) = None /\ fst kc <> proto_key) l ->
  map fst (assign_each f l out) = map fst out ++ map fst l.
Proof.
  revert out. induction l as [|[k0 c0] l IH]; intros out Hnd Hl.
  - simpl. now rewrite app_nil_r.
  - inversion Hl as [|? ? [Hi Hp] Hl']; subst. simpl in Hi, Hp.
    rewrite assign_each_cons.
    assert (Hnew : get k0 out = None).
    { apply get_None. intros Hin.
      apply NoDup_app in Hnd as (_ & Hd & _).
      apply (Hd k0); [now apply list_elem_of_In | simpl; left]. }
    assert (Ha : assign k0 (f c0) out = out ++ [(k0, f c0)]).
    { unfold assign. rewrite decide_False by exact Hp.
      now apply define_new. }
    rewrite Ha, IH.
    + rewrite map_app. simpl. now rewrite <- app_assoc.
    + rewrite map_app. simpl. rewrite <- app_assoc. exact Hnd.
    + exact Hl'.
Qed.

End Loop.

(** Two objects with the same keys in the same order, whose values are
    related pairwise. *)
Section Related.
Context {A B : Type} (R : A -> B -> Prop).

Definition related (o : list (jsstring * A)) (o' : list (jsstring * B)) : Prop :=
  Forall2 (fun a b => fst a = fst b /\ R (snd a) (snd b)) o o'.

Lemma related_get k o o' :
  related o o' ->
  match get k o, get k o' with
  | Some a, Some b => R a b
  | None, None => True
  | _, _ => False
  end.
Proof.
  induction 1 as [|[k1 a] [k2 b] o o' [Hk Hr] Ho IH]; simpl; [exact I|].
  simpl in Hk, Hr. subst k2. destruct (decide (k1 = k)); auto.
Qed.

Lemma related_replace k a b o o' :
  R a b -> related o o' -> related (replace k a o) (replace k b o').
Proof.
  intros Hab. induction 1 as [|[k1 x] [k2 y] o o' [Hk Hr] Ho IH]; simpl;
    [constructor|].
  simpl in Hk, Hr. subst k2.
  destruct (decide (k1 = k)); constructor; auto.
Qed.

Lemma related_insert_index i k a b o o' :
  R a b -> related o o' ->
  related (insert_index i k a o) (insert_index i k b o').
Proof.
  intros Hab. induction 1 as [|[k1 x] [k2 y] o o' [Hk Hr] Ho IH]; simpl.
  - repeat constructor; auto.
  - simpl in Hk, Hr. subst k2.
    destruct (array_index k1) as [j|]; [destruct (j <? i)|];
      repeat (constructor; auto).
Qed.

Lemma related_assign k a b o o' :
  R a b -> related o o' -> related (assign k a o) (assign k b o').
Proof.
  intros Hab Ho. unfold assign.
  destruct (decide (k = proto_key)); [exact Ho|]. unfold define.
  pose proof (related_get k o o' Ho) as Hg.
  destruct (get k o), (get k o'); try contradiction.
  - now apply related_replace.
  - destruct (array_index k).
    + now apply related_insert_index.
    + apply Forall2_app; [exact Ho|]. repeat constructor; auto.
Qed.

Lemma related_assign_each (f : ResponseSchema -> A) (g : ResponseSchema -> B)
    l o o' :
  Forall (fun kc => R (f (snd kc)) (g (snd kc))) l ->
  related o o' -> related (assign_each f l o) (assign_each g l o').
Proof.
  intros Hl. revert o o'.
  induction Hl as [|[k c] l Hc Hl IH]; intros o o' Ho; [exact Ho|].
  rewrite !assign_each_cons. apply IH. now apply related_assign.
Qed.

End Related.
End ObjMore.

(** ** The loose dialect closes every object node (claim C6) *)

Section SchemaInduction.
Variable P : ResponseSchema -> Prop.
Hypothesis step : forall t d ps it e r,
  match ps with
  | Some l => Forall (fun kc => P (snd kc)) l
  | None => True
  end ->
  match it with Some c => P c | None => True end ->
  P (mkSchema t d ps it e r).

Fixpoint ResponseSchema_nested_ind (s : ResponseSchema) : P s :=
  match s with
  | mkSchema t d ps it e r =>
      step t d ps it e r
        (match ps as ps'
               return match ps' with
                      | Some l => Forall (fun kc => P (snd kc)) l
                      | None => True
                      end
         with
         | Some l =>
             (fix all (l : list (jsstring * ResponseSchema))
                : Forall (fun kc => P (snd kc)) l :=
                match l as l' return Forall (fun kc => P (snd kc)) l' with
                | [] => List.Forall_nil _
                | kc :: rest =>
                    List.Forall_cons _ kc rest (ResponseSchema_nested_ind (snd kc))
                      (all rest)
                end) l
         | None => I
         end)
        (match it as it'
               return match it' with Some c => P c | None => True end
         with
         | Some c => ResponseSchema_nested_ind c
         | None => I
         end)
  end.
End SchemaInduction.

Module SchemaFacts.

Lemma well_formed_children l :
  (fix all (l : list (jsstring * ResponseSchema)) : Prop :=
     match l with
     | [] => True
     | (_, c) :: r => well_formed c /\ all r
     end) l
  <-> Forall (fun kc => well_formed (snd kc)) l.
Proof.
  induction l as [|[k c] l IH]; simpl.
  - split; [constructor | trivial].
  - rewrite IH. split.
    + intros [? ?]. now constructor.
    + intros H. inversion H; subst. now split.
Qed.

Lemma every_node_children P l :
  (fix all (l : list (jsstring * JsonSchema)) : Prop :=
     match l with
     | [] => True
     | (_, c) :: r => every_node P c /\ all r
     end) l
  <-> Forall (fun kc => every_node P (snd kc)) l.
Proof.
  induction l as [|[k c] l IH]; simpl.
  - split; [constructor | trivial].
  - rewrite IH. split.
    + intros [? ?]. now constructor.
    + intros H. inversion H; subst. now split.
Qed.

Lemma type_name_lower t :
  In (map ascii_lower (SchemaType_value t)) lowercase_type_names.
Proof. destruct t; vm_compute; tauto. Qed.

Lemma type_name_object t :
  map ascii_lower (SchemaType_value t) = lit "object" -> t = OBJECT.
Proof. destruct t; vm_compute; congruence. Qed.

Lemma root_closed s :
  (type s = OBJECT -> properties s <> None) ->
  closed_node (mapToJsonSchema s).
Proof.
  destruct s as [t d ps it e r]. simpl. intros Hwf. split; simpl.
  - apply type_name_lower.
  - intros Ht. apply type_name_object in Ht. specialize (Hwf Ht).
    destruct ps; congruence.
Qed.

Lemma type_name_loose t :
  map ascii_lower (SchemaType_value t) = loose_type_name t.
Proof. destruct t; reflexivity. Qed.

(** The properties of a translated node, one by one. *)
Lemma translated_properties (P : ResponseSchema -> JsonSchema -> Prop)
    (l : list (jsstring * ResponseSchema)) (final : list (jsstring * JsonSchema)) :
  (exists mid, final = assign_each mapToJsonSchema l mid) ->
  Forall (fun kc => P (snd kc) (mapToJsonSchema (snd kc))) l ->
  (fix each (l : list (jsstring * ResponseSchema)) : Prop :=
     match l with
     | [] => True
     | (k, c) :: r =>
         (k <> Obj.proto_key -> ~ In k (map fst r) ->
          exists o', Obj.get k final = Some o' /\ P c o') /\
         each r
     end) l.
Proof.
  induction l as [|[k c] r IH]; intros [mid ->] Hall; [exact I|].
  inversion Hall as [|? ? Hc Hr]; subst. simpl in Hc. split.
  - intros Hp Hk. exists (mapToJsonSchema c). split; [|exact Hc].
    rewrite ObjMore.assign_each_cons, ObjMore.assign_each_other by exact Hk.
    now apply ObjMore.get_assign_eq.
  - apply IH; [|exact Hr]. eexists. apply ObjMore.assign_each_cons.
Qed.

Lemma translated_names (l : list (jsstring * ResponseSchema)) k :
  Obj.get k (assign_each mapToJsonSchema l []) <> None -> In k (map fst l).
Proof.
  destruct (Obj.get k _) as [x|] eqn:E; [intros _|congruence].
  apply ObjMore.assign_each_inv in E as [E|(c & Hin & _)]; [discriminate|].
  apply (in_map fst) in Hin. exact Hin.
Qed.

Lemma mapToJsonSchema_translates s :
  well_formed s -> translates s (mapToJsonSchema s).
Proof.
  induction s as [t d ps it e r IHps IHit] using ResponseSchema_nested_ind.
  intros Hwf. simpl in Hwf. destruct Hwf as (Ho & Ha & Hps & Hit).
  cbn [translates mapToJsonSchema j_type j_additionalProperties j_properties
         j_items].
  split; [apply type_name_loose|]. split.
  { intros Ht. specialize (Ho Ht). destruct ps; congruence. }
  split.
  - destruct ps as [l|]; [|exact I].
    apply SchemaFacts.well_formed_children in Hps. simpl in IHps.
    split; [intros k; apply translated_names|].
    apply (translated_properties translates l); [exists []; reflexivity|].
    clear Ho. induction l as [|[k c] l IHl]; [constructor|].
    inversion Hps; subst. inversion IHps; subst. constructor; auto.
  - destruct it as [c|]; [|exact I]. apply IHit. exact Hit.
Qed.

End SchemaFacts.

(** C6: for every well-formed vendor-neutral schema [s],
    [mapToJsonSchema s] is a translation of [s] node by node: every node
    carries the lower-case name of the type of the node of [s] it is
    translated from, the translation of every OBJECT node of [s] carries
    [additionalProperties: false], and every property and the items of
    a node of [s] have their translation in the same place.  So every
    node of the result carries a lower-case type name and is closed when
    that name is [object]; in particular the root. *)
Theorem C6_loose_dialect_closed (s : ResponseSchema) :
  well_formed s ->
  translates s (mapToJsonSchema s) /\
  every_node closed_node (mapToJsonSchema s) /\
  In (j_type (mapToJsonSchema s)) lowercase_type_names /\
  (type s = OBJECT -> j_additionalProperties (mapToJsonSchema s) = Some false).
Proof.
  intros Hwf.
  split; [now apply SchemaFacts.mapToJsonSchema_translates|].
  assert (Hroot : closed_node (mapToJsonSchema s)).
  { apply SchemaFacts.root_closed. destruct s; simpl in *. tauto. }
  split; [|split].
  - clear Hroot. revert Hwf.
    induction s as [t d ps it e r IHps IHit] using ResponseSchema_nested_ind.
    intros Hwf.
    pose proof (SchemaFacts.root_closed (mkSchema t d ps it e r)) as Hc.
    simpl in Hwf. destruct Hwf as (Ho & Ha & Hps & Hit).
    simpl. split; [apply Hc; exact Ho|]. split.
    + destruct ps as [l|]; [|exact I].
      apply SchemaFacts.every_node_children.
      apply SchemaFacts.well_formed_children in Hps.
      simpl in IHps.
      assert (G : forall out,
        Forall (fun kc => every_node closed_node (snd kc)) out ->
        Forall (fun kc => every_node closed_node (snd kc))
          ((fix loop (l : list (jsstring * ResponseSchema))
                (out : list (jsstring * JsonSchema)) :=
              match l with
              | [] => out
              | (key, prop) :: rest =>
                  loop rest (Obj.assign key (mapToJsonSchema prop) out)
              end) l out)).
      { clear Ho. induction l as [|[k c] l IHl]; intros out Hout; [exact Hout|].
        inversion Hps; subst. inversion IHps; subst. simpl in *.
        apply IHl; auto.
        apply (ObjFacts.Forall_assign (every_node closed_node)); auto. }
      apply G. constructor.
    + destruct it as [c|]; [|exact I]. apply IHit. exact Hit.
  - apply Hroot.
  - intros Ht. destruct Hroot as [_ Hroot]. apply Hroot.
    destruct s as [t d ps it e r]. simpl in *. subst t. reflexivity.
Qed.

(** C6 on the response schema of the Analyst. *)
Lemma C6_loose_dialect_closed_witness :
  well_formed analyst_schema /\
  translates analyst_schema (mapToJsonSchema analyst_schema) /\
  j_additionalProperties (mapToJsonSchema analyst_schema) = Some false.
Proof.
  assert (H : well_formed analyst_schema).
  { simpl. repeat split; discriminate. }
  split; [exact H|].
  destruct (C6_loose_dialect_closed analyst_schema H) as (Ht & _ & _ & Hc).
  split; [exact Ht | apply Hc; reflexivity].
Defined.

(** ** Frame reasoning for the effects *)

Module Frame.
Section Generic.
Context (I : Trace -> Trace -> Prop) `{!Invariant I}.

Lemma keeps_ret {A} (x : A) : Keeps I (mret x).
Proof. intros tr. apply inv_refl. Qed.

Lemma keeps_throw {A} (e : exn) : Keeps I (@throw A e).
Proof. intros tr. apply inv_refl. Qed.

Lemma keeps_lift {A} (r : exn + A) : Keeps I (lift r).
Proof. intros tr. apply inv_refl. Qed.

Lemma keeps_bind {A B} (m : M A) (f : A -> M B) :
  Keeps I m -> (forall x, Keeps I (f x)) -> Keeps I (m ≫= f).
Proof.
  intros Hm Hf tr. unfold mbind, M_bind. specialize (Hm tr).
  destruct (m tr) as [[e|x] tr1]; simpl in *; [exact Hm|].
  eapply inv_trans; [exact Hm | apply Hf].
Qed.

Lemma keeps_try_catch {A} (m : M A) (h : exn -> M A) :
  Keeps I m -> (forall e, Keeps I (h e)) -> Keeps I (try_catch m h).
Proof.
  intros Hm Hh tr. unfold try_catch. specialize (Hm tr).
  destruct (m tr) as [[e|x] tr1]; simpl in *; [|exact Hm].
  eapply inv_trans; [exact Hm | apply Hh].
Qed.

End Generic.
End Frame.

(** The invariants used below. *)

#[global] Instance same_steps_inv : Invariant same_steps.
Proof. split; unfold same_steps; congruence. Qed.

#[global] Instance same_errors_inv : Invariant same_errors.
Proof. split; unfold same_errors; congruence. Qed.

#[global] Instance same_requests_inv : Invariant same_requests.
Proof. split; unfold same_requests; congruence. Qed.

#[global] Instance no_wait_inv : Invariant no_wait.
Proof.
  split.
  - intros tr. exists []. rewrite app_nil_r. auto.
  - intros a b c [l [Hl Nl]] [l' [Hl' Nl']]. exists (l ++ l').
    rewrite Hl', Hl, app_assoc. split; [reflexivity|].
    rewrite in_app_iff. tauto.
Qed.

Lemma same_steps_no_wait tr tr' : same_steps tr tr' -> no_wait tr tr'.
Proof. intros H. exists []. rewrite app_nil_r. auto. Qed.

Lemma error_entries_app l l' :
  error_entries (l ++ l') = error_entries l ++ error_entries l'.
Proof. apply List.filter_app. Qed.

Create HintDb frame.

Section Primitives.
Variable JS : Platform.
Variable PROMPTS : PromptTemplates.
Variable W : World.

Lemma Date_now_steps : Keeps same_steps (Date_now W).
Proof. intros tr. reflexivity. Qed.
Lemma Date_now_errors : Keeps same_errors (Date_now W).
Proof. intros tr. reflexivity. Qed.
Lemma Date_now_requests : Keeps same_requests (Date_now W).
Proof. intros tr. reflexivity. Qed.

Lemma onLog_steps e : Keeps same_steps (onLog e).
Proof. intros tr. reflexivity. Qed.
Lemma onLog_requests e : Keeps same_requests (onLog e).
Proof. intros tr. reflexivity. Qed.
Lemma onLog_errors e : is_error_entry e = false -> Keeps same_errors (onLog e).
Proof.
  intros He tr. unfold same_errors. simpl.
  rewrite error_entries_app. simpl. rewrite He. apply app_nil_r.
Qed.

Lemma onProgress_errors s : Keeps same_errors (onProgress s).
Proof. intros tr. reflexivity. Qed.
Lemma onProgress_requests s : Keeps same_requests (onProgress s).
Proof. intros tr. reflexivity. Qed.
Lemma onProgress_no_wait s : s <> WAITING_FOR_USER -> Keeps no_wait (onProgress s).
Proof.
  intros Hs tr. exists [s]. split; [reflexivity|]. simpl. intuition congruence.
Qed.

Lemma console_error_steps l e : Keeps same_steps (console_error l e).
Proof. intros tr. reflexivity. Qed.
Lemma console_error_errors l e : Keeps same_errors (console_error l e).
Proof. intros tr. reflexivity. Qed.
Lemma console_error_requests l e : Keeps same_requests (console_error l e).
Proof. intros tr. reflexivity. Qed.

Lemma google_call_steps k r : Keeps same_steps (google_call W k r).
Proof. intros tr. unfold google_call. now destruct (google_sdk _ _ _ _). Qed.
Lemma google_call_errors k r : Keeps same_errors (google_call W k r).
Proof. intros tr. unfold google_call. now destruct (google_sdk _ _ _ _). Qed.

Lemma openrouter_call_steps k r : Keeps same_steps (openrouter_call W k r).
Proof.
  intros tr. unfold openrouter_call. now destruct (openrouter_sdk _ _ _ _).
Qed.
Lemma openrouter_call_errors k r : Keeps same_errors (openrouter_call W k r).
Proof.
  intros tr. unfold openrouter_call. now destruct (openrouter_sdk _ _ _ _).
Qed.

(** [log(createLog(step, type, ...))] with a type other than ['error']. *)
Lemma log_errors {A} step type content d t (k : M A) :
  type <> Kind.error ->
  Keeps same_errors k ->
  Keeps same_errors
    (createLog W step type content d t ≫= fun entry => onLog entry ≫= fun _ => k).
Proof.
  intros Ht Hk. unfold createLog.
  intros tr. unfold mbind, M_bind, mret, M_ret, Date_now, onLog. simpl.
  eapply inv_trans; [|apply Hk].
  unfold same_errors. simpl. rewrite error_entries_app. simpl.
  unfold is_error_entry. simpl. destruct type; try congruence; apply app_nil_r.
Qed.

Lemma log_errors_last step type content d t :
  type <> Kind.error ->
  Keeps same_errors
    (createLog W step type content d t ≫= fun entry => onLog entry).
Proof.
  intros Ht tr. unfold createLog, mbind, M_bind, mret, M_ret, Date_now, onLog.
  unfold same_errors. simpl. rewrite error_entries_app. simpl.
  unfold is_error_entry. simpl. destruct type; try congruence; apply app_nil_r.
Qed.

Lemma createLog_steps step type content d t :
  Keeps same_steps (createLog W step type content d t).
Proof. intros tr. reflexivity. Qed.
Lemma createLog_requests step type content d t :
  Keeps same_requests (createLog W step type content d t).
Proof. intros tr. reflexivity. Qed.

End Primitives.

#[export] Hint Resolve Date_now_steps Date_now_errors Date_now_requests
  onLog_steps onLog_requests onProgress_errors onProgress_requests
  console_error_steps console_error_errors console_error_requests
  google_call_steps google_call_errors openrouter_call_steps
  openrouter_call_errors createLog_steps createLog_requests : frame.

(** One step of a frame proof: follow the shape of the computation. *)
Ltac frame_step :=
  match goal with
  | |- Keeps same_errors (createLog _ _ _ _ _ _ ≫= _) =>
      first [ simple apply log_errors_last; discriminate
            | simple apply log_errors; [discriminate|] ]
  | |- Keeps _ (mret _) => apply Frame.keeps_ret; typeclasses eauto
  | |- Keeps _ (throw _) => apply Frame.keeps_throw; typeclasses eauto
  | |- Keeps _ (lift _) => apply Frame.keeps_lift; typeclasses eauto
  | |- Keeps _ (_ ≫= _) => apply Frame.keeps_bind; [typeclasses eauto | | intros]
  | |- Keeps _ (try_catch _ _) =>
      apply Frame.keeps_try_catch; [typeclasses eauto | | intros]
  | |- Keeps _ (match ?x with _ => _ end) => destruct x
  | |- Keeps _ _ => solve [eauto with frame]
  end.

Ltac frame := repeat frame_step.

Section Runners.
Variable JS : Platform.
Variable PROMPTS : PromptTemplates.
Variable W : World.

Lemma createLlmClient_keeps I `{!Invariant I} p k :
  Keeps I (createLlmClient W p k).
Proof. unfold createLlmClient. frame. Qed.

Lemma generateContent_steps c p : Keeps same_steps (generateContent JS W c p).
Proof.
  unfold generateContent, Google_generateContent, OpenRouter_generateContent.
  frame.
Qed.

Lemma generateContent_errors c p : Keeps same_errors (generateContent JS W c p).
Proof.
  unfold generateContent, Google_generateContent, OpenRouter_generateContent.
  frame.
Qed.

Hint Resolve generateContent_steps generateContent_errors : frame.
Hint Extern 1 (Keeps _ (createLlmClient _ _ _)) =>
  apply createLlmClient_keeps; typeclasses eauto : frame.

Lemma extract_files_steps t : Keeps same_steps (extract_files JS W t).
Proof. unfold extract_files. frame. Qed.

Lemma extract_files_errors t : Keeps same_errors (extract_files JS W t).
Proof. unfold extract_files. frame. Qed.

Lemma extract_files_requests t : Keeps same_requests (extract_files JS W t).
Proof. unfold extract_files. frame. Qed.

Hint Resolve extract_files_steps extract_files_errors : frame.

Lemma runAnalyst_steps s k c : Keeps same_steps (runAnalyst JS PROMPTS W s k c).
Proof. unfold runAnalyst. frame. Qed.

Lemma runArchitect_steps s k p c :
  Keeps same_steps (runArchitect JS PROMPTS W s k p c).
Proof. unfold runArchitect. frame. Qed.

Lemma runArchitect_errors s k p c :
  Keeps same_errors (runArchitect JS PROMPTS W s k p c).
Proof. unfold runArchitect. frame. Qed.

Lemma runCoder_steps s k p a c :
  Keeps same_steps (runCoder JS PROMPTS W s k p a c).
Proof. unfold runCoder. frame. Qed.

Lemma runCoder_errors s k p a c :
  Keeps same_errors (runCoder JS PROMPTS W s k p a c).
Proof. unfold runCoder. frame. Qed.

Lemma runAuditor_steps s k o g :
  Keeps same_steps (runAuditor JS PROMPTS W s k o g).
Proof. unfold runAuditor. frame. Qed.

Lemma runAuditor_errors s k o g :
  Keeps same_errors (runAuditor JS PROMPTS W s k o g).
Proof. unfold runAuditor. frame. Qed.

End Runners.

#[export] Hint Resolve generateContent_steps generateContent_errors
  extract_files_steps extract_files_errors extract_files_requests
  runAnalyst_steps runArchitect_steps runArchitect_errors runCoder_steps
  runCoder_errors runAuditor_steps runAuditor_errors : frame.


(** ** Idempotence of cleaning (claim C7) *)

(** C7, as stated, fails: removing a fence can join the surrounding text
    into a think block, which only a second cleaning removes.  Here
    [cleanLlmOutput "<thi```nk>a</think>b" = "<think>a</think>b"], and
    cleaning that again gives ["b"]. *)
Lemma C7_clean_not_idempotent :
  cleanLlmOutput (cleanLlmOutput (lit "<thi```nk>a</think>b"))
  <> cleanLlmOutput (lit "<thi```nk>a</think>b").
Proof. vm_compute. discriminate. Qed.

(** C7, amended: cleaned text never holds a fence delimiter, and cleaning
    it again is a no-op exactly when it holds no complete think block. *)
Theorem C7_clean_idempotent_iff (s : jsstring) :
  has_fence (cleanLlmOutput s) = false /\
  (cleanLlmOutput (cleanLlmOutput s) = cleanLlmOutput s
   <-> has_think_block (cleanLlmOutput s) = false).
Proof.
  split; [apply CleanFacts.clean_no_fence|].
  set (t := cleanLlmOutput s). split.
  - intros Heq. destruct (has_think_block t) eqn:E; [exfalso|reflexivity].
    apply StrFacts.occurs_true_shrinks in E.
    assert (L : (length (cleanLlmOutput t)
                 <= length (Str.remove_matches match_think t))%nat).
    { unfold cleanLlmOutput, Str.remove_matches.
      etransitivity; [apply StrFacts.trim_length|].
      etransitivity; [apply StrFacts.replace_go_length|].
      apply StrFacts.trim_length. }
    rewrite Heq in L. lia.
  - intros E. unfold cleanLlmOutput at 1.
    rewrite (StrFacts.occurs_false_id _ t E).
    subst t. rewrite CleanFacts.clean_trimmed.
    rewrite (StrFacts.occurs_false_id _ _ (CleanFacts.clean_no_fence s)).
    apply CleanFacts.clean_trimmed.
Qed.

Example clean_ex1 :
  cleanLlmOutput (lit "<think>hm</think> ```json {} ``` ") = lit "{}".
Proof. vm_compute. reflexivity. Qed.

Example clean_ex2 :
  cleanLlmOutput (lit "<thi```nk>a</think>b") = lit "<think>a</think>b".
Proof. vm_compute. reflexivity. Qed.

(** ** Stages, seen uniformly *)

(** The one-step tactic for running the monad symbolically. *)
Ltac run :=
  cbv beta iota zeta delta
    [mbind M_bind mret M_ret throw try_catch lift createLog Date_now onLog
     onProgress console_error google_call openrouter_call sent failure] in *;
  cbn [fst snd logs steps requests console ticks text usage] in *.

(** Case analysis on what an SDK answers. *)
Ltac case_sdk :=
  match goal with
  | |- context [google_sdk ?w ?n ?k ?r] =>
      let E := fresh "Esdk" in destruct (google_sdk w n k r) eqn:E
  | |- context [openrouter_sdk ?w ?n ?k ?r] =>
      let E := fresh "Esdk" in destruct (openrouter_sdk w n k r) eqn:E
  end.

Module RunFacts.
Section RunFacts.
Variable JS : Platform.
Variable PROMPTS : PromptTemplates.
Variable W : World.

Lemma render_entries_strings fmt (m : FileMap) :
  (forall n s, exists line, fmt n (VStr s) = inr line) ->
  all_strings m -> exists lines, render_entries fmt m = inr lines.
Proof.
  intros Hfmt. induction 1 as [|[n v] m [s Hs] Hm [lines IH]]; simpl.
  - eauto.
  - simpl in Hs. subst v. destruct (Hfmt n s) as [line ->].
    rewrite IH. eauto.
Qed.

Lemma render_strings fmt (m : FileMap) :
  (forall n s, exists line, fmt n (VStr s) = inr line) ->
  all_strings m -> exists text, render fmt m = inr text.
Proof.
  intros Hfmt Hm. unfold render.
  destruct (render_entries_strings fmt m Hfmt Hm) as [lines ->]. eauto.
Qed.

Lemma render_context (m : FileMap) :
  all_strings m -> exists text, render (context_line JS) m = inr text.
Proof. apply render_strings. intros n s. unfold context_line. simpl. eauto. Qed.

Lemma render_original (m : FileMap) :
  all_strings m -> exists text, render original_line m = inr text.
Proof. apply render_strings. intros n s. simpl. eauto. Qed.

Lemma render_generated (m : FileMap) :
  all_strings m -> exists text, render (generated_line JS) m = inr text.
Proof.
  apply render_strings. intros n s. unfold generated_line. simpl. eauto.
Qed.

Lemma resolve_stored keys p :
  session_key keys p = [] ->
  resolveApiKey W p (Some keys) = getStoredApiKey W p.
Proof. destruct p; simpl; intros ->; reflexivity. Qed.

Lemma resolve_session keys p :
  Str.truthy (session_key keys p) = true ->
  resolveApiKey W p (Some keys) = Some (session_key keys p).
Proof. destruct p; simpl; intros ->; reflexivity. Qed.

(** Every failure of a provider client carries the client's message. *)
Lemma generateContent_error client params tr e tr' :
  generateContent JS W client params tr = (inl e, tr') ->
  exists detail,
    e = Error (google_error_message (p_model params) detail) \/
    e = Error (openrouter_error_message (p_model params) detail).
Proof.
  destruct client as [k|k]; simpl.
  - unfold Google_generateContent, google_call. run.
    case_sdk; run; intros [= <- <-]; eauto.
  - unfold OpenRouter_generateContent, openrouter_call. run.
    case_sdk; run.
    + intros [= <- <-]; eauto.
    + destruct (choices _); run; intros [= <- <-]; eauto.
Qed.

Lemma missing_key_shape p :
  exists t, missing_key p = 77 :: t /\
            Str.starts_with (lit "Missing API Key for ") (missing_key p) = true.
Proof. destruct p; vm_compute; eauto. Qed.

Lemma missing_key_analyst_shape p :
  exists t, missing_key_analyst p = 77 :: t /\
            Str.starts_with (lit "Missing API Key for ") (missing_key_analyst p)
            = true.
Proof. destruct p; vm_compute; eauto. Qed.

Lemma google_error_head m d : exists t, google_error_message m d = 71 :: t.
Proof. eexists. reflexivity. Qed.

Lemma openrouter_error_head m d :
  exists t, openrouter_error_message m d = 79 :: t.
Proof. eexists. reflexivity. Qed.

Lemma not_a_client_message msg t :
  msg = 77 :: t ->
  forall m d, msg <> google_error_message m d /\
              msg <> openrouter_error_message m d.
Proof.
  intros -> m d.
  destruct (google_error_head m d) as [t1 ->].
  destruct (openrouter_error_head m d) as [t2 ->].
  split; intros [=].
Qed.

(** A stage without a credential: it logs its prompt, reads the clock
    twice and raises the configuration error. *)
Lemma runAnalyst_no_key selection keys code tr :
  no_key (resolveApiKey W (provider selection) (Some keys)) = true ->
  exists tr',
    runAnalyst JS PROMPTS W selection keys code tr
    = (inl (Error (missing_key_analyst (provider selection))), tr')
    /\ requests tr' = requests tr.
Proof.
  intros H. unfold runAnalyst. run. rewrite H. run. eauto.
Qed.

Lemma runArchitect_no_key selection keys plan ctx tr :
  all_strings ctx ->
  no_key (resolveApiKey W (provider selection) (Some keys)) = true ->
  exists tr',
    runArchitect JS PROMPTS W selection keys plan ctx tr
    = (inl (Error (missing_key (provider selection))), tr')
    /\ requests tr' = requests tr.
Proof.
  intros Hc H. unfold runArchitect.
  destruct (render_context ctx Hc) as [text ->]. run. rewrite H. run. eauto.
Qed.

Lemma runCoder_no_key selection keys plan arch ctx tr :
  all_strings ctx ->
  no_key (resolveApiKey W (provider selection) (Some keys)) = true ->
  exists tr',
    runCoder JS PROMPTS W selection keys plan arch ctx tr
    = (inl (Error (missing_key (provider selection))), tr')
    /\ requests tr' = requests tr.
Proof.
  intros Hc H. unfold runCoder.
  destruct (render_context ctx Hc) as [text ->]. run. rewrite H. run. eauto.
Qed.

Lemma runAuditor_no_key selection keys orig gen tr :
  all_strings orig -> all_strings gen ->
  no_key (resolveApiKey W (provider selection) (Some keys)) = true ->
  exists tr',
    runAuditor JS PROMPTS W selection keys orig gen tr
    = (inl (Error (missing_key (provider selection))), tr')
    /\ requests tr' = requests tr.
Proof.
  intros Ho Hg H. unfold runAuditor.
  destruct (render_original orig Ho) as [text ->].
  destruct (render_generated gen Hg) as [text' ->].
  run. rewrite H. run. eauto.
Qed.

End RunFacts.
End RunFacts.

(** ** Missing credentials (claim C8) *)

(** C8: a stage that finds neither an explicit per-call credential nor a
    stored one fails with the error [Missing API Key for ...] before any
    request is sent; no failure of a provider client carries that
    message; and a non-empty per-call credential is the one resolved,
    whatever is stored. *)
Theorem C8_missing_credential (JS : Platform) (PROMPTS : PromptTemplates)
    (W : World) (selection : ModelSelection) (keys : ApiKeys) (s : Stage)
    (tr : Trace) :
  stage_typed s ->
  session_key keys (provider selection) = [] ->
  no_key (getStoredApiKey W (provider selection)) = true ->
  (exists msg,
      fst (run_stage JS PROMPTS W selection keys s tr) = Some (Error msg) /\
      Str.starts_with (lit "Missing API Key for ") msg = true /\
      (forall m d, msg <> google_error_message m d /\
                   msg <> openrouter_error_message m d)) /\
  requests (snd (run_stage JS PROMPTS W selection keys s tr)) = requests tr /\
  (forall client params tr0 e tr1,
      generateContent JS W client params tr0 = (inl e, tr1) ->
      exists detail,
        e = Error (google_error_message (p_model params) detail) \/
        e = Error (openrouter_error_message (p_model params) detail)) /\
  (forall keys',
      Str.truthy (session_key keys' (provider selection)) = true ->
      resolveApiKey W (provider selection) (Some keys')
      = Some (session_key keys' (provider selection))).
Proof.
  intros Ht Hs Hn.
  assert (Hk : no_key (resolveApiKey W (provider selection) (Some keys)) = true).
  { now rewrite RunFacts.resolve_stored. }
  split; [|split; [|split]].
  - destruct s as [c|p c|p a c|o g]; simpl in *.
    + destruct (RunFacts.runAnalyst_no_key JS PROMPTS W selection keys c tr Hk)
        as (tr' & -> & _).
      destruct (RunFacts.missing_key_analyst_shape (provider selection))
        as (t & Hm & Hp).
      eexists. split; [reflexivity|]. split; [exact Hp|].
      eapply RunFacts.not_a_client_message; eauto.
    + destruct (RunFacts.runArchitect_no_key JS PROMPTS W selection keys p c tr
                  Ht Hk) as (tr' & -> & _).
      destruct (RunFacts.missing_key_shape (provider selection))
        as (t & Hm & Hp).
      eexists. split; [reflexivity|]. split; [exact Hp|].
      eapply RunFacts.not_a_client_message; eauto.
    + destruct (RunFacts.runCoder_no_key JS PROMPTS W selection keys p a c tr
                  Ht Hk) as (tr' & -> & _).
      destruct (RunFacts.missing_key_shape (provider selection))
        as (t & Hm & Hp).
      eexists. split; [reflexivity|]. split; [exact Hp|].
      eapply RunFacts.not_a_client_message; eauto.
    + destruct Ht as [Ho Hg].
      destruct (RunFacts.runAuditor_no_key JS PROMPTS W selection keys o g tr
                  Ho Hg Hk) as (tr' & -> & _).
      destruct (RunFacts.missing_key_shape (provider selection))
        as (t & Hm & Hp).
      eexists. split; [reflexivity|]. split; [exact Hp|].
      eapply RunFacts.not_a_client_message; eauto.
  - destruct s as [c|p c|p a c|o g]; simpl in *.
    + now destruct (RunFacts.runAnalyst_no_key JS PROMPTS W selection keys c tr
                      Hk) as (tr' & -> & ?).
    + now destruct (RunFacts.runArchitect_no_key JS PROMPTS W selection keys p
                      c tr Ht Hk) as (tr' & -> & ?).
    + now destruct (RunFacts.runCoder_no_key JS PROMPTS W selection keys p a c
                      tr Ht Hk) as (tr' & -> & ?).
    + destruct Ht as [Ho Hg].
      now destruct (RunFacts.runAuditor_no_key JS PROMPTS W selection keys o g
                      tr Ho Hg Hk) as (tr' & -> & ?).
  - apply RunFacts.generateContent_error.
  - intros keys'. apply RunFacts.resolve_session.
Qed.

(** C8 on a browser with nothing stored and no key entered: the Coder
    stage stops before any request. *)
Lemma C8_missing_credential_witness :
  requests
    (snd (run_stage Fixture.platform Fixture.prompts (Fixture.world (fun _ => []))
            Fixture.flash Fixture.no_keys
            (Coder VNull (lit "plan") [(main_legacy, VStr Fixture.legacy_code)])
            empty_trace))
  = [].
Proof.
  apply (C8_missing_credential Fixture.platform Fixture.prompts
           (Fixture.world (fun _ => [])) Fixture.flash Fixture.no_keys
           (Coder VNull (lit "plan") [(main_legacy, VStr Fixture.legacy_code)])
           empty_trace).
  - repeat constructor. simpl. eauto.
  - reflexivity.
  - vm_compute. reflexivity.
Defined.

(** ** Strict extraction (claims C9 and C4) *)

Module ExtractFacts.
Section ExtractFacts.
Variable JS : Platform.

Lemma get_prop_nullish f k : nullish f = false -> exists v, get_prop f k = inr v.
Proof. destruct f; simpl; try discriminate; eauto. Qed.

Lemma add_file_omitted fileMap f :
  omitted f = true -> add_file JS fileMap f = inr fileMap.
Proof.
  unfold omitted, contributes, add_file. intros H.
  apply andb_true_iff in H as [Hn Hc]. apply negb_true_iff in Hn, Hc.
  destruct (get_prop_nullish f (lit "filename") Hn) as [fn Hfn].
  destruct (get_prop_nullish f (lit "content") Hn) as [c Hcn].
  rewrite Hfn, Hcn in *.
  destruct (ToBoolean fn); [|reflexivity].
  simpl in Hc. now rewrite Hc.
Qed.

Lemma forEach_files_filter files fileMap :
  forEach_files JS files fileMap
  = forEach_files JS (List.filter (fun f => negb (omitted f)) files) fileMap.
Proof.
  revert fileMap. induction files as [|f files IH]; intros fileMap; simpl.
  - reflexivity.
  - destruct (omitted f) eqn:E; simpl.
    + rewrite (add_file_omitted _ _ E). apply IH.
    + destruct (add_file JS fileMap f); [reflexivity | apply IH].
Qed.

Lemma get_assign k key (v c : value) (o : FileMap) :
  Obj.get k (Obj.assign key c o) = Some v ->
  (key = k /\ c = v) \/ Obj.get k o = Some v.
Proof.
  unfold Obj.assign. destruct (decide (key = Obj.proto_key)); [auto|].
  destruct (decide (key = k)) as [->|Hne].
  - rewrite ObjFacts.get_define_eq. intros [= ->]. auto.
  - rewrite ObjFacts.get_define_ne by exact Hne. auto.
Qed.

Lemma add_file_source fileMap f fileMap' k v :
  add_file JS fileMap f = inr fileMap' ->
  Obj.get k fileMap' = Some v ->
  Obj.get k fileMap = Some v \/ source_of JS k v f.
Proof.
  unfold add_file.
  destruct (get_prop f (lit "filename")) as [e|fn] eqn:Hfn; [discriminate|].
  destruct (ToBoolean fn) eqn:Tfn; [|intros [= <-]; auto].
  destruct (get_prop f (lit "content")) as [e|c] eqn:Hc; [discriminate|].
  destruct (ToBoolean c) eqn:Tc; [|intros [= <-]; auto].
  destruct (ToString JS fn) as [e|key] eqn:Hk; [discriminate|].
  intros [= <-] Hget. apply get_assign in Hget as [[-> ->]|Hget]; [|auto].
  right. exists fn. rewrite Hc. auto.
Qed.

Lemma forEach_files_source files fileMap k v :
  Obj.get k (fst (forEach_files JS files fileMap)) = Some v ->
  Obj.get k fileMap = Some v \/ exists f, In f files /\ source_of JS k v f.
Proof.
  revert fileMap. induction files as [|f files IH]; intros fileMap; simpl.
  - auto.
  - destruct (add_file JS fileMap f) as [e|fileMap'] eqn:E; simpl; [auto|].
    intros H. apply IH in H as [H|(g & Hg & Hs)].
    + destruct (add_file_source _ _ _ _ _ E H); eauto.
    + eauto.
Qed.

Lemma strict_extraction_files text fileMap ok caught :
  strict_extraction JS text = (fileMap, ok, caught) ->
  fileMap = [] \/
  exists parsed files,
    JSON_parse JS (cleanLlmOutput text) = inr parsed /\
    get_prop parsed (lit "files") = inr (VArr files) /\
    fileMap = fst (forEach_files JS files []).
Proof.
  unfold strict_extraction.
  destruct (JSON_parse JS (cleanLlmOutput text)) as [m|parsed];
    [intros [= <- _ _]; auto|].
  destruct (get_prop parsed (lit "files")) as [e|files] eqn:Hf;
    [intros [= <- _ _]; auto|].
  destruct files as [| | | | |files|]; try (intros [= <- _ _]; auto).
  destruct (forEach_files JS files []) as [fm [e|]] eqn:E;
    intros [= <- _ _]; right; exists parsed, files; rewrite E; auto.
Qed.

Lemma add_file_valid fileMap f name content :
  valid_file f name content -> name <> Obj.proto_key ->
  add_file JS fileMap f = inr (Obj.define name (VStr content) fileMap).
Proof.
  intros (Hn & Hc & Nn & Nc) Hp. unfold add_file. rewrite Hn, Hc. simpl.
  destruct name; [congruence|]. destruct content; [congruence|]. simpl.
  unfold Obj.assign. now rewrite decide_False by exact Hp.
Qed.

End ExtractFacts.
End ExtractFacts.

(** C9: in strict extraction an entry that can be read and whose
    [filename] or [content] is falsy (missing, empty, ...) leaves the
    file map as it is and raises nothing, so the loop runs as if such
    entries were not in the array; and every entry of the resulting file
    map was put there by an array element whose [filename] and [content]
    are both truthy. *)
Theorem C9_falsy_entries_omitted (JS : Platform) :
  (forall fileMap f,
      nullish f = false -> contributes f = false ->
      add_file JS fileMap f = inr fileMap) /\
  (forall files fileMap,
      forEach_files JS files fileMap
      = forEach_files JS (List.filter (fun f => negb (omitted f)) files)
          fileMap) /\
  (forall text fileMap ok caught k v,
      strict_extraction JS text = (fileMap, ok, caught) ->
      Obj.get k fileMap = Some v ->
      exists parsed files f filename,
        JSON_parse JS (cleanLlmOutput text) = inr parsed /\
        get_prop parsed (lit "files") = inr (VArr files) /\
        In f files /\
        get_prop f (lit "filename") = inr filename /\
        get_prop f (lit "content") = inr v /\
        ToBoolean filename = true /\ ToBoolean v = true /\
        contributes f = true).
Proof.
  split; [|split].
  - intros fileMap f Hn Hc. apply ExtractFacts.add_file_omitted.
    unfold omitted. now rewrite Hn, Hc.
  - apply ExtractFacts.forEach_files_filter.
  - intros text fileMap ok caught k v Hs Hget.
    apply ExtractFacts.strict_extraction_files in Hs
      as [->|(parsed & files & Hp & Hf & ->)]; [discriminate|].
    apply ExtractFacts.forEach_files_source in Hget
      as [Hget|(f & Hin & fn & Hfn & Tfn & Hc & Tc & _)]; [discriminate|].
    exists parsed, files, f, fn. unfold contributes.
    rewrite Hfn, Hc, Tfn, Tc. auto 10.
Qed.

(** C4, as stated, fails when two of the three entries share a name:
    the later one overwrites the earlier one and the file map has two
    entries.  Here the parsed array holds [a.py] twice. *)
Lemma C4_shared_name_two_entries :
  exists f1 f2 f3,
    JSON_parse Fixture.platform (cleanLlmOutput Fixture.duplicate_names)
    = inr (VObj [(lit "files", VArr [f1; f2; f3])]) /\
    valid_file f1 (lit "a.py") (lit "x") /\
    valid_file f2 (lit "a.py") (lit "y") /\
    valid_file f3 (lit "b.py") (lit "z") /\
    strict_extraction Fixture.platform Fixture.duplicate_names
    = ([(lit "a.py", VStr (lit "y")); (lit "b.py", VStr (lit "z"))], true, None).
Proof.
  do 3 eexists. split; [vm_compute; reflexivity|].
  repeat split; try discriminate; vm_compute; reflexivity.
Qed.

(** C4, amended: when the cleaned text parses to an object whose [files]
    array holds three valid entries with pairwise different names, none
    of them [__proto__], strict extraction succeeds with a file map of
    exactly those three entries, the fallback does not run, nothing is
    logged, and the file map is what the stage returns. *)
Theorem C4_strict_three_files (JS : Platform) (W : World) (text : jsstring)
    (parsed f1 f2 f3 : value) (n1 c1 n2 c2 n3 c3 : jsstring) (tr : Trace) :
  JSON_parse JS (cleanLlmOutput text) = inr parsed ->
  get_prop parsed (lit "files") = inr (VArr [f1; f2; f3]) ->
  valid_file f1 n1 c1 -> valid_file f2 n2 c2 -> valid_file f3 n3 c3 ->
  n1 <> n2 -> n1 <> n3 -> n2 <> n3 ->
  n1 <> Obj.proto_key -> n2 <> Obj.proto_key -> n3 <> Obj.proto_key ->
  exists fileMap,
    strict_extraction JS text = (fileMap, true, None) /\
    fallback_runs true fileMap = false /\
    extract_files JS W text tr = (inr fileMap, tr) /\
    length fileMap = 3%nat /\
    Obj.get n1 fileMap = Some (VStr c1) /\
    Obj.get n2 fileMap = Some (VStr c2) /\
    Obj.get n3 fileMap = Some (VStr c3).
Proof.
  intros Hp Hf V1 V2 V3 N12 N13 N23 P1 P2 P3.
  set (m1 := Obj.define n1 (VStr c1) ([] : FileMap)).
  set (m2 := Obj.define n2 (VStr c2) m1).
  set (m3 := Obj.define n3 (VStr c3) m2).
  assert (Hs : strict_extraction JS text = (m3, true, None)).
  { unfold strict_extraction. rewrite Hp, Hf. simpl.
    rewrite (ExtractFacts.add_file_valid JS _ _ _ _ V1 P1).
    rewrite (ExtractFacts.add_file_valid JS _ _ _ _ V2 P2).
    rewrite (ExtractFacts.add_file_valid JS _ _ _ _ V3 P3).
    reflexivity. }
  assert (G1 : Obj.get n1 m3 = Some (VStr c1)).
  { unfold m3, m2, m1.
    rewrite !ObjFacts.get_define_ne by congruence.
    apply ObjFacts.get_define_eq. }
  assert (G2 : Obj.get n2 m3 = Some (VStr c2)).
  { unfold m3, m2.
    rewrite ObjFacts.get_define_ne by congruence.
    apply ObjFacts.get_define_eq. }
  assert (G3 : Obj.get n3 m3 = Some (VStr c3)).
  { apply ObjFacts.get_define_eq. }
  assert (L : length m3 = 3%nat).
  { unfold m3. rewrite ObjFacts.length_define.
    assert (E2 : Obj.get n3 m2 = None).
    { unfold m2, m1. rewrite !ObjFacts.get_define_ne by congruence.
      reflexivity. }
    rewrite E2. unfold m2. rewrite ObjFacts.length_define.
    assert (E1 : Obj.get n2 m1 = None).
    { unfold m1. rewrite ObjFacts.get_define_ne by congruence. reflexivity. }
    rewrite E1. unfold m1. rewrite ObjFacts.length_define. reflexivity. }
  exists m3. repeat split; auto.
  - unfold fallback_runs. now rewrite L.
  - unfold extract_files. rewrite Hs. run.
    unfold fallback_runs. rewrite L. cbn [negb orb Nat.eqb].
    rewrite L. reflexivity.
Qed.

(** C4 on a response with three files. *)
Lemma C4_strict_three_files_witness :
  exists fileMap,
    strict_extraction Fixture.platform Fixture.three_files
    = (fileMap, true, None) /\
    fallback_runs true fileMap = false /\
    extract_files Fixture.platform (Fixture.world (fun _ => []))
      Fixture.three_files empty_trace = (inr fileMap, empty_trace) /\
    length fileMap = 3%nat /\
    Obj.get (lit "a.py") fileMap = Some (VStr (lit "x")) /\
    Obj.get (lit "b.py") fileMap = Some (VStr (lit "y")) /\
    Obj.get (lit "c.py") fileMap = Some (VStr (lit "z")).
Proof.
  apply (C4_strict_three_files Fixture.platform (Fixture.world (fun _ => []))
           Fixture.three_files
           (VObj [(lit "files",
                   VArr [Fixture.file_value "a.py" "x";
                         Fixture.file_value "b.py" "y";
                         Fixture.file_value "c.py" "z"])])
           (Fixture.file_value "a.py" "x") (Fixture.file_value "b.py" "y")
           (Fixture.file_value "c.py" "z"));
    try (vm_compute; reflexivity);
    try (repeat split; try discriminate; vm_compute; reflexivity);
    vm_compute; discriminate.
Defined.

(** ** Provider answers *)

Module AnswerFacts.
Section AnswerFacts.
Variable JS : Platform.
Variable PROMPTS : PromptTemplates.
Variable W : World.

Lemma or_else_nil s : Str.or_else s [] = s.
Proof. now destruct s. Qed.

Lemma createLlmClient_key p apiKey tr :
  no_key apiKey = false ->
  exists client, createLlmClient W p apiKey tr = (inr client, tr).
Proof.
  unfold no_key, createLlmClient, first_truthy. intros H.
  destruct (keep_truthy apiKey); [|discriminate].
  destruct p; eexists; reflexivity.
Qed.

Lemma createLlmClient_provider p apiKey client tr tr' :
  createLlmClient W p apiKey tr = (inr client, tr') ->
  match p, client with
  | google, GoogleLlmClient _ | openrouter, OpenRouterLlmClient _ => True
  | _, _ => False
  end.
Proof.
  unfold createLlmClient. destruct p;
    destruct (first_truthy _ _); run; intros [= <- _]; exact I.
Qed.

(** A provider that answers: the client returns the text and has sent
    one request. *)
Lemma generateContent_answers p apiKey client params text tr tr0 :
  createLlmClient W p apiKey tr0 = (inr client, tr0) ->
  answers W p (length (requests tr)) text ->
  exists u call,
    generateContent JS W client params tr
    = (inr {| text := text; usage := u |}, sent call tr).
Proof.
  intros Hc Ha. apply createLlmClient_provider in Hc.
  destruct p, client as [k|k]; try contradiction; simpl in *.
  - unfold Google_generateContent. run.
    match goal with
    | |- context [google_sdk W ?n ?k ?r] =>
        destruct (Ha k r) as (resp & -> & <-)
    end.
    do 2 eexists. reflexivity.
  - unfold OpenRouter_generateContent. run.
    match goal with
    | |- context [openrouter_sdk W ?n ?k ?r] =>
        destruct (Ha k r) as (c & -> & Ht)
    end.
    unfold completion_text in Ht.
    destruct (choices c) as [|choice rest]; [discriminate|].
    injection Ht as <-. do 2 eexists. reflexivity.
Qed.

(** The Coder, up to the extraction, when its provider answers. *)
Lemma runCoder_answers selection keys plan arch ctx text tr :
  all_strings ctx ->
  no_key (resolveApiKey W (provider selection) (Some keys)) = false ->
  answers W (provider selection) (length (requests tr)) text ->
  exists tr1,
    runCoder JS PROMPTS W selection keys plan arch ctx tr
    = extract_files JS W text tr1 /\
    length (requests tr1) = S (length (requests tr)).
Proof.
  intros Hc Hk Ha. unfold runCoder.
  destruct (RunFacts.render_context JS ctx Hc) as [contextStr ->].
  run. rewrite Hk.
  match goal with
  | |- context [createLlmClient W ?p ?k ?t] =>
      destruct (createLlmClient_key p k t Hk) as [client Hcl]; rewrite Hcl
  end.
  match goal with
  | |- context [generateContent JS W client ?ps ?t] =>
      destruct (generateContent_answers _ _ client ps text t _ Hcl Ha)
        as (u & call & ->)
  end.
  run. rewrite or_else_nil.
  eexists. split; [reflexivity|]. simpl. rewrite length_app. simpl. lia.
Qed.

(** The Analyst, when its provider answers with text that parses. *)
Lemma runAnalyst_answers selection keys code text plan tr :
  no_key (resolveApiKey W (provider selection) (Some keys)) = false ->
  answers W (provider selection) (length (requests tr)) text ->
  JSON_parse JS (cleanLlmOutput (Str.or_else text (lit "{}"))) = inr plan ->
  exists tr1,
    runAnalyst JS PROMPTS W selection keys code tr = (inr plan, tr1) /\
    same_steps tr tr1 /\ same_errors tr tr1.
Proof.
  intros Hk Ha Hp. unfold runAnalyst. run. rewrite Hk.
  match goal with
  | |- context [createLlmClient W ?p ?k ?t] =>
      destruct (createLlmClient_key p k t Hk) as [client Hcl]; rewrite Hcl
  end.
  match goal with
  | |- context [generateContent JS W client ?ps ?t] =>
      destruct (generateContent_answers _ _ client ps text t _ Hcl Ha)
        as (u & call & ->)
  end.
  run. rewrite Hp. run.
  eexists. split; [reflexivity|]. split; [reflexivity|].
  unfold same_errors. simpl. rewrite !error_entries_app. simpl.
  now rewrite !app_nil_r.
Qed.

End AnswerFacts.
End AnswerFacts.

(** ** Extraction failure (claim C5) *)

(** C5: when the Coder's provider answers with a text on which strict
    extraction leaves the file map empty and the fallback pattern
    matches nowhere, the stage raises the error [Coder failed to generate
    files...] and returns no file map; the stage has sent exactly one
    request. *)
Theorem C5_extraction_error (JS : Platform) (PROMPTS : PromptTemplates)
    (W : World) (selection : ModelSelection) (keys : ApiKeys) (plan : value)
    (arch : jsstring) (ctx : FileMap) (text : jsstring) (tr : Trace) :
  all_strings ctx ->
  no_key (resolveApiKey W (provider selection) (Some keys)) = false ->
  answers W (provider selection) (length (requests tr)) text ->
  fst (fst (strict_extraction JS text)) = [] ->
  exec_all O text = [] ->
  exists tr',
    runCoder JS PROMPTS W selection keys plan arch ctx tr
    = (inl (Error coder_failed), tr') /\
    length (requests tr') = S (length (requests tr)).
Proof.
  intros Hc Hk Ha Hs Hx.
  destruct (AnswerFacts.runCoder_answers JS PROMPTS W selection keys plan arch
              ctx text tr Hc Hk Ha) as (tr1 & -> & Hr).
  pose proof (extract_files_requests JS W text tr1) as Hq.
  unfold same_requests in Hq.
  assert (He : fst (extract_files JS W text tr1) = inl (Error coder_failed)).
  { unfold extract_files, regex_fallback.
    destruct (strict_extraction JS text) as [[fileMap ok] caught].
    simpl in Hs. subst fileMap. rewrite Hx.
    unfold fallback_runs. rewrite orb_true_r.
    destruct caught; run; reflexivity. }
  destruct (extract_files JS W text tr1) as [r tr'] eqn:E. simpl in *.
  subst r. exists tr'. split; [reflexivity|]. congruence.
Qed.

(** C5 on a response without any file. *)
Lemma C5_extraction_error_witness :
  exists tr',
    runCoder Fixture.platform Fixture.prompts
      (Fixture.world (fun _ => lit "Sorry, I cannot help with that."))
      Fixture.flash Fixture.keys VNull (lit "plan")
      [(main_legacy, VStr Fixture.legacy_code)] empty_trace
    = (inl (Error coder_failed), tr') /\
    length (requests tr') = 1%nat.
Proof.
  apply (C5_extraction_error Fixture.platform Fixture.prompts
           (Fixture.world (fun _ => lit "Sorry, I cannot help with that."))
           Fixture.flash Fixture.keys VNull (lit "plan")
           [(main_legacy, VStr Fixture.legacy_code)]
           (lit "Sorry, I cannot help with that.") empty_trace).
  - repeat constructor. simpl. eauto.
  - vm_compute. reflexivity.
  - simpl. intros key req. eexists. split; reflexivity.
  - vm_compute. reflexivity.
  - vm_compute. reflexivity.
Defined.

(** ** An empty Analyst response (claim C10) *)



(** ** Failure reporting by the orchestrator (claim C1) *)

(** From [Keeps I m] and a run [m tr = (r, tr')]: [I tr tr']. *)
Ltac keeps_of lemma E name :=
  pose proof lemma as name; unfold Keeps in name;
  match type of E with
  | ?m ?t = _ => specialize (name t)
  end;
  rewrite E in name;
  unfold same_steps, same_errors, same_requests in name;
  cbn [logs steps requests console ticks fst snd] in name.

Module FailureFacts.
Section FailureFacts.
Variable JS : Platform.
Variable PROMPTS : PromptTemplates.
Variable W : World.

(** The [catch] block of both entry points. *)
Lemma handler_failure {A} (body : M A) label tr e tr' :
  try_catch body
    (fun error => console_error label error;; onProgress ERROR;; throw error) tr
  = (inl e, tr') ->
  exists tb,
    body tr = (inl e, tb) /\
    steps tr' = steps tb ++ [ERROR] /\
    console tr' = console tb ++ [(label, e)] /\
    logs tr' = logs tb /\ requests tr' = requests tb.
Proof.
  unfold try_catch. destruct (body tr) as [[e0|x] tb]; [|discriminate].
  run. intros [= <- <-]. exists tb. auto.
Qed.

Lemma get_prop_error v k e : get_prop v k = inl e -> e = TypeError k.
Proof. destruct v; simpl; congruence. Qed.

Lemma greater_than_zero_error v e :
  greater_than_zero JS v = inl e -> exists w, e = TypeError w.
Proof.
  destruct v; simpl; try discriminate;
    destruct (Object_toNumber JS _); intros [= <-]; eauto.
Qed.

Lemma length_positive_error v e :
  length_positive JS v = inl e -> exists w, e = TypeError w.
Proof.
  destruct v; simpl; try discriminate; try (intros [= <-]; eauto).
  destruct (Obj.get _ _); [apply greater_than_zero_error | discriminate].
Qed.

Lemma not_parse_failure msg c t :
  msg = c :: t -> c <> 65 -> Error msg <> Error analyst_invalid_json.
Proof.
  intros -> Hc H.
  assert (Ha : exists rest, analyst_invalid_json = 65 :: rest)
    by (eexists; reflexivity).
  destruct Ha as [rest Ha]. rewrite Ha in H. congruence.
Qed.

Lemma client_error_not_parse_failure client params tr e tr' :
  generateContent JS W client params tr = (inl e, tr') ->
  e <> Error analyst_invalid_json.
Proof.
  intros H. apply RunFacts.generateContent_error in H as [d [->| ->]].
  - destruct (RunFacts.google_error_head (p_model params) d) as [t Ht].
    eapply not_parse_failure; [exact Ht | discriminate].
  - destruct (RunFacts.openrouter_error_head (p_model params) d) as [t Ht].
    eapply not_parse_failure; [exact Ht | discriminate].
Qed.

Lemma createLlmClient_error p k tr e tr' :
  createLlmClient W p k tr = (inl e, tr') -> e <> Error analyst_invalid_json.
Proof.
  unfold createLlmClient.
  destruct p; destruct (first_truthy _ _); run; intros [= <- _];
    vm_compute; discriminate.
Qed.

Lemma missing_key_analyst_not_parse_failure p :
  Error (missing_key_analyst p) <> Error analyst_invalid_json.
Proof. destruct p; vm_compute; discriminate. Qed.

(** What the Analyst adds to the [error]-kind entries: one entry, its
    own, exactly when its response does not parse. *)
Lemma runAnalyst_outcome selection keys code tr r tr1 :
  runAnalyst JS PROMPTS W selection keys code tr = (r, tr1) ->
  exists added,
    error_entries (logs tr1) = error_entries (logs tr) ++ added /\
    ((r = inl (Error analyst_invalid_json) /\
      exists entry, added = [entry] /\ step entry = ANALYST /\
                    entry_type entry = Kind.error)
     \/ (r <> inl (Error analyst_invalid_json) /\ added = [])).
Proof.
  unfold runAnalyst. run.
  destruct (no_key _).
  { run. intros [= <- <-]. exists []. simpl.
    rewrite error_entries_app, !app_nil_r. split; [reflexivity|]. right.
    split; [|reflexivity]. intros H.
    apply (missing_key_analyst_not_parse_failure (provider selection)).
    congruence. }
  match goal with
  | |- context [createLlmClient W ?p ?k ?t] =>
      destruct (createLlmClient W p k t) as [[e|client] t1] eqn:Ec
  end; run.
  all: pose proof (createLlmClient_keeps W same_errors (provider selection)
                     (resolveApiKey W (provider selection) (Some keys)))
         as Ht1;
    match type of Ec with
    | createLlmClient _ _ _ ?t = _ => specialize (Ht1 t)
    end;
    rewrite Ec in Ht1; unfold same_errors in Ht1; simpl in Ht1;
    rewrite error_entries_app in Ht1; simpl in Ht1;
    rewrite app_nil_r in Ht1.
  { intros [= <- <-]. exists []. rewrite app_nil_r.
    split; [exact Ht1|]. right.
    split; [|reflexivity]. intros H.
    apply (createLlmClient_error _ _ _ _ _ Ec). congruence. }
  match goal with
  | |- context [generateContent JS W client ?ps ?t] =>
      destruct (generateContent JS W client ps t) as [[e|response] t2] eqn:Eg
  end; run.
  all: pose proof (generateContent_errors JS W client) as Ht2;
    match type of Eg with
    | generateContent _ _ _ ?ps ?t = _ => specialize (Ht2 ps t)
    end;
    rewrite Eg in Ht2; unfold same_errors in Ht2; simpl in Ht2;
    rewrite Ht1 in Ht2.
  { intros [= <- <-]. exists []. rewrite app_nil_r.
    split; [exact Ht2|]. right.
    split; [|reflexivity]. intros H.
    apply (client_error_not_parse_failure _ _ _ _ _ Eg). congruence. }
  destruct (JSON_parse JS _) as [message|plan]; run; intros [= <- <-].
  - eexists [_]. simpl. rewrite !error_entries_app, Ht2. simpl.
    rewrite app_nil_r. split; [reflexivity|]. left.
    split; [reflexivity|]. eexists. split; [reflexivity|]. auto.
  - exists []. simpl. rewrite error_entries_app, Ht2. simpl.
    rewrite !app_nil_r. split; [reflexivity|]. right.
    split; [discriminate | reflexivity].
Qed.

Lemma completeMigration_errors plan ctx config keys :
  Keeps same_errors (completeMigration JS PROMPTS W plan ctx config keys).
Proof. unfold completeMigration. frame. Qed.

(** Where the error caught by [startAnalysis] comes from. *)
Lemma startAnalysis_failure code config keys tr e tr' :
  startAnalysis JS PROMPTS W code config keys tr = (inl e, tr') ->
  steps tr' = steps tr ++ [ANALYST; ERROR] /\
  (exists earlier, console tr' = earlier ++ [(lit "Analysis Failed:", e)]) /\
  ((exists tr1,
       runAnalyst JS PROMPTS W (cfg_ANALYST config) keys code
         (snd (onProgress ANALYST tr)) = (inl e, tr1) /\
       logs tr' = logs tr1)
   \/ (exists plan tr1 w,
         runAnalyst JS PROMPTS W (cfg_ANALYST config) keys code
           (snd (onProgress ANALYST tr)) = (inr plan, tr1) /\
         logs tr' = logs tr1 /\ e = TypeError w)).
Proof.
  unfold startAnalysis. intros H.
  apply handler_failure in H as (tb & Hb & Hs & Hc & Hl & _).
  revert Hb. run.
  destruct (runAnalyst JS PROMPTS W (cfg_ANALYST config) keys code _)
    as [[e1|plan] tr1] eqn:Er; run.
  - intros [= -> ->].
    keeps_of (runAnalyst_steps JS PROMPTS W (cfg_ANALYST config) keys code)
      Er Hk.
    unfold same_steps in Hk. simpl in Hk.
    rewrite Hs, Hk, <- app_assoc. repeat split; eauto.
  - keeps_of (runAnalyst_steps JS PROMPTS W (cfg_ANALYST config) keys code)
      Er Hk.
    unfold same_steps in Hk. simpl in Hk.
    destruct (get_prop plan (lit "required_files")) as [e1|rf] eqn:Eg; run.
    + intros [= -> ->]. apply get_prop_error in Eg.
      rewrite Hs, Hk, <- app_assoc. repeat split; eauto.
      try (right; exists plan, tb, (lit "required_files"); auto).
    + destruct (ToBoolean rf); run; [|discriminate].
      destruct (length_positive JS rf) as [e1|b] eqn:El; run; [|discriminate].
      intros [= -> ->]. apply length_positive_error in El as [w ->].
      rewrite Hs, Hk, <- app_assoc. repeat split; eauto.
      try (right; exists plan, tb, w; auto).
Qed.

(** Where the error caught by [completeMigration] comes from. *)
Lemma completeMigration_failure plan ctx config keys tr e tr' :
  completeMigration JS PROMPTS W plan ctx config keys tr = (inl e, tr') ->
  List.last (steps tr') IDLE = ERROR /\
  (exists earlier,
      console tr' = earlier ++ [(lit "Migration Completion Failed:", e)]) /\
  ((exists selection s tr0,
       fst (run_stage JS PROMPTS W selection keys s tr0) = Some e)
   \/ (exists w, e = TypeError w)).
Proof.
  unfold completeMigration. intros H.
  apply handler_failure in H as (tb & Hb & Hs & Hc & Hl & _).
  split; [rewrite Hs; apply last_last|]. split; [eauto|].
  revert Hb. run.
  match goal with
  | |- context [runArchitect JS PROMPTS W ?s ?k ?p ?c ?t] =>
      destruct (runArchitect JS PROMPTS W s k p c t) as [[e1|arch] t1] eqn:E1
  end; run.
  { intros [= -> _]. left.
    eexists _, (Architect plan ctx), _. simpl. rewrite E1. reflexivity. }
  match goal with
  | |- context [runCoder JS PROMPTS W ?s ?k ?p ?a ?c ?t] =>
      destruct (runCoder JS PROMPTS W s k p a c t) as [[e2|files] t2] eqn:E2
  end; run.
  { intros [= -> _]. left.
    eexists _, (Coder plan arch ctx), _. simpl. rewrite E2. reflexivity. }
  match goal with
  | |- context [runAuditor JS PROMPTS W ?s ?k ?o ?g ?t] =>
      destruct (runAuditor JS PROMPTS W s k o g t) as [[e3|audit] t3] eqn:E3
  end; run.
  { intros [= -> _]. left.
    eexists _, (Auditor ctx files), _. simpl. rewrite E3. reflexivity. }
  destruct (get_prop audit (lit "security_issues")) as [e4|si] eqn:E4; run.
  { intros [= -> _]. right. apply get_prop_error in E4. eauto. }
  destruct (get_prop audit (lit "comments")) as [e5|cm] eqn:E5; run.
  { intros [= -> _]. right. apply get_prop_error in E5. eauto. }
  discriminate.
Qed.

(** The [catch] block hands on the error it received. *)
Lemma handler_caught {A} (body : M A) label tr e tr' :
  try_catch body
    (fun error => console_error label error;; onProgress ERROR;; throw error) tr
  = (inl e, tr') ->
  exists tb, body tr = (inl e, tb) /\ tr' = after_catch label e tb.
Proof.
  unfold try_catch. destruct (body tr) as [[e0|x] tb]; [|discriminate].
  run. intros [= <- <-]. exists tb. split; reflexivity.
Qed.

Lemma get_prop_readable v k k' x :
  get_prop v k = inr x -> exists y, get_prop v k' = inr y.
Proof. destruct v; simpl; intros H; try discriminate; eauto. Qed.

(** The error [startAnalysis] raises is the one its [try] block raised. *)
Lemma startAnalysis_raises code config keys tr e tr' :
  startAnalysis JS PROMPTS W code config keys tr = (inl e, tr') ->
  exists t,
    try_raises JS PROMPTS W (Start code config keys) tr e t /\
    tr' = after_catch (lit "Analysis Failed:") e t.
Proof.
  unfold startAnalysis. intros H.
  apply handler_caught in H as (tb & Hb & ->).
  exists tb. split; [|reflexivity].
  revert Hb. run.
  destruct (runAnalyst JS PROMPTS W (cfg_ANALYST config) keys code _)
    as [[e1|plan] tr1] eqn:Er; run.
  - intros [= -> ->]. now apply analyst_raised.
  - destruct (get_prop plan (lit "required_files")) as [e1|rf] eqn:Eg; run.
    + intros [= -> ->]. eapply plan_unreadable; [exact Er | left; exact Eg].
    + destruct (ToBoolean rf) eqn:Eb; run; [|discriminate].
      destruct (length_positive JS rf) as [e1|b] eqn:El; run; [|discriminate].
      intros [= -> ->]. eapply plan_unreadable; [exact Er | right; eauto].
Qed.

(** The error [completeMigration] raises is the one its [try] block
    raised. *)
Lemma completeMigration_raises plan ctx config keys tr e tr' :
  completeMigration JS PROMPTS W plan ctx config keys tr = (inl e, tr') ->
  exists t,
    try_raises JS PROMPTS W (Resume plan ctx config keys) tr e t /\
    tr' = after_catch (lit "Migration Completion Failed:") e t.
Proof.
  unfold completeMigration. intros H.
  apply handler_caught in H as (tb & Hb & ->).
  exists tb. split; [|reflexivity].
  revert Hb. run.
  match goal with
  | |- context [runArchitect JS PROMPTS W ?s ?k ?p ?c ?t] =>
      destruct (runArchitect JS PROMPTS W s k p c t) as [[e1|arch] t1] eqn:E1
  end; run.
  { intros [= -> ->]. now apply architect_raised. }
  match goal with
  | |- context [runCoder JS PROMPTS W ?s ?k ?p ?a ?c ?t] =>
      destruct (runCoder JS PROMPTS W s k p a c t) as [[e2|files] t2] eqn:E2
  end; run.
  { intros [= -> ->]. eapply coder_raised; eauto. }
  match goal with
  | |- context [runAuditor JS PROMPTS W ?s ?k ?o ?g ?t] =>
      destruct (runAuditor JS PROMPTS W s k o g t) as [[e3|audit] t3] eqn:E3
  end; run.
  { intros [= -> ->]. eapply auditor_raised; eauto. }
  destruct (get_prop audit (lit "security_issues")) as [e4|si] eqn:E4; run.
  { intros [= -> <-]. eapply audit_unreadable; eauto. }
  destruct (get_prop_readable _ _ (lit "comments") _ E4) as [y Hy].
  rewrite Hy. run. discriminate.
Qed.

End FailureFacts.
End FailureFacts.




(** ** The pause and resume protocol (claims C2 and C3) *)

#[global] Instance logs_extend_inv : Invariant logs_extend.
Proof.
  split.
  - intros tr. exists []. now rewrite app_nil_r.
  - intros a b c [l Hl] [l' Hl']. exists (l ++ l').
    now rewrite Hl', Hl, app_assoc.
Qed.

Section Resume.
Variable JS : Platform.
Variable PROMPTS : PromptTemplates.
Variable W : World.

Lemma Date_now_logs : Keeps logs_extend (Date_now W).
Proof. intros tr. exists []. simpl. now rewrite app_nil_r. Qed.
Lemma onLog_logs e : Keeps logs_extend (onLog e).
Proof. intros tr. now exists [e]. Qed.
Lemma onProgress_logs s : Keeps logs_extend (onProgress s).
Proof. intros tr. exists []. simpl. now rewrite app_nil_r. Qed.
Lemma console_error_logs l e : Keeps logs_extend (console_error l e).
Proof. intros tr. exists []. simpl. now rewrite app_nil_r. Qed.
Lemma google_call_logs k r : Keeps logs_extend (google_call W k r).
Proof.
  intros tr. unfold google_call.
  destruct (google_sdk _ _ _ _); exists []; simpl; now rewrite app_nil_r.
Qed.
Lemma openrouter_call_logs k r : Keeps logs_extend (openrouter_call W k r).
Proof.
  intros tr. unfold openrouter_call.
  destruct (openrouter_sdk _ _ _ _); exists []; simpl; now rewrite app_nil_r.
Qed.
Lemma createLog_logs step type content d t :
  Keeps logs_extend (createLog W step type content d t).
Proof. intros tr. exists []. simpl. now rewrite app_nil_r. Qed.

Hint Resolve Date_now_logs onLog_logs onProgress_logs console_error_logs
  google_call_logs openrouter_call_logs createLog_logs : frame.

Lemma generateContent_logs c p : Keeps logs_extend (generateContent JS W c p).
Proof.
  unfold generateContent, Google_generateContent, OpenRouter_generateContent.
  frame.
Qed.

Hint Resolve generateContent_logs : frame.
Hint Extern 1 (Keeps _ (createLlmClient _ _ _)) =>
  apply createLlmClient_keeps; typeclasses eauto : frame.

Lemma runCoder_logs s k p a c :
  Keeps logs_extend (runCoder JS PROMPTS W s k p a c).
Proof. unfold runCoder, extract_files. frame. Qed.

Lemma runAuditor_logs s k o g :
  Keeps logs_extend (runAuditor JS PROMPTS W s k o g).
Proof. unfold runAuditor. frame. Qed.

(** The first thing the Architect does with a well-typed file map is to
    log the prompt built from the Plan and the rendered map. *)
Lemma runArchitect_prompt selection keys plan ctx tr :
  all_strings ctx ->
  exists contextStr entry rest,
    render (context_line JS) ctx = inr contextStr /\
    logs (snd (runArchitect JS PROMPTS W selection keys plan ctx tr))
    = logs tr ++ entry :: rest /\
    step entry = ARCHITECT /\ entry_type entry = Kind.prompt /\
    content entry
    = using_provider selection (PROMPTS_ARCHITECT PROMPTS plan contextStr).
Proof.
  intros Hc. destruct (RunFacts.render_context JS ctx Hc) as [contextStr Hr].
  exists contextStr. unfold runArchitect. rewrite Hr. run.
  destruct (no_key _); run.
  { do 2 eexists. split; [reflexivity|]. split; [reflexivity | auto]. }
  match goal with
  | |- context [createLlmClient W ?p ?k ?t] =>
      destruct (createLlmClient W p k t) as [[e|client] t1] eqn:Ec
  end; run.
  all: keeps_of (createLlmClient_keeps W logs_extend (provider selection)
                   (resolveApiKey W (provider selection) (Some keys))) Ec H1;
    destruct H1 as [l1 H1]; cbn [logs] in H1.
  { do 2 eexists. split; [reflexivity|].
    split; [rewrite H1, <- app_assoc; reflexivity | auto]. }
  match goal with
  | |- context [generateContent JS W client ?ps ?t] =>
      destruct (generateContent JS W client ps t) as [[e|response] t2] eqn:Eg
  end; run.
  all: match type of Eg with
       | generateContent _ _ _ ?ps _ = _ =>
           keeps_of (generateContent_logs client ps) Eg H2
       end;
    destruct H2 as [l2 H2]; cbn [logs] in H2.
  - do 2 eexists. split; [reflexivity|].
    split; [rewrite H2, H1, <- !app_assoc; reflexivity | auto].
  - do 2 eexists. split; [reflexivity|].
    split; [rewrite H2, H1, <- !app_assoc; reflexivity | auto].
Qed.

(** The steps [completeMigration] reports: [ARCHITECT] first, never
    [WAITING_FOR_USER]. *)
Lemma completeMigration_steps plan ctx config keys tr :
  exists l,
    steps (snd (completeMigration JS PROMPTS W plan ctx config keys tr))
    = steps tr ++ ARCHITECT :: l /\
    ~ In WAITING_FOR_USER l.
Proof.
  unfold completeMigration. run.
  match goal with
  | |- context [runArchitect JS PROMPTS W ?s ?k ?p ?c ?t] =>
      destruct (runArchitect JS PROMPTS W s k p c t) as [[e1|arch] t1] eqn:E1
  end; run.
  all: keeps_of (runArchitect_steps JS PROMPTS W (cfg_ARCHITECT config) keys
                   plan ctx) E1 H1; unfold same_steps in H1.
  { rewrite H1, <- app_assoc. eexists. split; [reflexivity|].
    simpl. intuition discriminate. }
  match goal with
  | |- context [runCoder JS PROMPTS W ?s ?k ?p ?a ?c ?t] =>
      destruct (runCoder JS PROMPTS W s k p a c t) as [[e2|files] t2] eqn:E2
  end; run.
  all: keeps_of (runCoder_steps JS PROMPTS W (cfg_CODER config) keys plan arch
                   ctx) E2 H2; unfold same_steps in H2; simpl in H2.
  { rewrite H2, H1, <- !app_assoc. eexists. split; [reflexivity|].
    simpl. intuition discriminate. }
  match goal with
  | |- context [runAuditor JS PROMPTS W ?s ?k ?o ?g ?t] =>
      destruct (runAuditor JS PROMPTS W s k o g t) as [[e3|audit] t3] eqn:E3
  end; run.
  all: keeps_of (runAuditor_steps JS PROMPTS W (cfg_AUDITOR config) keys ctx
                   files) E3 H3; unfold same_steps in H3; simpl in H3.
  { rewrite H3, H2, H1, <- !app_assoc. eexists. split; [reflexivity|].
    simpl. intuition discriminate. }
  destruct (get_prop audit (lit "security_issues")); run;
    [|destruct (get_prop audit (lit "comments")); run];
    rewrite H3, H2, H1, <- !app_assoc; eexists; (split; [reflexivity|]);
    simpl; intuition discriminate.
Qed.

(** The log [completeMigration] writes to a well-typed file map begins
    with the Architect's prompt. *)
Lemma completeMigration_prompt plan ctx config keys tr :
  all_strings ctx ->
  exists contextStr entry rest,
    render (context_line JS) ctx = inr contextStr /\
    logs (snd (completeMigration JS PROMPTS W plan ctx config keys tr))
    = logs tr ++ entry :: rest /\
    step entry = ARCHITECT /\ entry_type entry = Kind.prompt /\
    content entry
    = using_provider (cfg_ARCHITECT config)
        (PROMPTS_ARCHITECT PROMPTS plan contextStr).
Proof.
  intros Hc.
  destruct (runArchitect_prompt (cfg_ARCHITECT config) keys plan ctx
              (snd (onProgress ARCHITECT tr)) Hc)
    as (contextStr & entry & rest & Hr & Hl & Hs & Ht & Hcn).
  exists contextStr, entry. revert Hl.
  unfold completeMigration. run.
  match goal with
  | |- context [runArchitect JS PROMPTS W ?s ?k ?p ?c ?t] =>
      destruct (runArchitect JS PROMPTS W s k p c t) as [[e1|arch] t1] eqn:E1
  end; run; intros H1.
  { exists rest. auto. }
  match goal with
  | |- context [runCoder JS PROMPTS W ?s ?k ?p ?a ?c ?t] =>
      destruct (runCoder JS PROMPTS W s k p a c t) as [[e2|files] t2] eqn:E2
  end; run.
  all: keeps_of (runCoder_logs (cfg_CODER config) keys plan arch ctx) E2 H2;
    destruct H2 as [l2 H2]; cbn [logs] in H2.
  { exists (rest ++ l2). rewrite H2, H1, <- app_assoc. auto. }
  match goal with
  | |- context [runAuditor JS PROMPTS W ?s ?k ?o ?g ?t] =>
      destruct (runAuditor JS PROMPTS W s k o g t) as [[e3|audit] t3] eqn:E3
  end; run.
  all: keeps_of (runAuditor_logs (cfg_AUDITOR config) keys ctx files) E3 H3;
    destruct H3 as [l3 H3]; cbn [logs] in H3.
  { exists ((rest ++ l2) ++ l3). rewrite H3, H2, H1, <- !app_assoc. auto. }
  destruct (get_prop audit (lit "security_issues")); run;
    [|destruct (get_prop audit (lit "comments")); run];
    exists ((rest ++ l2) ++ l3); rewrite H3, H2, H1, <- !app_assoc; auto.
Qed.

(** [completeMigration] hands the Plan through. *)
Lemma completeMigration_plan p ctx config keys tr r tr' :
  completeMigration JS PROMPTS W p ctx config keys tr = (inr r, tr') ->
  plan r = p /\ result_modelConfig r = config.
Proof.
  unfold completeMigration. run.
  repeat match goal with
         | |- context [match ?x with _ => _ end] =>
             match x with
             | runArchitect _ _ _ _ _ _ _ _ => destruct x as [[?|?] ?]
             | runCoder _ _ _ _ _ _ _ _ _ => destruct x as [[?|?] ?]
             | runAuditor _ _ _ _ _ _ _ _ => destruct x as [[?|?] ?]
             | get_prop _ _ => destruct x
             end; run
         end; try discriminate.
  intros [= <- _]. auto.
Qed.

(** What [startAnalysis] returns when the Analyst produced a Plan whose
    [required_files] is a list. *)
Lemma startAnalysis_plan code config keys tr plan files tr1 :
  runAnalyst JS PROMPTS W (cfg_ANALYST config) keys code
    (snd (onProgress ANALYST tr)) = (inr plan, tr1) ->
  get_prop plan (lit "required_files") = inr (VArr files) ->
  startAnalysis JS PROMPTS W code config keys tr
  = (inr (plan, VBool (negb (Nat.eqb (length files) O))), tr1).
Proof.
  intros Hr Hg. unfold startAnalysis. run. rewrite Hr. run. rewrite Hg. run.
  reflexivity.
Qed.

End Resume.

(** C2: when the Analyst produced a Plan whose [required_files] is a
    list, [startAnalysis] returns [needsFiles] true exactly when the list
    is non-empty, and the steps [handleStartAnalysis] reports after
    [ANALYST] contain [WAITING_FOR_USER] exactly then: with a non-empty
    list the next and last step is [WAITING_FOR_USER]; with an empty
    list the next step is [ARCHITECT]. *)
Theorem C2_waiting_iff_required_files (JS : Platform)
    (PROMPTS : PromptTemplates) (W : World) (st : AppState) (tr : Trace)
    (config : ModelConfig) (plan : value) (files : list value) (tr1 : Trace) :
  Str.truthy (Str.trim (inputCode st)) = true ->
  modelConfig st = Some config ->
  runAnalyst JS PROMPTS W (cfg_ANALYST config) (apiKeys st) (inputCode st)
    (started tr) = (inr plan, tr1) ->
  get_prop plan (lit "required_files") = inr (VArr files) ->
  startAnalysis JS PROMPTS W (inputCode st) config (apiKeys st)
    (setLogs [] (setAnalysisStep ANALYST tr))
  = (inr (plan, VBool (negb (Nat.eqb (length files) O))), tr1) /\
  exists added,
    steps (snd (handleStartAnalysis JS PROMPTS W st tr))
    = steps tr ++ ANALYST :: ANALYST :: added /\
    (In WAITING_FOR_USER added <-> files <> []) /\
    (files <> [] -> added = [WAITING_FOR_USER]) /\
    (files = [] -> exists rest, added = ARCHITECT :: rest).
Proof.
  intros Hin Hcfg Hr Hg.
  pose proof (startAnalysis_plan JS PROMPTS W _ _ _ _ _ _ _ Hr Hg) as Hs.
  split; [exact Hs|].
  keeps_of (runAnalyst_steps JS PROMPTS W (cfg_ANALYST config) (apiKeys st)
              (inputCode st)) Hr Hk.
  unfold same_steps, started, setLogs, setAnalysisStep in Hk. run.
  unfold handleStartAnalysis. rewrite Hin, Hcfg.
  cbn [negb inputCode apiKeys]. rewrite Hs.
  destruct files as [|f files]; cbn [length Nat.eqb negb ToBoolean].
  - destruct (completeMigration_steps JS PROMPTS W plan
                [(main_legacy, VStr (inputCode st))] config (apiKeys st) tr1)
      as (l & Hl & Hn).
    destruct (completeMigration JS PROMPTS W plan _ config (apiKeys st) tr1)
      as [[err|res] tr2]; cbn [fst snd] in *.
    + exists (ARCHITECT :: l ++ [ERROR]).
      unfold setAnalysisStep. run. rewrite Hl, Hk, <- !app_assoc.
      split; [reflexivity|]. split; [|split].
      * split; [|congruence]. simpl. rewrite in_app_iff. simpl.
        intuition discriminate.
      * congruence.
      * eauto.
    + exists (ARCHITECT :: l). rewrite Hl, Hk, <- !app_assoc.
      split; [reflexivity|]. split; [|split].
      * split; [|congruence]. simpl. intuition discriminate.
      * congruence.
      * eauto.
  - exists [WAITING_FOR_USER]. unfold setAnalysisStep. run.
    rewrite Hk, <- !app_assoc. split; [reflexivity|].
    split; [|split].
    + split; [discriminate | simpl; auto].
    + reflexivity.
    + discriminate.
Qed.

(** C2 on a Plan that asks for [dep.php]. *)
Lemma C2_waiting_iff_required_files_witness :
  steps (snd (handleStartAnalysis Fixture.platform Fixture.prompts
                (Fixture.world
                   (Fixture.first_answer (Fixture.plan_json "dep.php")))
                Fixture.app empty_trace))
  = [ANALYST; ANALYST; WAITING_FOR_USER].
Proof.
  destruct (C2_waiting_iff_required_files Fixture.platform Fixture.prompts
              (Fixture.world (Fixture.first_answer (Fixture.plan_json "dep.php")))
              Fixture.app empty_trace Fixture.config
              (Fixture.plan_value "dep.php") [VStr (lit "dep.php")]
              (snd (runAnalyst Fixture.platform Fixture.prompts
                      (Fixture.world
                         (Fixture.first_answer (Fixture.plan_json "dep.php")))
                      Fixture.flash Fixture.keys Fixture.legacy_code
                      (started empty_trace))))
    as (_ & added & Hsteps & _ & Hne & _).
  - vm_compute. reflexivity.
  - reflexivity.
  - vm_compute. reflexivity.
  - vm_compute. reflexivity.
  - rewrite Hsteps, Hne by discriminate. reflexivity.
Defined.

Module ResumeFacts.
Section Spread.
Variable JS : Platform.

Lemma plan_truthy plan k files :
  get_prop plan k = inr (VArr files) -> ToBoolean plan = true.
Proof. destruct plan; simpl; try discriminate; reflexivity. Qed.

Lemma spread_one (code name dep : jsstring) :
  name <> main_legacy ->
  let ctx := Obj.spread [(main_legacy, VStr code)] [(name, VStr dep)] in
  length ctx = 2%nat /\
  Obj.get main_legacy ctx = Some (VStr code) /\
  Obj.get name ctx = Some (VStr dep) /\
  all_strings ctx.
Proof.
  intros Hne. cbv zeta. unfold Obj.spread. cbn [fold_left fst snd].
  assert (Hg : Obj.get name [(main_legacy, VStr code)] = None).
  { cbn [Obj.get]. rewrite decide_False by congruence. reflexivity. }
  split; [|split; [|split]].
  - rewrite ObjFacts.length_define, Hg. reflexivity.
  - rewrite ObjFacts.get_define_ne by exact Hne.
    cbn [Obj.get]. now rewrite decide_True.
  - apply ObjFacts.get_define_eq.
  - apply (ObjFacts.Forall_define (fun v => exists s, v = VStr s)).
    + eauto.
    + repeat constructor. simpl. eauto.
Qed.

End Spread.
End ResumeFacts.

(** C3, as stated, fails when the required file is itself called
    [main.legacy]: the spread puts the supplied content in the place of
    the input code, and the Architect is prompted with a file map that
    no longer holds the original entry. *)
Lemma C3_dependency_named_main_legacy :
  analysisStep
    (snd (handleStartAnalysis Fixture.platform Fixture.prompts
            (Fixture.world
               (Fixture.first_answer (Fixture.plan_json "main.legacy")))
            Fixture.app empty_trace))
  = WAITING_FOR_USER /\
  Obj.spread [(main_legacy, VStr Fixture.legacy_code)]
    [(main_legacy, VStr (lit "<?php dep ?>"))]
  = [(main_legacy, VStr (lit "<?php dep ?>"))] /\
  (let waiting :=
     handleStartAnalysis Fixture.platform Fixture.prompts
       (Fixture.world (Fixture.first_answer (Fixture.plan_json "main.legacy")))
       Fixture.app empty_trace in
   let resumed :=
     handleDependencySubmit Fixture.platform Fixture.prompts
       (Fixture.world (Fixture.first_answer (Fixture.plan_json "main.legacy")))
       [(main_legacy, VStr (lit "<?php dep ?>"))] (fst waiting) (snd waiting) in
   map content
     (firstn 1 (skipn (length (logs (snd waiting))) (logs (snd resumed)))))
  = [using_provider Fixture.flash
       (lit "ARCHITECT --- FILE: main.legacy ---" ++ nl
        ++ lit "<?php dep ?>" ++ nl)].
Proof. vm_compute. repeat split. Qed.

(** C3, amended: for a Plan with exactly one required file, whose name
    is not [main.legacy], [handleStartAnalysis] stops at
    [WAITING_FOR_USER] holding the Plan; [handleDependencySubmit] with
    that file then runs [completeMigration] on the same Plan and on a
    file map of exactly two entries, [main.legacy] with the input code
    and the supplied file: the first step it reports is [ARCHITECT],
    [WAITING_FOR_USER] is not reported again, the first entry it logs is
    the Architect's prompt built from that Plan and that file map, and
    a result it stores carries the Plan. *)
Theorem C3_resume_with_dependency (JS : Platform) (PROMPTS : PromptTemplates)
    (W : World) (st : AppState) (tr : Trace) (config : ModelConfig)
    (p : value) (name dep : jsstring) (tr1 : Trace) :
  Str.truthy (Str.trim (inputCode st)) = true ->
  modelConfig st = Some config ->
  runAnalyst JS PROMPTS W (cfg_ANALYST config) (apiKeys st) (inputCode st)
    (started tr) = (inr p, tr1) ->
  get_prop p (lit "required_files") = inr (VArr [VStr name]) ->
  name <> main_legacy ->
  let st1 := fst (handleStartAnalysis JS PROMPTS W st tr) in
  let trw := snd (handleStartAnalysis JS PROMPTS W st tr) in
  let ctx := Obj.spread [(main_legacy, VStr (inputCode st))] [(name, VStr dep)] in
  let resumed := handleDependencySubmit JS PROMPTS W [(name, VStr dep)] st1 trw in
  analysisStep trw = WAITING_FOR_USER /\
  partialPlan st1 = Some p /\
  length ctx = 2%nat /\
  Obj.get main_legacy ctx = Some (VStr (inputCode st)) /\
  Obj.get name ctx = Some (VStr dep) /\
  (exists l,
      steps (snd resumed) = steps trw ++ ARCHITECT :: l /\
      ~ In WAITING_FOR_USER l) /\
  (exists contextStr entry rest,
      render (context_line JS) ctx = inr contextStr /\
      logs (snd resumed) = logs trw ++ entry :: rest /\
      step entry = ARCHITECT /\
      content entry
      = using_provider (cfg_ARCHITECT config)
          (PROMPTS_ARCHITECT PROMPTS p contextStr)) /\
  (forall r, result (fst resumed) = Some r -> plan r = p).
Proof.
  intros Hin Hcfg Hr Hg Hne. cbv zeta.
  pose proof (startAnalysis_plan JS PROMPTS W _ _ _ _ _ _ _ Hr Hg) as Hs.
  keeps_of (runAnalyst_steps JS PROMPTS W (cfg_ANALYST config) (apiKeys st)
              (inputCode st)) Hr Hk.
  unfold started, setLogs, setAnalysisStep in Hk. run.
  destruct (ResumeFacts.spread_one (inputCode st) name dep Hne)
    as (Hlen & Hmain & Hdep & Hall).
  unfold handleStartAnalysis. rewrite Hin, Hcfg.
  cbn [negb inputCode apiKeys]. rewrite Hs.
  cbn [length Nat.eqb negb ToBoolean fst snd].
  unfold handleDependencySubmit.
  cbn [partialPlan modelConfig inputCode apiKeys].
  rewrite (ResumeFacts.plan_truthy _ _ _ Hg).
  set (ctx := Obj.spread [(main_legacy, VStr (inputCode st))] [(name, VStr dep)])
    in *.
  set (trw := setAnalysisStep WAITING_FOR_USER tr1).
  destruct (completeMigration_steps JS PROMPTS W p ctx config (apiKeys st) trw)
    as (l & Hl & Hn).
  destruct (completeMigration_prompt JS PROMPTS W p ctx config (apiKeys st) trw
              Hall) as (contextStr & entry & rest & Hrd & Hlg & Hst & _ & Hcn).
  pose proof (completeMigration_plan JS PROMPTS W p ctx config (apiKeys st) trw)
    as Hp.
  split; [|split; [reflexivity|]].
  { unfold analysisStep, trw, setAnalysisStep. run. apply last_last. }
  split; [exact Hlen|]. split; [exact Hmain|]. split; [exact Hdep|].
  destruct (completeMigration JS PROMPTS W p ctx config (apiKeys st) trw)
    as [[err|res] tr2]; cbn [fst snd] in *.
  - split; [|split].
    + exists (l ++ [ERROR]). unfold setAnalysisStep. run. rewrite Hl.
      rewrite <- app_assoc. split; [reflexivity|].
      rewrite in_app_iff. simpl. intuition discriminate.
    + exists contextStr, entry, rest. unfold setAnalysisStep. run. auto.
    + unfold failed. cbn [result]. discriminate.
  - split; [|split].
    + eauto.
    + exists contextStr, entry, rest. auto.
    + unfold finished. cbn [result]. intros r [= <-].
      now destruct (Hp res tr2 eq_refl).
Qed.

(** C3 on a Plan that asks for [dep.php]. *)
Lemma C3_resume_with_dependency_witness :
  Obj.get main_legacy
    (Obj.spread [(main_legacy, VStr Fixture.legacy_code)]
       [(lit "dep.php", VStr (lit "<?php dep ?>"))])
  = Some (VStr Fixture.legacy_code) /\
  Obj.get (lit "dep.php")
    (Obj.spread [(main_legacy, VStr Fixture.legacy_code)]
       [(lit "dep.php", VStr (lit "<?php dep ?>"))])
  = Some (VStr (lit "<?php dep ?>")).
Proof.
  destruct (C3_resume_with_dependency Fixture.platform Fixture.prompts
              (Fixture.world (Fixture.first_answer (Fixture.plan_json "dep.php")))
              Fixture.app empty_trace Fixture.config
              (Fixture.plan_value "dep.php") (lit "dep.php")
              (lit "<?php dep ?>")
              (snd (runAnalyst Fixture.platform Fixture.prompts
                      (Fixture.world
                         (Fixture.first_answer (Fixture.plan_json "dep.php")))
                      Fixture.flash Fixture.keys Fixture.legacy_code
                      (started empty_trace))))
    as (_ & _ & _ & Hmain & Hdep & _).
  - vm_compute. reflexivity.
  - reflexivity.
  - vm_compute. reflexivity.
  - vm_compute. reflexivity.
  - vm_compute. discriminate.
  - split; [exact Hmain | exact Hdep].
Defined.

(* ================================================================== *)
(** * Further properties *)
(* ================================================================== *)

(** ** More on cleaning *)

Module CleanMore.
Import Str.

Lemma replace_go_sublist m k s : sublist (replace_go m k s) s.
Proof.
  revert k. induction s as [|c t IH]; intros k; simpl; [constructor|].
  destruct k as [|k]; [|apply sublist_cons, IH].
  destruct (m (c :: t)) as [[|n]|].
  - apply sublist_skip, IH.
  - apply sublist_cons, IH.
  - apply sublist_skip, IH.
Qed.

Lemma trim_sublist s : sublist (trim s) s.
Proof.
  unfold trim.
  destruct (StrFacts.trimStart_suffix s) as [w Hw].
  destruct (StrFacts.trimEnd_prefix (trimStart s)) as [v Hv].
  rewrite Hw at 2. rewrite Hv at 2.
  apply sublist_inserts_l, sublist_inserts_r. reflexivity.
Qed.

Lemma trimEnd_last s t c : trimEnd s = t ++ [c] -> is_white_space c = false.
Proof.
  revert t. induction s as [|a s IH]; intros t; simpl.
  - destruct t; discriminate.
  - destruct (trimEnd s) as [|b u] eqn:E.
    + destruct (is_white_space a) eqn:Wa.
      * destruct t; discriminate.
      * destruct t as [|x t]; [intros [= <-]; exact Wa|].
        destruct t; discriminate.
    + destruct t as [|x t]; [discriminate|].
      intros [= <- H]. apply (IH t). exact H.
Qed.

Lemma trim_first s c t : trim s = c :: t -> is_white_space c = false.
Proof.
  intros H.
  pose proof (StrFacts.trimEnd_no_lead _ (StrFacts.trimStart_no_lead s)) as N.
  unfold trim in H. rewrite H in N. exact N.
Qed.

End CleanMore.

(** X1: Cleaning only removes: what [cleanLlmOutput] returns is the input
    with code units left out, in the same order, and it neither begins
    nor ends with white space. *)
Theorem X1_clean_only_removes (s : jsstring) :
  sublist (cleanLlmOutput s) s /\
  (forall c t, cleanLlmOutput s = c :: t -> Str.is_white_space c = false) /\
  (forall t c, cleanLlmOutput s = t ++ [c] -> Str.is_white_space c = false).
Proof.
  split; [|split].
  - unfold cleanLlmOutput, Str.remove_matches.
    etransitivity; [apply CleanMore.trim_sublist|].
    etransitivity; [apply CleanMore.replace_go_sublist|].
    etransitivity; [apply CleanMore.trim_sublist|].
    apply CleanMore.replace_go_sublist.
  - intros c t. apply CleanMore.trim_first.
  - intros t c. unfold cleanLlmOutput, Str.trim. apply CleanMore.trimEnd_last.
Qed.

(** X2: Text that holds no complete think block and no fence delimiter is
    only trimmed. *)
Theorem X2_clean_plain_text (s : jsstring) :
  has_think_block s = false -> has_fence s = false ->
  cleanLlmOutput s = Str.trim s.
Proof.
  intros Ht Hf. unfold cleanLlmOutput.
  rewrite (StrFacts.occurs_false_id match_think s Ht).
  rewrite (StrFacts.occurs_false_id match_fence (Str.trim s)).
  - apply StrFacts.trim_idem.
  - apply CleanFacts.has_fence_trim. exact Hf.
Qed.

(** An unclosed think marker stays where it is. *)
Lemma X2_clean_plain_text_witness :
  cleanLlmOutput (lit "  <think> still thinking ") = lit "<think> still thinking".
Proof.
  rewrite (X2_clean_plain_text (lit "  <think> still thinking "));
    vm_compute; reflexivity.
Defined.

(** ** Both schema mappers *)

Module MapperFacts.

Lemma same_shape_children l l' :
  (fix all (l : list (jsstring * GoogleSchema))
       (l' : list (jsstring * JsonSchema)) : Prop :=
     match l, l' with
     | [], [] => True
     | (k, c) :: r, (k', c') :: r' => k = k' /\ same_shape c c' /\ all r r'
     | _, _ => False
     end) l l'
  <-> ObjMore.related same_shape l l'.
Proof.
  revert l'. induction l as [|[k c] l IH]; intros [|[k' c'] l']; simpl.
  - split; [constructor | trivial].
  - split; [tauto | intros H; inversion H].
  - split; [tauto | intros H; inversion H].
  - rewrite IH. split.
    + intros (-> & Hc & Hl). constructor; auto.
    + intros H. inversion H as [|? ? ? ? [Hk Hc] Hl]; subst. simpl in *. auto.
Qed.

Lemma mappers_same_shape s : same_shape (mapToGoogleSchema s) (mapToJsonSchema s).
Proof.
  induction s as [t d ps it e r IHps IHit] using ResponseSchema_nested_ind.
  simpl. split; [eauto|]. repeat split.
  - destruct ps as [l|]; [|reflexivity]. split; [reflexivity|].
    apply same_shape_children.
    apply (ObjMore.related_assign_each same_shape mapToGoogleSchema
             mapToJsonSchema l [] []); [exact IHps | constructor].
  - destruct it as [c|]; [exact IHit | exact I].
Qed.

End MapperFacts.

(** X3: Both providers are asked for the same structure: the translation of
    a schema for the Google SDK and its translation to the loose dialect
    have the same description, [enum] and [required] lists at every node,
    the same property names in the same order, and type names that
    differ in case only; the loose dialect adds
    [additionalProperties: false] exactly where properties are defined. *)
Theorem X3_mappers_agree (s : ResponseSchema) :
  same_shape (mapToGoogleSchema s) (mapToJsonSchema s) /\
  g_description (mapToGoogleSchema s) = j_description (mapToJsonSchema s) /\
  g_enum (mapToGoogleSchema s) = enum s /\
  j_enum (mapToJsonSchema s) = enum s /\
  g_required (mapToGoogleSchema s) = required s /\
  j_required (mapToJsonSchema s) = required s /\
  (j_additionalProperties (mapToJsonSchema s) = Some false
   <-> properties s <> None).
Proof.
  split; [apply MapperFacts.mappers_same_shape|].
  destruct s as [t d ps it e r]. simpl. repeat split; try reflexivity.
  - destruct ps; congruence.
  - destruct ps; congruence.
Qed.

(** X4: The properties of a translated object node: each property of the
    source other than [__proto__] is found under its name, translated;
    nothing else is; and names that are no array indices keep their
    order. *)
Theorem X4_properties_translated (t : SchemaType) (d : option jsstring)
    (ps : list (jsstring * ResponseSchema)) (it : option ResponseSchema)
    (e r : option (list jsstring)) :
  NoDup (map fst ps) ->
  exists out,
    j_properties (mapToJsonSchema (mkSchema t d (Some ps) it e r)) = Some out /\
    Obj.get Obj.proto_key out = None /\
    (forall k c, In (k, c) ps -> k <> Obj.proto_key ->
                 Obj.get k out = Some (mapToJsonSchema c)) /\
    (forall k x, Obj.get k out = Some x ->
                 exists c, In (k, c) ps /\ x = mapToJsonSchema c) /\
    (Forall (fun kc => Obj.array_index (fst kc) = None /\
                       fst kc <> Obj.proto_key) ps ->
     map fst out = map fst ps).
Proof.
  intros Hnd. exists (assign_each mapToJsonSchema ps []).
  split; [reflexivity|]. split; [|split; [|split]].
  - now rewrite ObjMore.assign_each_proto.
  - intros k c Hin Hp. now apply ObjMore.assign_each_get.
  - intros k x H. apply ObjMore.assign_each_inv in H as [H|H];
      [discriminate | exact H].
  - intros Hl. now rewrite ObjMore.assign_each_keys.
Qed.

(** On the Analyst's response schema. *)
Lemma X4_properties_translated_witness :
  exists out,
    j_properties (mapToJsonSchema analyst_schema) = Some out /\
    map fst out
    = [lit "summary"; lit "variables"; lit "security_concerns";
       lit "migration_strategy"; lit "required_files"].
Proof.
  destruct (X4_properties_translated OBJECT None
              [ (lit "summary", leaf STRING);
                (lit "variables", array_of STRING);
                (lit "security_concerns", array_of STRING);
                (lit "migration_strategy", leaf STRING);
                (lit "required_files",
                 mkSchema ARRAY
                   (Some (lit "List of filenames found in local imports/includes"))
                   None (Some (leaf STRING)) None None) ]
              None None
              (Some [lit "summary"; lit "variables"; lit "security_concerns";
                     lit "migration_strategy"; lit "required_files"]))
    as (out & Ho & _ & _ & _ & Hk).
  - apply (bool_decide_unpack _). vm_compute. exact I.
  - exists out. split; [exact Ho|]. apply Hk.
    repeat constructor; vm_compute; congruence.
Defined.

(** ** The provider clients *)

Module ClientFacts.
Section ClientFacts.
Variable JS : Platform.
Variable W : World.

(** One call of a client: one request, sent with the client's key for
    the model asked for; nothing logged, no progress reported; a line on
    the console exactly when the call fails, and then the error is the
    client's own. *)
Lemma generateContent_effect client params tr r tr' :
  generateContent JS W client params tr = (r, tr') ->
  exists call,
    requests tr' = requests tr ++ [call] /\
    call_provider call = client_provider client /\
    call_key call = client_key client /\
    call_model call = p_model params /\
    logs tr' = logs tr /\ steps tr' = steps tr /\ ticks tr' = ticks tr /\
    match r with
    | inr _ => console tr' = console tr
    | inl e =>
        exists cause detail,
          console tr'
          = console tr ++ [(client_label (client_provider client), cause)] /\
          e = Error (client_error_message (client_provider client)
                       (p_model params) detail)
    end.
Proof.
  destruct client as [k|k]; simpl.
  - unfold Google_generateContent, google_call. run.
    case_sdk; run; intros [= <- <-]; eexists; simpl; repeat split; eauto.
  - unfold OpenRouter_generateContent, openrouter_call. run.
    case_sdk; run.
    + intros [= <- <-]; eexists; simpl; repeat split; eauto.
    + destruct (choices _); run; intros [= <- <-]; eexists; simpl;
        repeat split; eauto.
Qed.

End ClientFacts.
End ClientFacts.

(** X5: Every call of a provider client sends exactly one request, to the
    client's provider, with the client's key and for the model asked
    for; it logs nothing and reports no progress; it writes one line to
    the console when it fails, and nothing when it succeeds; and what it
    raises is an [Error] with the client's message. *)
Theorem X5_one_request_per_call (JS : Platform) (W : World) (client : ILlmClient)
    (params : GenerateContentParams) (tr : Trace) :
  exists call,
    requests (snd (generateContent JS W client params tr))
    = requests tr ++ [call] /\
    call_provider call = client_provider client /\
    call_key call = client_key client /\
    call_model call = p_model params /\
    logs (snd (generateContent JS W client params tr)) = logs tr /\
    steps (snd (generateContent JS W client params tr)) = steps tr /\
    match fst (generateContent JS W client params tr) with
    | inr _ => console (snd (generateContent JS W client params tr)) = console tr
    | inl e =>
        exists cause detail,
          console (snd (generateContent JS W client params tr))
          = console tr ++ [(client_label (client_provider client), cause)] /\
          e = Error (client_error_message (client_provider client)
                       (p_model params) detail)
    end.
Proof.
  destruct (generateContent JS W client params tr) as [r tr'] eqn:E.
  destruct (ClientFacts.generateContent_effect JS W _ _ _ _ _ E)
    as (call & H1 & H2 & H3 & H4 & H5 & H6 & _ & H7).
  exists call. simpl. auto 10.
Qed.

(** X6: The Gemma workaround of the Google client: for a model whose name
    contains [gemma] in any case, the request carries no
    [systemInstruction] in its config and a non-empty instruction is put
    in front of the prompt; for any other model the prompt is sent as it
    is and a non-empty instruction goes into the config. *)
Theorem X6_gemma_system_instruction (JS : Platform) (W : World)
    (apiKey : jsstring) (params : GenerateContentParams) (tr : Trace) :
  exists req,
    requests (snd (Google_generateContent JS W apiKey params tr))
    = requests tr ++ [GoogleCall apiKey req] /\
    greq_model req = p_model params /\
    (Str.includes (lit "gemma") (toLowerCase JS (p_model params)) = true ->
     config_systemInstruction (greq_config req) = None /\
     greq_contents req
     = match keep_truthy (p_systemInstruction params) with
       | Some s =>
           lit "SYSTEM INSTRUCTION: " ++ s ++ nl ++ nl
           ++ lit "USER PROMPT: " ++ p_prompt params
       | None => p_prompt params
       end) /\
    (Str.includes (lit "gemma") (toLowerCase JS (p_model params)) = false ->
     config_systemInstruction (greq_config req)
     = keep_truthy (p_systemInstruction params) /\
     greq_contents req = p_prompt params).
Proof.
  unfold Google_generateContent, google_call. run.
  case_sdk; run; eexists; (split; [reflexivity|]); simpl;
    (split; [reflexivity|]);
    split; intros ->; destruct (keep_truthy (p_systemInstruction params));
    auto.
Qed.

(** X7: The OpenRouter client looks at the response schema only in JSON
    mode: unless [responseMimeType] is exactly [application/json], a call
    with a schema does what the call without it does. *)
Theorem X7_openrouter_schema_needs_json_mode (JS : Platform) (W : World)
    (apiKey : jsstring) (params : GenerateContentParams) (tr : Trace) :
  p_responseMimeType params <> Some application_json ->
  OpenRouter_generateContent JS W apiKey params tr
  = OpenRouter_generateContent JS W apiKey (without_schema params) tr.
Proof.
  intros H. unfold OpenRouter_generateContent, without_schema.
  cbn [p_model p_systemInstruction p_prompt p_responseSchema
       p_responseMimeType].
  unfold application_json in H.
  destruct (decide (p_responseMimeType params = Some (lit "application/json")));
    [contradiction | reflexivity].
Qed.

(** On a call without the JSON mime type. *)
Lemma X7_openrouter_schema_needs_json_mode_witness :
  OpenRouter_generateContent Fixture.platform (Fixture.world (fun _ => lit "ok"))
    (lit "o-key")
    {| p_model := lit "openai/gpt-4o"; p_systemInstruction := None;
       p_prompt := lit "Hello"; p_responseSchema := Some analyst_schema;
       p_responseMimeType := None |} empty_trace
  = OpenRouter_generateContent Fixture.platform
      (Fixture.world (fun _ => lit "ok")) (lit "o-key")
      {| p_model := lit "openai/gpt-4o"; p_systemInstruction := None;
         p_prompt := lit "Hello"; p_responseSchema := None;
         p_responseMimeType := None |} empty_trace.
Proof.
  apply (X7_openrouter_schema_needs_json_mode Fixture.platform
           (Fixture.world (fun _ => lit "ok")) (lit "o-key")
           {| p_model := lit "openai/gpt-4o"; p_systemInstruction := None;
              p_prompt := lit "Hello"; p_responseSchema := Some analyst_schema;
              p_responseMimeType := None |} empty_trace).
  simpl. discriminate.
Defined.

(** X8: A completion without choices is a failure of the OpenRouter client,
    not an empty answer: reading the message of the missing first choice
    raises inside the client's own [try] block, and the client reports
    it as its own error. *)
Theorem X8_openrouter_no_choice (JS : Platform) (W : World) (apiKey : jsstring)
    (params : GenerateContentParams) (tr : Trace) :
  (forall req, exists c,
      openrouter_sdk W (length (requests tr)) apiKey req = inr c /\
      choices c = []) ->
  exists tr',
    OpenRouter_generateContent JS W apiKey params tr
    = (inl (Error (openrouter_error_message (p_model params)
                     (Str.or_else (TypeError_message JS (lit "message"))
                        (lit "Unknown error")))), tr') /\
    length (requests tr') = S (length (requests tr)) /\
    console tr'
    = console tr ++ [(lit "OpenRouter Error:", TypeError (lit "message"))].
Proof.
  intros H. unfold OpenRouter_generateContent, openrouter_call. run.
  match goal with
  | |- context [openrouter_sdk W ?n ?k ?r] => destruct (H r) as (c & -> & Hc)
  end.
  run. rewrite Hc. run. eexists. split; [reflexivity|]. simpl.
  rewrite length_app. simpl. split; [lia | reflexivity].
Qed.

(** On a provider that answers without a choice. *)
Lemma X8_openrouter_no_choice_witness :
  fst (OpenRouter_generateContent Fixture.platform Scenario.no_choice
         (lit "o-key")
         {| p_model := lit "openai/gpt-4o"; p_systemInstruction := None;
            p_prompt := lit "Hello"; p_responseSchema := None;
            p_responseMimeType := None |} empty_trace)
  = inl (Error (openrouter_error_message (lit "openai/gpt-4o")
                  (TypeError_message Fixture.platform (lit "message")))).
Proof.
  destruct (X8_openrouter_no_choice Fixture.platform Scenario.no_choice
              (lit "o-key")
              {| p_model := lit "openai/gpt-4o"; p_systemInstruction := None;
                 p_prompt := lit "Hello"; p_responseSchema := None;
                 p_responseMimeType := None |} empty_trace)
    as (tr' & -> & _).
  - intros req. eexists. split; reflexivity.
  - vm_compute. reflexivity.
Defined.

(** ** The four stages, from the prompt to the response *)

Module StageFacts.
Section StageFacts.
Variable JS : Platform.
Variable PROMPTS : PromptTemplates.
Variable W : World.

Lemma render_entries_error fmt (m : FileMap) e :
  (forall n s, exists line, fmt n (VStr s) = inr line) ->
  (forall n v e, fmt n v = inl e -> exists w, e = TypeError w) ->
  render fmt m = inl e -> (exists w, e = TypeError w) /\ ~ all_strings m.
Proof.
  intros Hs He Hr. split.
  - revert Hr. unfold render.
    destruct (render_entries fmt m) as [e0|lines] eqn:E; [|discriminate].
    intros [= ->]. revert E.
    induction m as [|[n v] m IH]; simpl; [discriminate|].
    destruct (fmt n v) as [e1|line] eqn:Ef.
    + intros [= ->]. eapply He, Ef.
    + destruct (render_entries fmt m); [|discriminate].
      intros [= ->]. now apply IH.
  - intros Hm. destruct (RunFacts.render_strings fmt m Hs Hm) as [t Ht].
    congruence.
Qed.

Lemma ToString_error v e : ToString JS v = inl e -> exists w, e = TypeError w.
Proof.
  destruct v as [| |[|]| | | |]; simpl; try discriminate;
    destruct (Object_toString JS _); intros [= <-]; eauto.
Qed.

Lemma render_context_error m e :
  render (context_line JS) m = inl e ->
  (exists w, e = TypeError w) /\ ~ all_strings m.
Proof.
  apply render_entries_error.
  - intros n s. unfold context_line. simpl. eauto.
  - intros n v e0. unfold context_line.
    destruct (ToString JS v) eqn:E; [|discriminate].
    intros [= <-]. eapply ToString_error, E.
Qed.

Lemma render_original_error m e :
  render original_line m = inl e ->
  (exists w, e = TypeError w) /\ ~ all_strings m.
Proof.
  apply render_entries_error.
  - intros n s. simpl. eauto.
  - intros n v e0. destruct v; simpl; try discriminate; intros [= <-]; eauto.
Qed.

Lemma render_generated_error m e :
  render (generated_line JS) m = inl e ->
  (exists w, e = TypeError w) /\ ~ all_strings m.
Proof.
  apply render_entries_error.
  - intros n s. unfold generated_line. simpl. eauto.
  - intros n v e0. unfold generated_line.
    destruct (ToString JS v) eqn:E; [|discriminate].
    intros [= <-]. eapply ToString_error, E.
Qed.

Lemma resolved_key p keys :
  no_key (resolveApiKey W p (Some keys)) = false ->
  exists k, resolveApiKey W p (Some keys) = Some k /\ k <> [].
Proof.
  unfold no_key, keep_truthy.
  destruct (resolveApiKey W p (Some keys)) as [k|]; [|discriminate].
  destruct k; [discriminate|]. intros _. eexists. split; [reflexivity|].
  discriminate.
Qed.

Lemma createLlmClient_of p k tr :
  k <> [] -> createLlmClient W p (Some k) tr = (inr (client_of p k), tr).
Proof.
  intros Hk. unfold createLlmClient, first_truthy, keep_truthy.
  destruct k; [congruence|]. destruct p; reflexivity.
Qed.

Lemma client_of_provider p k : client_provider (client_of p k) = p.
Proof. now destruct p. Qed.

Lemma client_of_key p k : client_key (client_of p k) = k.
Proof. now destruct p. Qed.

End StageFacts.
End StageFacts.

Module CoreFacts.
Section CoreFacts.
Variable JS : Platform.
Variable PROMPTS : PromptTemplates.
Variable W : World.

(** The four runners are the shared text with their own ending. *)
Lemma runAnalyst_core selection keys code :
  runAnalyst JS PROMPTS W selection keys code
  = stage_core JS W ANALYST selection keys (PROMPTS_ANALYST PROMPTS code)
      (Some analyst_schema) (Some application_json) (analyst_finish JS W).
Proof. reflexivity. Qed.

Lemma runArchitect_core selection keys plan ctx :
  runArchitect JS PROMPTS W selection keys plan ctx
  = (contextStr ← lift (render (context_line JS) ctx);
     stage_core JS W ARCHITECT selection keys
       (PROMPTS_ARCHITECT PROMPTS plan contextStr) None None
       (fun response => mret (shown ARCHITECT (text response)))).
Proof. reflexivity. Qed.

Lemma runCoder_core selection keys plan arch ctx :
  runCoder JS PROMPTS W selection keys plan arch ctx
  = (contextStr ← lift (render (context_line JS) ctx);
     stage_core JS W CODER selection keys
       (PROMPTS_CODER PROMPTS arch contextStr) None (Some application_json)
       (fun response => extract_files JS W (shown CODER (text response)))).
Proof. reflexivity. Qed.

Lemma runAuditor_core selection keys orig gen :
  runAuditor JS PROMPTS W selection keys orig gen
  = (originalStr ← lift (render original_line orig);
     newStr ← lift (render (generated_line JS) gen);
     stage_core JS W AUDITOR selection keys
       (PROMPTS_AUDITOR PROMPTS originalStr newStr) (Some auditor_schema)
       (Some application_json) (auditor_finish JS)).
Proof. reflexivity. Qed.

Lemma stage_core_reached {A} tag selection keys prompt schema mime typed
    (k : GenerateContentResult -> M A) tr :
  exists c tr1,
    reached W selection keys tag typed tr c tr1 /\
    stage_core JS W tag selection keys prompt schema mime k tr
    = match c with
      | inl e => (inl e, tr1)
      | inr response => k response tr1
      end.
Proof.
  unfold stage_core. run.
  destruct (no_key _) eqn:Hk; run.
  { eexists (inl _), _. split; [|reflexivity].
    eapply reached_no_key; [exact Hk | | reflexivity ..].
    repeat split; eauto. }
  destruct (StageFacts.resolved_key W _ _ Hk) as (key & Hres & Hne).
  rewrite Hres.
  rewrite (StageFacts.createLlmClient_of W _ _ _ Hne).
  run.
  match goal with
  | |- context [generateContent JS W ?c ?ps ?t] =>
      destruct (generateContent JS W c ps t) as [[e|response] t2] eqn:Eg
  end; run.
  all: apply ClientFacts.generateContent_effect in Eg;
    destruct Eg as (call & Hq & Hcp & Hck & Hcm & Hl & Hs & Ht & Hc);
    rewrite StageFacts.client_of_provider in *;
    rewrite StageFacts.client_of_key in *;
    cbn [p_model logs steps requests console ticks] in *.
  - destruct Hc as (cause & detail & Hc & ->).
    eexists (inl _), _. split; [|reflexivity].
    eapply reached_call_failed; [ | | exact Hl | exact Hq | exact Hc | exact Hs].
    + repeat split; eauto.
    + repeat split; auto; congruence.
  - eexists (inr response), _. split; [|reflexivity].
    eapply reached_answered; cbn [logs steps requests console].
    5: exact Hq. 5: exact Hc. 5: exact Hs.
    4: { rewrite Hl, <- app_assoc. reflexivity. }
    + repeat split; eauto.
    + repeat split; auto; congruence.
    + repeat split; eauto.
Qed.

Lemma runAnalyst_reached selection keys code tr :
  exists c tr1,
    reached W selection keys ANALYST True tr c tr1 /\
    runAnalyst JS PROMPTS W selection keys code tr
    = match c with
      | inl e => (inl e, tr1)
      | inr response => analyst_finish JS W response tr1
      end.
Proof. rewrite runAnalyst_core. apply stage_core_reached. Qed.

Lemma runArchitect_reached selection keys plan ctx tr :
  exists c tr1,
    reached W selection keys ARCHITECT (all_strings ctx) tr c tr1 /\
    runArchitect JS PROMPTS W selection keys plan ctx tr
    = match c with
      | inl e => (inl e, tr1)
      | inr response => (inr (shown ARCHITECT (text response)), tr1)
      end.
Proof.
  rewrite runArchitect_core.
  destruct (render (context_line JS) ctx) as [e|contextStr] eqn:Hr.
  - destruct (StageFacts.render_context_error JS _ _ Hr) as [[w ->] Hn].
    exists (inl (TypeError w)), tr. split; [now constructor|].
    run. reflexivity.
  - destruct (stage_core_reached ARCHITECT selection keys
                (PROMPTS_ARCHITECT PROMPTS plan contextStr) None None
                (all_strings ctx)
                (fun response => mret (shown ARCHITECT (text response))) tr)
      as (c & tr1 & Hc & He).
    exists c, tr1. split; [exact Hc|]. run.
    rewrite He. now destruct c.
Qed.

Lemma runCoder_reached selection keys plan arch ctx tr :
  exists c tr1,
    reached W selection keys CODER (all_strings ctx) tr c tr1 /\
    runCoder JS PROMPTS W selection keys plan arch ctx tr
    = match c with
      | inl e => (inl e, tr1)
      | inr response => extract_files JS W (shown CODER (text response)) tr1
      end.
Proof.
  rewrite runCoder_core.
  destruct (render (context_line JS) ctx) as [e|contextStr] eqn:Hr.
  - destruct (StageFacts.render_context_error JS _ _ Hr) as [[w ->] Hn].
    exists (inl (TypeError w)), tr. split; [now constructor|].
    run. reflexivity.
  - destruct (stage_core_reached CODER selection keys
                (PROMPTS_CODER PROMPTS arch contextStr) None
                (Some application_json) (all_strings ctx)
                (fun response =>
                   extract_files JS W (shown CODER (text response))) tr)
      as (c & tr1 & Hc & He).
    exists c, tr1. split; [exact Hc|]. run.
    exact He.
Qed.

Lemma runAuditor_reached selection keys orig gen tr :
  exists c tr1,
    reached W selection keys AUDITOR (all_strings orig /\ all_strings gen)
      tr c tr1 /\
    runAuditor JS PROMPTS W selection keys orig gen tr
    = match c with
      | inl e => (inl e, tr1)
      | inr response => auditor_finish JS response tr1
      end.
Proof.
  rewrite runAuditor_core.
  destruct (render original_line orig) as [e|originalStr] eqn:Ho.
  { destruct (StageFacts.render_original_error _ _ Ho) as [[w ->] Hn].
    exists (inl (TypeError w)), tr. split; [constructor; tauto|].
    run. reflexivity. }
  destruct (render (generated_line JS) gen) as [e|newStr] eqn:Hg.
  { destruct (StageFacts.render_generated_error JS _ _ Hg) as [[w ->] Hn].
    exists (inl (TypeError w)), tr. split; [constructor; tauto|].
    run. reflexivity. }
  destruct (stage_core_reached AUDITOR selection keys
              (PROMPTS_AUDITOR PROMPTS originalStr newStr) (Some auditor_schema)
              (Some application_json) (all_strings orig /\ all_strings gen)
              (auditor_finish JS) tr)
    as (c & tr1 & Hc & He).
  exists c, tr1. split; [exact Hc|]. run.
  exact He.
Qed.

(** Every stage, as [run_stage] reports it. *)
Lemma run_stage_reached selection keys s tr :
  exists c tr1,
    reached W selection keys (stage_tag s) (stage_typed s) tr c tr1 /\
    run_stage JS PROMPTS W selection keys s tr
    = match c with
      | inl e => (Some e, tr1)
      | inr response => stage_finish JS W s response tr1
      end.
Proof.
  destruct s as [code|plan ctx|plan arch ctx|orig gen]; simpl.
  - destruct (runAnalyst_reached selection keys code tr) as (c & tr1 & H & ->).
    exists c, tr1. split; [exact H|]. now destruct c.
  - destruct (runArchitect_reached selection keys plan ctx tr)
      as (c & tr1 & H & ->).
    exists c, tr1. split; [exact H|]. now destruct c.
  - destruct (runCoder_reached selection keys plan arch ctx tr)
      as (c & tr1 & H & ->).
    exists c, tr1. split; [exact H|]. now destruct c.
  - destruct (runAuditor_reached selection keys orig gen tr)
      as (c & tr1 & H & ->).
    exists c, tr1. split; [exact H|]. now destruct c.
Qed.

End CoreFacts.
End CoreFacts.

Module FinishFacts.
Section FinishFacts.
Variable JS : Platform.
Variable W : World.

(** What the extraction does to the trace and what it comes back with. *)
Lemma extract_files_effect text tr r tr' :
  extract_files JS W text tr = (r, tr') ->
  steps tr' = steps tr /\ requests tr' = requests tr /\
  console tr' = console tr /\
  (exists l, logs tr' = logs tr ++ l /\
             (l = [] \/ exists e, l = [e] /\ step e = CODER /\
                                  entry_type e = Kind.info)) /\
  match r with
  | inl e => e = Error coder_failed
  | inr fileMap => fileMap <> []
  end.
Proof.
  unfold extract_files.
  destruct (strict_extraction JS text) as [[fileMap ok] caught].
  destruct caught as [e|]; run;
    match goal with
    | |- context [Nat.eqb (length ?m) 0] => destruct m as [|kv rest]
    end; run; intros [= <- <-]; simpl;
    repeat split; try discriminate;
    first [ exists []; rewrite app_nil_r; split; [reflexivity | auto]
          | eexists [_]; split; [reflexivity|]; right; eexists;
            split; [reflexivity | auto] ].
Qed.

Lemma stage_finish_effect s response tr oe tr' :
  stage_finish JS W s response tr = (oe, tr') ->
  steps tr' = steps tr /\ requests tr' = requests tr /\
  console tr' = console tr /\
  (exists l, logs tr' = logs tr ++ l /\
             (l = [] \/ exists e, l = [e] /\ step e = stage_tag s /\
                                  [entry_type e] = drop 2 (log_kinds s))) /\
  match oe with
  | Some e =>
      (stage_tag s = ANALYST /\ e = Error analyst_invalid_json) \/
      (stage_tag s = CODER /\ e = Error coder_failed) \/
      (stage_tag s = AUDITOR /\ exists message, e = SyntaxError message)
  | None => True
  end.
Proof.
  destruct s as [code|plan ctx|plan arch ctx|orig gen]; simpl.
  - unfold analyst_finish.
    destruct (JSON_parse JS _) as [message|plan]; run; intros [= <- <-];
      simpl; repeat split; auto.
    + eexists [_]. split; [reflexivity|]. right. eexists.
      split; [reflexivity | auto].
    + exists []. rewrite app_nil_r. auto.
  - intros [= <- <-]. repeat split; auto.
    exists []. rewrite app_nil_r. auto.
  - destruct (extract_files JS W _ tr) as [r t] eqn:E. simpl.
    intros [= <- <-].
    destruct (extract_files_effect _ _ _ _ E) as (Hs & Hq & Hc & Hl & Hr).
    split; [exact Hs|]. split; [exact Hq|]. split; [exact Hc|]. split.
    + destruct Hl as (l & Hl & [->|(e & -> & He & Hk)]).
      * exists []. auto.
      * exists [e]. split; [exact Hl|]. right. exists e. rewrite Hk. auto.
    + destruct r as [e|m]; simpl; [|exact I]. subst e. auto.
  - unfold auditor_finish.
    destruct (JSON_parse JS _) as [message|v]; run; intros [= <- <-];
      simpl; repeat split; eauto 6.
    + exists []. rewrite app_nil_r. auto.
    + exists []. rewrite app_nil_r. auto.
Qed.

End FinishFacts.
End FinishFacts.

Module ReachedFacts.
Section ReachedFacts.
Variable W : World.
Variable selection : ModelSelection.
Variable keys : ApiKeys.
Variable tag : AnalysisStep.
Variable typed : Prop.

Lemma reached_frame tr c tr1 :
  reached W selection keys tag typed tr c tr1 ->
  steps tr1 = steps tr /\
  (exists l, logs tr1 = logs tr ++ l /\
             Forall (fun e => step e = tag) l /\
             map entry_type l
             = take (length l) [Kind.prompt; Kind.response] /\
             (typed -> exists p rest,
                 l = p :: rest /\ prompt_entry tag selection p) /\
             (forall response, c = inr response ->
                exists p q, l = [p; q] /\ response_entry tag response q)) /\
  (exists q, requests tr1 = requests tr ++ q /\
             (length q <= 1)%nat /\ Forall (served W selection keys) q /\
             (forall response, c = inr response -> length q = 1%nat)) /\
  (exists lines, console tr1 = console tr ++ lines /\
                 (length lines <= 1)%nat /\
                 (forall response, c = inr response -> lines = [])).
Proof.
  intros H.
  destruct H as [w Hn|p tr1 Hk Hp Hl Hq Hc Hs
                |p call cause detail tr1 Hp Hv Hl Hq Hc Hs
                |p q call response tr1 Hp Hv Hr Hl Hq Hc Hs].
  - split; [reflexivity|]. split; [|split].
    + exists []. rewrite app_nil_r.
      repeat split; auto; try tauto; discriminate.
    + exists []. rewrite app_nil_r. repeat split; auto; discriminate.
    + exists []. rewrite app_nil_r. repeat split; auto.
  - split; [exact Hs|]. split; [|split].
    + exists [p]. split; [exact Hl|]. split; [|split; [|split]].
      * repeat constructor. apply Hp.
      * simpl. destruct Hp as (_ & -> & _). reflexivity.
      * eauto.
      * discriminate.
    + exists []. rewrite app_nil_r. repeat split; auto; discriminate.
    + exists []. rewrite app_nil_r. repeat split; auto.
  - split; [exact Hs|]. split; [|split].
    + exists [p]. split; [exact Hl|]. split; [|split; [|split]].
      * repeat constructor. apply Hp.
      * simpl. destruct Hp as (_ & -> & _). reflexivity.
      * eauto.
      * discriminate.
    + exists [call]. repeat split; auto; discriminate.
    + eexists [_]. repeat split; eauto; discriminate.
  - split; [exact Hs|]. split; [|split].
    + exists [p; q]. split; [exact Hl|]. split; [|split; [|split]].
      * repeat constructor; [apply Hp | apply Hr].
      * simpl. destruct Hp as (_ & -> & _). destruct Hr as (_ & -> & _).
        reflexivity.
      * eauto.
      * intros r [= <-]. eauto.
    + exists [call]. repeat split; auto.
    + exists []. rewrite app_nil_r. repeat split; auto.
Qed.

Lemma reached_failure tr e tr1 :
  reached W selection keys tag typed tr (inl e) tr1 ->
  (exists w, e = TypeError w /\ ~ typed) \/
  (e = Error (missing tag (provider selection)) /\
   no_key (resolveApiKey W (provider selection) (Some keys)) = true /\
   requests tr1 = requests tr) \/
  (exists detail,
      e = Error (client_error_message (provider selection) (model selection)
                   detail)).
Proof.
  intros H. inversion H; subst; eauto 6.
Qed.

End ReachedFacts.

Lemma missing_head tag p : exists t, missing tag p = 77 :: t.
Proof.
  destruct tag; simpl;
    first [ destruct (RunFacts.missing_key_analyst_shape p) as (t & -> & _)
          | destruct (RunFacts.missing_key_shape p) as (t & -> & _) ];
    eauto.
Qed.

Lemma not_factory_message e :
  (exists w, e = TypeError w) \/
  (exists tag p, e = Error (missing tag p)) \/
  (exists p m d, e = Error (client_error_message p m d)) \/
  e = Error analyst_invalid_json \/ e = Error coder_failed \/
  (exists message, e = SyntaxError message) ->
  forall msg, In msg factory_messages -> e <> Error msg.
Proof.
  intros H msg Hin.
  assert (Hm : msg = lit "Google API Key missing." \/
               msg = lit "OpenRouter API Key missing.").
  { unfold factory_messages in Hin. simpl in Hin.
    destruct Hin as [<-|[<-|[]]]; auto. }
  clear Hin.
  destruct H as [[w ->]|[(tag & p & ->)|[(p & m & d & ->)|[->|[->|[x ->]]]]]];
    try discriminate.
  - destruct (missing_head tag p) as [t ->].
    destruct Hm as [-> | ->]; vm_compute; discriminate.
  - destruct p; destruct Hm as [-> | ->];
      unfold client_error_message, google_error_message,
        openrouter_error_message;
      intros [= H]; revert H; cbn; discriminate.
  - destruct Hm as [-> | ->]; vm_compute; discriminate.
  - destruct Hm as [-> | ->]; vm_compute; discriminate.
Qed.

End ReachedFacts.

(** X9: The ways a stage can fail.  The error a stage raises is one of: the
    [TypeError] of rendering a file map that holds something other than
    strings; the stage's [Missing API Key] error, raised when no
    credential is resolved; the error of the provider client, for the
    selected provider and model; and, behind an answer of the provider,
    the Analyst's [Analyst failed to produce valid JSON.], the Coder's
    [Coder failed to generate files...] or the [SyntaxError] of the
    Auditor's [JSON.parse].  In particular the errors with which
    [createLlmClient] refuses to make a client never come out of a
    stage. *)
Theorem X9_stage_failure_kinds (JS : Platform) (PROMPTS : PromptTemplates)
    (W : World) (selection : ModelSelection) (keys : ApiKeys) (s : Stage)
    (tr : Trace) (e : exn) :
  fst (run_stage JS PROMPTS W selection keys s tr) = Some e ->
  ((exists w, e = TypeError w /\ ~ stage_typed s) \/
   (e = Error (missing (stage_tag s) (provider selection)) /\
    no_key (resolveApiKey W (provider selection) (Some keys)) = true) \/
   (exists detail,
       e = Error (client_error_message (provider selection) (model selection)
                    detail)) \/
   (stage_tag s = ANALYST /\ e = Error analyst_invalid_json) \/
   (stage_tag s = CODER /\ e = Error coder_failed) \/
   (stage_tag s = AUDITOR /\ exists message, e = SyntaxError message)) /\
  (forall msg, In msg factory_messages -> e <> Error msg).
Proof.
  intros H.
  assert (K :
    (exists w, e = TypeError w /\ ~ stage_typed s) \/
    (e = Error (missing (stage_tag s) (provider selection)) /\
     no_key (resolveApiKey W (provider selection) (Some keys)) = true) \/
    (exists detail,
        e = Error (client_error_message (provider selection)
                     (model selection) detail)) \/
    (stage_tag s = ANALYST /\ e = Error analyst_invalid_json) \/
    (stage_tag s = CODER /\ e = Error coder_failed) \/
    (stage_tag s = AUDITOR /\ exists message, e = SyntaxError message)).
  { destruct (CoreFacts.run_stage_reached JS PROMPTS W selection keys s tr)
      as (c & tr1 & Hc & Hr).
    rewrite Hr in H. destruct c as [e0|response]; simpl in H.
    - injection H as ->.
      apply ReachedFacts.reached_failure in Hc
        as [(w & -> & Hn)|[(-> & Hk & _)|(d & ->)]]; eauto 8.
    - destruct (stage_finish JS W s response tr1) as [oe tr'] eqn:Ef.
      simpl in H. subst oe.
      apply FinishFacts.stage_finish_effect in Ef as (_ & _ & _ & _ & Hf).
      tauto. }
  split; [exact K|].
  apply ReachedFacts.not_factory_message.
  destruct K as [(w & -> & _)|[(-> & _)|[(d & ->)|[(_ & ->)|[(_ & ->)|(_ & m & ->)]]]]];
    eauto 10.
Qed.

(** With the providers down, the Architect fails with the error of the
    Google client. *)
Lemma X9_stage_failure_kinds_witness :
  fst (run_stage Fixture.platform Fixture.prompts Fixture.offline
         Fixture.flash Fixture.keys
         (Architect VNull [(main_legacy, VStr Fixture.legacy_code)])
         empty_trace)
  = Some (Error (google_error_message (lit "gemini-3.0-flash")
                   (lit "fetch failed"))) /\
  Forall (fun msg =>
            Error (google_error_message (lit "gemini-3.0-flash")
                     (lit "fetch failed")) <> Error msg)
    factory_messages.
Proof.
  assert (H : fst (run_stage Fixture.platform Fixture.prompts Fixture.offline
                     Fixture.flash Fixture.keys
                     (Architect VNull
                        [(main_legacy, VStr Fixture.legacy_code)])
                     empty_trace)
              = Some (Error (google_error_message (lit "gemini-3.0-flash")
                               (lit "fetch failed")))).
  { vm_compute. reflexivity. }
  split; [exact H|].
  apply List.Forall_forall. intros msg Hin.
  exact (proj2 (X9_stage_failure_kinds _ _ _ _ _ _ _ _ H) msg Hin).
Defined.

(** X10: The requests of a stage.  A stage sends at most one request, and
    exactly one when it succeeds; the request goes to the provider
    selected for the stage, for the model selected, with the credential
    resolved for that provider, which is not empty. *)
Theorem X10_stage_requests (JS : Platform) (PROMPTS : PromptTemplates) (W : World)
    (selection : ModelSelection) (keys : ApiKeys) (s : Stage) (tr : Trace) :
  exists q,
    requests (snd (run_stage JS PROMPTS W selection keys s tr))
    = requests tr ++ q /\
    (length q <= 1)%nat /\
    Forall (fun call =>
              call_provider call = provider selection /\
              call_model call = model selection /\
              resolveApiKey W (provider selection) (Some keys)
              = Some (call_key call) /\
              call_key call <> []) q /\
    (fst (run_stage JS PROMPTS W selection keys s tr) = None ->
     length q = 1%nat).
Proof.
  destruct (CoreFacts.run_stage_reached JS PROMPTS W selection keys s tr)
    as (c & tr1 & Hc & ->).
  destruct (ReachedFacts.reached_frame _ _ _ _ _ _ _ _ Hc)
    as (_ & _ & (q & Hq & Hlen & Hall & Hone) & _).
  exists q. destruct c as [e|response]; simpl.
  - repeat split; auto. discriminate.
  - destruct (stage_finish JS W s response tr1) as [oe tr'] eqn:Ef.
    apply FinishFacts.stage_finish_effect in Ef as (_ & Hq' & _).
    simpl. rewrite Hq', Hq. repeat split; eauto.
Qed.

(** X11: The log of a stage.  The entries a stage logs carry the stage's
    tag, and their kinds are, in this order and as far as the stage
    gets: the prompt, the response, and behind them the Analyst's
    [error] entry or the Coder's [info] entry.  When the file maps hold
    strings the prompt entry is always there, written before the
    credential is looked for, and names the selected provider and
    model.  The stage reports no progress of its own. *)
Theorem X11_stage_log (JS : Platform) (PROMPTS : PromptTemplates) (W : World)
    (selection : ModelSelection) (keys : ApiKeys) (s : Stage) (tr : Trace) :
  exists l,
    logs (snd (run_stage JS PROMPTS W selection keys s tr)) = logs tr ++ l /\
    Forall (fun e => step e = stage_tag s) l /\
    map entry_type l = take (length l) (log_kinds s) /\
    (stage_typed s ->
     exists p rest prompt,
       l = p :: rest /\ entry_type p = Kind.prompt /\
       content p
       = lit "Using Provider: " ++ provider_name (provider selection)
         ++ lit ", Model: " ++ model selection ++ nl ++ prompt) /\
    steps (snd (run_stage JS PROMPTS W selection keys s tr)) = steps tr.
Proof.
  destruct (CoreFacts.run_stage_reached JS PROMPTS W selection keys s tr)
    as (c & tr1 & Hc & ->).
  destruct (ReachedFacts.reached_frame _ _ _ _ _ _ _ _ Hc)
    as (Hs & (l & Hl & Htag & Hkinds & Hfirst & Hans) & _).
  assert (Hp : stage_typed s ->
               forall l', exists p rest prompt,
                 l ++ l' = p :: rest /\ entry_type p = Kind.prompt /\
                 content p
                 = lit "Using Provider: " ++ provider_name (provider selection)
                   ++ lit ", Model: " ++ model selection ++ nl ++ prompt).
  { intros Ht l'.
    destruct (Hfirst Ht) as (p & rest & -> & _ & Hk & _ & _ & prompt & Hcn).
    exists p, (rest ++ l'), prompt. auto. }
  assert (Hk2 : map entry_type l = take (length l) (log_kinds s)).
  { rewrite Hkinds.
    assert (Hle : (length l <= 2)%nat).
    { rewrite <- (length_map entry_type), Hkinds, length_take. simpl. lia. }
    destruct s; simpl; destruct l as [|? [|? [|? ?]]]; simpl in *;
      try reflexivity; lia. }
  destruct c as [e|response]; simpl.
  - exists l. repeat split; auto.
    intros Ht. specialize (Hp Ht []). now rewrite app_nil_r in Hp.
  - destruct (Hans response eq_refl) as (p & q & -> & _).
    destruct (stage_finish JS W s response tr1) as [oe tr'] eqn:Ef.
    apply FinishFacts.stage_finish_effect in Ef
      as (Hs' & _ & _ & (l3 & Hl3 & Hcase) & _).
    simpl. exists ([p; q] ++ l3). rewrite Hl3, Hl, <- app_assoc.
    split; [reflexivity|]. split; [|split; [|split]].
    + apply Forall_app. split; [exact Htag|].
      destruct Hcase as [->|(e & -> & He & _)]; repeat constructor; auto.
    + destruct Hcase as [->|(e & -> & _ & He)].
      * destruct s; simpl in Hk2 |- *; injection Hk2 as -> ->; reflexivity.
      * destruct s; simpl in Hk2, He |- *; try discriminate;
          injection Hk2 as -> ->; injection He as ->; reflexivity.
    + intros Ht. apply (Hp Ht).
    + congruence.
Qed.

(** X12: The log shows what a stage went on with.  When the Analyst or the
    Auditor returns a value, the last entry of the log is the stage's
    response entry and the value is what [JSON.parse] makes of its
    content; when the Architect returns a text, that text is the content
    of the last entry, and it holds no fence delimiter. *)
Theorem X12_response_logged (JS : Platform) (PROMPTS : PromptTemplates) (W : World)
    (selection : ModelSelection) (keys : ApiKeys) :
  (forall code tr plan tr',
      runAnalyst JS PROMPTS W selection keys code tr = (inr plan, tr') ->
      exists earlier e,
        logs tr' = earlier ++ [e] /\ step e = ANALYST /\
        entry_type e = Kind.response /\
        JSON_parse JS (content e) = inr plan) /\
  (forall plan ctx tr arch tr',
      runArchitect JS PROMPTS W selection keys plan ctx tr = (inr arch, tr') ->
      exists earlier e,
        logs tr' = earlier ++ [e] /\ step e = ARCHITECT /\
        entry_type e = Kind.response /\
        content e = arch /\ has_fence arch = false) /\
  (forall orig gen tr v tr',
      runAuditor JS PROMPTS W selection keys orig gen tr = (inr v, tr') ->
      exists earlier e,
        logs tr' = earlier ++ [e] /\ step e = AUDITOR /\
        entry_type e = Kind.response /\
        JSON_parse JS (content e) = inr v).
Proof.
  split; [|split].
  - intros code tr plan tr' H.
    destruct (CoreFacts.runAnalyst_reached JS PROMPTS W selection keys code tr)
      as (c & tr1 & Hc & Hr).
    rewrite Hr in H. destruct c as [e|response]; [discriminate|].
    destruct (ReachedFacts.reached_frame _ _ _ _ _ _ _ _ Hc)
      as (_ & (l & Hl & _ & _ & _ & Hans) & _).
    destruct (Hans response eq_refl) as (p & q & -> & Hq).
    destruct Hq as (Hs & Hk & Hcn & _).
    revert H. unfold analyst_finish.
    destruct (JSON_parse JS _) as [message|v] eqn:Hp; run; [discriminate|].
    intros [= <- <-]. exists (logs tr ++ [p]), q.
    rewrite Hl, <- app_assoc. rewrite Hcn. auto.
  - intros plan ctx tr arch tr' H.
    destruct (CoreFacts.runArchitect_reached JS PROMPTS W selection keys plan
                ctx tr) as (c & tr1 & Hc & Hr).
    rewrite Hr in H. destruct c as [e|response]; [discriminate|].
    destruct (ReachedFacts.reached_frame _ _ _ _ _ _ _ _ Hc)
      as (_ & (l & Hl & _ & _ & _ & Hans) & _).
    destruct (Hans response eq_refl) as (p & q & -> & Hq).
    destruct Hq as (Hs & Hk & Hcn & _).
    injection H as <- <-. exists (logs tr ++ [p]), q.
    rewrite Hl, <- app_assoc. repeat split; auto.
    apply CleanFacts.clean_no_fence.
  - intros orig gen tr v tr' H.
    destruct (CoreFacts.runAuditor_reached JS PROMPTS W selection keys orig gen
                tr) as (c & tr1 & Hc & Hr).
    rewrite Hr in H. destruct c as [e|response]; [discriminate|].
    destruct (ReachedFacts.reached_frame _ _ _ _ _ _ _ _ Hc)
      as (_ & (l & Hl & _ & _ & _ & Hans) & _).
    destruct (Hans response eq_refl) as (p & q & -> & Hq).
    destruct Hq as (Hs & Hk & Hcn & _).
    revert H. unfold auditor_finish.
    destruct (JSON_parse JS _) as [message|w] eqn:Hp; run; [discriminate|].
    intros [= <- <-]. exists (logs tr ++ [p]), q.
    rewrite Hl, <- app_assoc. rewrite Hcn. auto.
Qed.

(** X13: The Coder never returns an empty file map: when it returns, the map
    holds a file, one request was sent, and nothing went to the
    console. *)
Theorem X13_coder_never_empty (JS : Platform) (PROMPTS : PromptTemplates)
    (W : World) (selection : ModelSelection) (keys : ApiKeys) (plan : value)
    (arch : jsstring) (ctx : FileMap) (tr : Trace) (files : FileMap)
    (tr' : Trace) :
  runCoder JS PROMPTS W selection keys plan arch ctx tr = (inr files, tr') ->
  files <> [] /\
  length (requests tr') = S (length (requests tr)) /\
  console tr' = console tr.
Proof.
  intros H.
  destruct (CoreFacts.runCoder_reached JS PROMPTS W selection keys plan arch
              ctx tr) as (c & tr1 & Hc & Hr).
  rewrite Hr in H. destruct c as [e|response]; [discriminate|].
  destruct (ReachedFacts.reached_frame _ _ _ _ _ _ _ _ Hc)
    as (_ & _ & (q & Hq & _ & _ & Hone) & (lines & Hcn & _ & Hnone)).
  apply FinishFacts.extract_files_effect in H as (_ & Hq' & Hc' & _ & Hne).
  split; [exact Hne|].
  rewrite Hq', Hq, Hc', Hcn, length_app, (Hone response eq_refl),
    (Hnone response eq_refl), app_nil_r.
  split; [lia | reflexivity].
Qed.

(** On a response with three files. *)
Lemma X13_coder_never_empty_witness :
  exists files tr',
    runCoder Fixture.platform Fixture.prompts
      (Fixture.world (fun _ => Fixture.three_files)) Fixture.flash
      Fixture.keys VNull (lit "plan")
      [(main_legacy, VStr Fixture.legacy_code)] empty_trace
    = (inr files, tr') /\
    files <> [] /\ length (requests tr') = 1%nat.
Proof.
  pose (run := runCoder Fixture.platform Fixture.prompts
                 (Fixture.world (fun _ => Fixture.three_files)) Fixture.flash
                 Fixture.keys VNull (lit "plan")
                 [(main_legacy, VStr Fixture.legacy_code)] empty_trace).
  assert (E : exists files, run = (inr files, snd run)).
  { eexists. vm_compute. reflexivity. }
  destruct E as [files E]. exists files, (snd run). split; [exact E|].
  unfold run in E |- *.
  destruct (X13_coder_never_empty _ _ _ _ _ _ _ _ _ _ _ E) as (Hne & Hq & _).
  split; [exact Hne | exact Hq].
Defined.

(** ** The tolerant extraction *)

Module FallbackFacts.
Import Str.

Lemma span_forallb p s a b : span p s = (a, b) -> forallb p a = true.
Proof.
  revert a b. induction s as [|c t IH]; intros a b; simpl.
  - intros [= <- _]. reflexivity.
  - destruct (p c) eqn:Hc.
    + destruct (span p t) as [a' b'] eqn:E. intros [= <- _]. simpl.
      rewrite Hc. simpl. eapply IH. reflexivity.
    + intros [= <- _]. reflexivity.
Qed.

Lemma name_char_no_space c : is_name_char c = true -> is_white_space c = false.
Proof.
  unfold is_name_char, is_white_space. intros H.
  apply not_true_iff_false. intros W. revert H W.
  rewrite !orb_true_iff, !andb_true_iff, !N.leb_le, !N.eqb_eq. lia.
Qed.

Lemma trimStart_id s :
  forallb (fun c => negb (is_white_space c)) s = true -> trimStart s = s.
Proof.
  destruct s as [|c t]; simpl; [reflexivity|].
  rewrite andb_true_iff, negb_true_iff. now intros [-> _].
Qed.

Lemma trimEnd_id s :
  forallb (fun c => negb (is_white_space c)) s = true -> trimEnd s = s.
Proof.
  induction s as [|c t IH]; simpl; [reflexivity|].
  rewrite andb_true_iff, negb_true_iff. intros [Hc Ht].
  rewrite (IH Ht). destruct t; [now rewrite Hc | reflexivity].
Qed.

Lemma trim_name s : forallb is_name_char s = true -> trim s = s.
Proof.
  intros H.
  assert (K : forallb (fun c => negb (is_white_space c)) s = true).
  { rewrite forallb_forall in H |- *. intros c Hc.
    now rewrite (name_char_no_space c (H c Hc)). }
  unfold trim. now rewrite (trimStart_id s K), (trimEnd_id s K).
Qed.

(** Before the first fence there is no fence. *)
Lemma no_fence_before k s :
  index_of fence s = Some k -> has_fence (take k s) = false.
Proof.
  revert k. induction s as [|c t IH]; intros k.
  - vm_compute. discriminate.
  - cbn [index_of]. destruct (starts_with fence (c :: t)) eqn:Hs.
    + intros [= <-]. reflexivity.
    + destruct (index_of fence t) as [j|] eqn:Ej; [|discriminate].
      intros [= <-]. change (take (S j) (c :: t)) with (c :: take j t).
      unfold has_fence. cbn [occurs].
      assert (Hm : match_fence (c :: take j t) = None).
      { apply CleanFacts.match_fence_None.
        destruct (starts_with fence (c :: take j t)) eqn:Hp; [|reflexivity].
        apply (StrFacts.starts_with_prefix _ _ (drop j t)) in Hp.
        change ((c :: take j t) ++ drop j t) with (c :: (take j t ++ drop j t))
          in Hp.
        rewrite take_drop in Hp. congruence. }
      rewrite Hm. apply (IH j eq_refl).
Qed.

Lemma match_file_block_spec s n name body :
  match_file_block s = Some (n, name, body) ->
  name <> [] /\ forallb is_name_char name = true /\ has_fence body = false.
Proof.
  unfold match_file_block.
  destruct (starts_with (lit "###") s); [|discriminate].
  destruct (span is_white_space (drop 3 s)) as [w1 r1].
  destruct (span is_name_char r1) as [nm r2] eqn:En.
  destruct (span is_white_space r2) as [w2 r3].
  destruct (truthy w1 && truthy nm && truthy w2 && starts_with fence r3)
    eqn:Hc; [|discriminate].
  match goal with
  | |- context [span is_white_space ?x] =>
      destruct (span is_white_space x) as [w3 r4]
  end.
  destruct (index_of fence r4) as [k|] eqn:Ek; [|discriminate].
  intros [= _ <- <-].
  rewrite !andb_true_iff in Hc. destruct Hc as [[[_ Hn] _] _].
  split; [destruct nm; [discriminate | discriminate]|].
  split; [eapply span_forallb, En | now apply no_fence_before].
Qed.

Lemma exec_all_spec skip s :
  Forall (fun m => fst m <> [] /\ forallb is_name_char (fst m) = true /\
                   has_fence (snd m) = false) (exec_all skip s).
Proof.
  revert skip. induction s as [|c t IH]; intros skip; simpl; [constructor|].
  destruct skip as [|k]; [|apply IH].
  destruct (match_file_block (c :: t)) as [[[n name] body]|] eqn:E; [|apply IH].
  destruct n as [|n]; [apply IH|].
  constructor; [|apply IH]. simpl. eapply match_file_block_spec, E.
Qed.

Section Pairs.
Context {V : Type} (P : jsstring * V -> Prop).

Lemma Forall_pair_assign k v o :
  P (k, v) -> Forall P o -> Forall P (Obj.assign k v o).
Proof.
  intros Hv Ho. unfold Obj.assign.
  destruct (decide (k = Obj.proto_key)); [exact Ho|].
  unfold Obj.define. destruct (Obj.get k o).
  - induction Ho as [|[k' v'] o Hx Ho IH]; simpl; [constructor|].
    destruct (decide (k' = k)); constructor; auto.
  - destruct (Obj.array_index k) as [i|].
    + induction Ho as [|[k' v'] o Hx Ho IH]; simpl.
      * repeat constructor. exact Hv.
      * destruct (Obj.array_index k') as [j|]; [destruct (j <? i)|];
          repeat (constructor; auto).
    + apply Forall_app. split; [exact Ho|]. repeat constructor. exact Hv.
Qed.

End Pairs.

Lemma assign_length {V} k (v : V) o :
  (length o <= length (Obj.assign k v o))%nat.
Proof.
  unfold Obj.assign. destruct (decide (k = Obj.proto_key)); [lia|].
  rewrite ObjFacts.length_define. destruct (Obj.get k o); lia.
Qed.

Lemma regex_fallback_length text (fileMap : FileMap) :
  (length fileMap <= length (regex_fallback text fileMap))%nat.
Proof.
  unfold regex_fallback. generalize (exec_all 0 text). intros l.
  revert fileMap. induction l as [|m l IH]; intros fileMap; simpl; [lia|].
  etransitivity; [|apply IH]. apply assign_length.
Qed.

End FallbackFacts.

(** X14: What the fallback pattern can find.  In the file map the fallback
    builds, every name is a non-empty run of letters, digits and the
    characters [_ - . /], and every content is a string that neither
    begins nor ends with white space and holds no fence delimiter. *)
Theorem X14_fallback_entries (text : jsstring) :
  Forall (fun kv =>
            fst kv <> [] /\ forallb is_name_char (fst kv) = true /\
            exists c, snd kv = VStr c /\ Str.trim c = c /\ has_fence c = false)
    (regex_fallback text []).
Proof.
  unfold regex_fallback.
  pose proof (FallbackFacts.exec_all_spec 0 text) as H.
  revert H. generalize (exec_all 0 text). intros l Hl.
  assert (G : forall fileMap : FileMap,
    Forall (fun kv =>
              fst kv <> [] /\ forallb is_name_char (fst kv) = true /\
              exists c, snd kv = VStr c /\ Str.trim c = c /\
                        has_fence c = false) fileMap ->
    Forall (fun kv =>
              fst kv <> [] /\ forallb is_name_char (fst kv) = true /\
              exists c, snd kv = VStr c /\ Str.trim c = c /\
                        has_fence c = false)
      (fold_left
         (fun fileMap m =>
            Obj.assign (Str.trim (fst m)) (VStr (Str.trim (snd m))) fileMap)
         l fileMap)).
  { induction Hl as [|[name body] l (Hn & Hc & Hf) Hl IH]; intros fileMap Hm;
      [exact Hm|].
    simpl. apply IH. simpl in Hn, Hc, Hf.
    apply FallbackFacts.Forall_pair_assign; [|exact Hm].
    simpl. rewrite (FallbackFacts.trim_name name Hc).
    repeat split; auto. eexists. split; [reflexivity|].
    split; [apply StrFacts.trim_idem | now apply CleanFacts.has_fence_trim]. }
  apply G. constructor.
Qed.

(** X15: The fallback after a parse failure.  When the cleaned response does
    not parse and the pattern finds a file, the extraction logs one
    [info] entry that names the [SyntaxError] and returns the files the
    pattern found; it sends no request. *)
Theorem X15_fallback_after_parse_failure (JS : Platform) (W : World)
    (text message : jsstring) (tr : Trace) :
  JSON_parse JS (cleanLlmOutput text) = inl message ->
  regex_fallback text [] <> [] ->
  exists entry tr',
    extract_files JS W text tr = (inr (regex_fallback text []), tr') /\
    logs tr' = logs tr ++ [entry] /\
    step entry = CODER /\ entry_type entry = Kind.info /\
    content entry
    = lit "Coder JSON Parse Failed: " ++ exn_toString JS (SyntaxError message)
      ++ lit ". Attempting Regex Fallback." /\
    requests tr' = requests tr.
Proof.
  intros Hp Hne. unfold extract_files, strict_extraction. rewrite Hp. run.
  unfold fallback_runs. cbn [negb orb].
  destruct (regex_fallback text []) as [|kv rest]; [congruence|].
  cbn [length Nat.eqb]. run.
  do 2 eexists. split; [reflexivity|]. simpl. auto 10.
Qed.

(** On a response in Markdown. *)
Lemma X15_fallback_after_parse_failure_witness :
  exists tr',
    extract_files Scenario.platform (Fixture.world (fun _ => []))
      Scenario.markdown empty_trace
    = (inr [(lit "app/main.py", VStr (lit "print(1)"))], tr').
Proof.
  destruct (X15_fallback_after_parse_failure Scenario.platform
              (Fixture.world (fun _ => [])) Scenario.markdown
              (lit "Unexpected token") empty_trace)
    as (entry & tr' & H & _).
  - vm_compute. reflexivity.
  - vm_compute. discriminate.
  - exists tr'. rewrite H. f_equal.
Defined.

Module NullEntryFacts.
Section NullEntryFacts.
Variable JS : Platform.

Lemma forEach_files_app pre post fileMap fileMap' :
  forEach_files JS pre fileMap = (fileMap', None) ->
  forEach_files JS (pre ++ post) fileMap = forEach_files JS post fileMap'.
Proof.
  revert fileMap. induction pre as [|f pre IH]; intros fileMap; simpl.
  - now intros [= ->].
  - destruct (add_file JS fileMap f) as [e|m]; [discriminate | apply IH].
Qed.

End NullEntryFacts.
End NullEntryFacts.

(** X16: A [null] among the file entries.  Reading the [filename] of a
    [null] entry raises inside the [try] block: the entries before it
    stay in the file map, the entries behind it are never looked at, and
    strict extraction counts as failed, so that the fallback runs on top
    of what is there; with a file in the map the stage returns, after
    logging one [info] entry. *)
Theorem X16_null_entry_stops_strict_extraction (JS : Platform) (W : World)
    (text : jsstring) (parsed : value) (pre post : list value)
    (fileMap : FileMap) (tr : Trace) :
  JSON_parse JS (cleanLlmOutput text) = inr parsed ->
  get_prop parsed (lit "files") = inr (VArr (pre ++ VNull :: post)) ->
  forEach_files JS pre [] = (fileMap, None) ->
  strict_extraction JS text
  = (fileMap, false, Some (TypeError (lit "filename"))) /\
  (fileMap <> [] ->
   exists entry tr',
     extract_files JS W text tr = (inr (regex_fallback text fileMap), tr') /\
     logs tr' = logs tr ++ [entry] /\ entry_type entry = Kind.info /\
     (length fileMap <= length (regex_fallback text fileMap))%nat).
Proof.
  intros Hp Hf Hpre.
  assert (Hs : strict_extraction JS text
               = (fileMap, false, Some (TypeError (lit "filename")))).
  { unfold strict_extraction. rewrite Hp, Hf.
    rewrite (NullEntryFacts.forEach_files_app JS pre (VNull :: post) _ _ Hpre).
    reflexivity. }
  split; [exact Hs|]. intros Hne.
  unfold extract_files. rewrite Hs. run.
  unfold fallback_runs. cbn [negb orb].
  pose proof (FallbackFacts.regex_fallback_length text fileMap) as Hlen.
  destruct (regex_fallback text fileMap) as [|kv rest] eqn:E.
  { destruct fileMap; [congruence | simpl in Hlen; lia]. }
  cbn [length Nat.eqb]. run.
  do 2 eexists. split; [reflexivity|]. simpl. auto.
Qed.

(** On a response whose second entry is [null]: the first file is kept,
    the third is lost. *)
Lemma X16_null_entry_stops_strict_extraction_witness :
  strict_extraction Scenario.platform Scenario.null_entry
  = ([(lit "a.py", VStr (lit "x"))], false, Some (TypeError (lit "filename"))).
Proof.
  apply (X16_null_entry_stops_strict_extraction Scenario.platform
           (Fixture.world (fun _ => [])) Scenario.null_entry
           (VObj [(lit "files",
                   VArr [Fixture.file_value "a.py" "x"; VNull;
                         Fixture.file_value "c.py" "z"])])
           [Fixture.file_value "a.py" "x"] [Fixture.file_value "c.py" "z"]
           [(lit "a.py", VStr (lit "x"))] empty_trace);
    vm_compute; reflexivity.
Defined.

(** ** Credentials *)

Module KeyFacts.

Lemma keep_truthy_kept d k : keep_truthy d = Some k -> keep_truthy (Some k) = Some k.
Proof.
  destruct d as [j|]; simpl; [|discriminate].
  destruct (Str.truthy j) eqn:Hj; [|discriminate].
  intros [= <-]. now rewrite Hj.
Qed.

Lemma served_key W selection keys call :
  served W selection keys call ->
  no_key (resolveApiKey W (provider selection) (Some keys)) = false.
Proof.
  intros (_ & _ & -> & Hne). unfold no_key, keep_truthy.
  destruct (call_key call); [congruence | reflexivity].
Qed.

Lemma no_stored_key_iff W p :
  no_key (getStoredApiKey W p) = true <->
  has_window W = false \/
  (keep_truthy (localStorage W !! storage_key p) = None /\
   keep_truthy (env W !! env_key p) = None).
Proof.
  unfold no_key, getStoredApiKey. fold (storage_key p).
  destruct (has_window W); simpl.
  - destruct (keep_truthy (localStorage W !! storage_key p)) as [k|] eqn:E.
    + rewrite (keep_truthy_kept _ _ E).
      split; [discriminate|]. intros [|[? _]]; discriminate.
    + destruct p; simpl;
        match goal with
        | |- context [keep_truthy ?x] => destruct (keep_truthy x)
        end; split; auto; try discriminate; intros [|[_ ?]]; discriminate.
  - split; auto.
Qed.

Lemma no_key_iff W p keys :
  no_key (resolveApiKey W p (Some keys)) = true <->
  session_key keys p = [] /\
  (has_window W = false \/
   (keep_truthy (localStorage W !! storage_key p) = None /\
    keep_truthy (env W !! env_key p) = None)).
Proof.
  rewrite <- no_stored_key_iff.
  destruct (session_key keys p) as [|c t] eqn:E.
  - rewrite RunFacts.resolve_stored by exact E. tauto.
  - rewrite RunFacts.resolve_session by (rewrite E; reflexivity).
    rewrite E. split; [discriminate|]. intros [? _]. discriminate.
Qed.

End KeyFacts.

(** X17: When a stage asks for a key.  A stage whose file maps hold strings
    fails with its [Missing API Key] error exactly when the key entered
    for its provider is empty and either there is no [window], or
    neither the provider's entry in [localStorage] nor the provider's
    environment variable holds a non-empty string.  Without a [window]
    the environment is not looked at. *)
Theorem X17_missing_key_exactly_when (JS : Platform) (PROMPTS : PromptTemplates)
    (W : World) (selection : ModelSelection) (keys : ApiKeys) (s : Stage)
    (tr : Trace) :
  stage_typed s ->
  (fst (run_stage JS PROMPTS W selection keys s tr)
   = Some (Error (missing (stage_tag s) (provider selection)))
   <->
   session_key keys (provider selection) = [] /\
   (has_window W = false \/
    (keep_truthy (localStorage W !! storage_key (provider selection)) = None /\
     keep_truthy (env W !! env_key (provider selection)) = None))).
Proof.
  intros Ht. rewrite <- KeyFacts.no_key_iff.
  destruct (CoreFacts.run_stage_reached JS PROMPTS W selection keys s tr)
    as (c & tr1 & Hc & ->).
  destruct (ReachedFacts.missing_head (stage_tag s) (provider selection))
    as [t Hm].
  split.
  - destruct c as [e|response]; simpl.
    + intros [= ->].
      apply ReachedFacts.reached_failure in Hc
        as [(w & Hw & _)|[(_ & Hk & _)|(d & Hd)]].
      * discriminate.
      * exact Hk.
      * exfalso. rewrite Hm in Hd. revert Hd.
        unfold client_error_message, google_error_message,
          openrouter_error_message.
        destruct (provider selection); cbn; discriminate.
    + destruct (stage_finish JS W s response tr1) as [oe tr'] eqn:Ef.
      simpl. intros ->.
      apply FinishFacts.stage_finish_effect in Ef as (_ & _ & _ & _ & Hf).
      exfalso. rewrite Hm in Hf.
      destruct Hf as [[_ Hf]|[[_ Hf]|(_ & m & Hf)]]; revert Hf;
        vm_compute; discriminate.
  - intros Hk.
    destruct Hc as [w Hn|p tr1 _ _ _ _ _ _
                   |p call cause detail tr1 _ Hv _ _ _ _
                   |p q call response tr1 _ Hv _ _ _ _ _].
    + contradiction.
    + reflexivity.
    + apply KeyFacts.served_key in Hv. congruence.
    + apply KeyFacts.served_key in Hv. congruence.
Qed.

(** Without a [window], a key in the environment does not help. *)
Lemma X17_missing_key_exactly_when_witness :
  fst (run_stage Fixture.platform Fixture.prompts Scenario.server Fixture.flash
         Fixture.no_keys
         (Architect VNull [(main_legacy, VStr Fixture.legacy_code)])
         empty_trace)
  = Some (Error (missing_key google)).
Proof.
  apply (X17_missing_key_exactly_when Fixture.platform Fixture.prompts
           Scenario.server Fixture.flash Fixture.no_keys
           (Architect VNull [(main_legacy, VStr Fixture.legacy_code)])
           empty_trace).
  - repeat constructor. simpl. eauto.
  - split; [reflexivity | left; reflexivity].
Defined.

(** ** The whole migration *)

Module MigrationFacts.
Section MigrationFacts.
Variable JS : Platform.
Variable PROMPTS : PromptTemplates.
Variable W : World.

Lemma value_or_truthy a b : ToBoolean b = true -> ToBoolean (value_or a b) = true.
Proof. unfold value_or. destruct (ToBoolean a) eqn:E; auto. Qed.

(** A stage inside [completeMigration]: what it adds to the trace. *)
Lemma reached_added selection keys tag typed tr c tr1 :
  reached W selection keys tag typed tr c tr1 ->
  steps tr1 = steps tr /\
  (exists q, requests tr1 = requests tr ++ q /\ (length q <= 1)%nat /\
             Forall (served W selection keys) q /\
             (forall response, c = inr response -> length q = 1%nat)) /\
  (forall response, c = inr response -> console tr1 = console tr).
Proof.
  intros H.
  destruct (ReachedFacts.reached_frame _ _ _ _ _ _ _ _ H)
    as (Hs & _ & Hq & (lines & Hc & _ & Hn)).
  split; [exact Hs|]. split; [exact Hq|].
  intros r Hr. rewrite Hc, (Hn r Hr). apply app_nil_r.
Qed.

Lemma one_call {A} (q : list A) : length q = 1%nat -> exists c, q = [c].
Proof. destruct q as [|c [|? ?]]; try discriminate. eauto. Qed.

(** Every run of [completeMigration]: how far it got, what it reported
    and what it sent. *)
Lemma completeMigration_outcome plan ctx config keys tr res tr' :
  completeMigration JS PROMPTS W plan ctx config keys tr = (res, tr') ->
  exists k q,
    (1 <= k <= 4)%nat /\
    steps tr'
    = steps tr ++ take k migration_steps
      ++ match res with inl _ => [ERROR] | inr _ => [] end /\
    requests tr' = requests tr ++ q /\ (length q <= Nat.min k 3)%nat /\
    match res with
    | inl e =>
        (k = 4%nat -> exists w, e = TypeError w) /\
        exists earlier,
          console tr' = earlier ++ [(lit "Migration Completion Failed:", e)]
    | inr r =>
        k = 4%nat /\
        (exists c1 c2 c3,
            q = [c1; c2; c3] /\
            served W (cfg_ARCHITECT config) keys c1 /\
            served W (cfg_CODER config) keys c2 /\
            served W (cfg_AUDITOR config) keys c3) /\
        console tr' = console tr /\
        generatedFiles r <> [] /\
        ToBoolean (securityReport r) = true /\
        ToBoolean (auditorComments r) = true
    end.
Proof.
  unfold completeMigration. run.
  match goal with
  | |- context [runArchitect JS PROMPTS W ?s ?k ?p ?c ?t] =>
      destruct (CoreFacts.runArchitect_reached JS PROMPTS W s k p c t)
        as (c1 & t1 & H1 & ->)
  end.
  apply reached_added in H1 as (Hs1 & (q1 & Hq1 & Hl1 & Hv1 & Ho1) & Hc1).
  cbn [logs steps requests console ticks] in *.
  destruct c1 as [e1|r1]; run.
  { intros [= <- <-]. exists 1%nat, q1. simpl.
    rewrite Hs1, Hq1, <- app_assoc.
    repeat split; auto; try lia; try discriminate. eauto. }
  match goal with
  | |- context [runCoder JS PROMPTS W ?s ?k ?p ?a ?c ?t] =>
      destruct (CoreFacts.runCoder_reached JS PROMPTS W s k p a c t)
        as (c2 & t2 & H2 & ->)
  end.
  apply reached_added in H2 as (Hs2 & (q2 & Hq2 & Hl2 & Hv2 & Ho2) & Hc2).
  cbn [logs steps requests console ticks] in *.
  destruct c2 as [e2|r2]; run.
  { intros [= <- <-]. exists 2%nat, (q1 ++ q2). simpl.
    rewrite Hs2, Hs1, Hq2, Hq1, <- !app_assoc, length_app.
    repeat split; auto; try lia; try discriminate. eauto. }
  destruct (extract_files JS W _ t2) as [[e2|files] t2'] eqn:E2;
    apply FinishFacts.extract_files_effect in E2
      as (Hs2' & Hq2' & Hc2' & _ & Hf2); run.
  { intros [= <- <-]. exists 2%nat, (q1 ++ q2). simpl.
    rewrite Hs2', Hs2, Hs1, Hq2', Hq2, Hq1, <- !app_assoc, length_app.
    repeat split; auto; try lia; try discriminate. eauto. }
  match goal with
  | |- context [runAuditor JS PROMPTS W ?s ?k ?o ?g ?t] =>
      destruct (CoreFacts.runAuditor_reached JS PROMPTS W s k o g t)
        as (c3 & t3 & H3 & ->)
  end.
  apply reached_added in H3 as (Hs3 & (q3 & Hq3 & Hl3 & Hv3 & Ho3) & Hc3).
  cbn [logs steps requests console ticks] in *.
  destruct c3 as [e3|r3]; run.
  { intros [= <- <-]. exists 3%nat, (q1 ++ q2 ++ q3). simpl.
    rewrite Hs3, Hs2', Hs2, Hs1, Hq3, Hq2', Hq2, Hq1, <- !app_assoc,
      !length_app.
    repeat split; auto; try lia; try discriminate. eauto. }
  unfold auditor_finish.
  destruct (JSON_parse JS _) as [message|audit]; run.
  { intros [= <- <-]. exists 3%nat, (q1 ++ q2 ++ q3). simpl.
    rewrite Hs3, Hs2', Hs2, Hs1, Hq3, Hq2', Hq2, Hq1, <- !app_assoc,
      !length_app.
    repeat split; auto; try lia; try discriminate. eauto. }
  specialize (Ho1 r1 eq_refl). specialize (Ho2 r2 eq_refl).
  specialize (Ho3 r3 eq_refl).
  destruct (get_prop audit (lit "security_issues")) as [e4|si] eqn:E4; run.
  { intros [= <- <-]. exists 4%nat, (q1 ++ q2 ++ q3). simpl.
    rewrite Hs3, Hs2', Hs2, Hs1, Hq3, Hq2', Hq2, Hq1, <- !app_assoc,
      !length_app.
    apply FailureFacts.get_prop_error in E4.
    repeat split; eauto; lia. }
  destruct (get_prop audit (lit "comments")) as [e5|cm] eqn:E5; run.
  { intros [= <- <-]. exists 4%nat, (q1 ++ q2 ++ q3). simpl.
    rewrite Hs3, Hs2', Hs2, Hs1, Hq3, Hq2', Hq2, Hq1, <- !app_assoc,
      !length_app.
    apply FailureFacts.get_prop_error in E5.
    repeat split; eauto; lia. }
  intros [= <- <-]. exists 4%nat, (q1 ++ q2 ++ q3). simpl.
  rewrite Hs3, Hs2', Hs2, Hs1, Hq3, Hq2', Hq2, Hq1, <- !app_assoc,
    !length_app.
  destruct (one_call q1 Ho1) as [a1 ->].
  destruct (one_call q2 Ho2) as [a2 ->].
  destruct (one_call q3 Ho3) as [a3 ->].
  inversion Hv1; inversion Hv2; inversion Hv3; subst.
  rewrite (Hc3 r3 eq_refl), Hc2', (Hc2 r2 eq_refl), (Hc1 r1 eq_refl).
  repeat split; auto; try (simpl; lia).
  - exists a1, a2, a3. auto.
  - apply value_or_truthy. reflexivity.
  - apply value_or_truthy. reflexivity.
Qed.

End MigrationFacts.
End MigrationFacts.

(** X18: A migration that succeeds.  When [completeMigration] returns a
    result it has reported [ARCHITECT], [CODER], [AUDITOR] and
    [COMPLETE], in this order and nothing else; it has sent three
    requests, one for each stage, each to the provider and for the model
    configured for that stage and with that provider's credential; it
    has written nothing to the console; and the result carries the Plan
    and the configuration it was given, at least one generated file, and
    a security report and auditor comments that are never missing. *)
Theorem X18_migration_success (JS : Platform) (PROMPTS : PromptTemplates)
    (W : World) (p : value) (ctx : FileMap) (config : ModelConfig)
    (keys : ApiKeys) (tr : Trace) (r : RefactorResult) (tr' : Trace) :
  completeMigration JS PROMPTS W p ctx config keys tr = (inr r, tr') ->
  steps tr' = steps tr ++ [ARCHITECT; CODER; AUDITOR; COMPLETE] /\
  (exists c1 c2 c3,
      requests tr' = requests tr ++ [c1; c2; c3] /\
      served W (cfg_ARCHITECT config) keys c1 /\
      served W (cfg_CODER config) keys c2 /\
      served W (cfg_AUDITOR config) keys c3) /\
  console tr' = console tr /\
  plan r = p /\ result_modelConfig r = config /\
  generatedFiles r <> [] /\
  ToBoolean (securityReport r) = true /\
  ToBoolean (auditorComments r) = true.
Proof.
  intros H.
  destruct (completeMigration_plan JS PROMPTS W _ _ _ _ _ _ _ H) as [Hp Hm].
  apply MigrationFacts.completeMigration_outcome in H
    as (k & q & _ & Hs & Hq & _ & -> & (c1 & c2 & c3 & -> & Hv) & Hc & Hr).
  rewrite Hs, Hq. simpl. rewrite ?app_nil_r.
  repeat split; auto; try apply Hr. exists c1, c2, c3. auto.
Qed.

(** On providers that answer the three stages in turn. *)
Lemma X18_migration_success_witness :
  exists r tr',
    completeMigration Scenario.platform Fixture.prompts
      (Fixture.world
         (Scenario.script [lit "Design."; Fixture.three_files; lit "{}"]))
      VNull [(main_legacy, VStr Fixture.legacy_code)] Fixture.config
      Fixture.keys empty_trace = (inr r, tr') /\
    steps tr' = [ARCHITECT; CODER; AUDITOR; COMPLETE] /\
    length (requests tr') = 3%nat.
Proof.
  pose (run := completeMigration Scenario.platform Fixture.prompts
                 (Fixture.world
                    (Scenario.script
                       [lit "Design."; Fixture.three_files; lit "{}"]))
                 VNull [(main_legacy, VStr Fixture.legacy_code)] Fixture.config
                 Fixture.keys empty_trace).
  assert (E : exists r, run = (inr r, snd run)).
  { eexists. vm_compute. reflexivity. }
  destruct E as [r E]. exists r, (snd run). split; [exact E|].
  destruct (X18_migration_success _ _ _ _ _ _ _ _ _ _ E)
    as (Hs & (c1 & c2 & c3 & Hq & _) & _).
  split; [exact Hs | now rewrite Hq].
Defined.

(** X19: A migration that fails.  When [completeMigration] fails it has
    reported the stages it began, in order, and then [ERROR]; it has
    sent at most one request for each stage it began; the error it
    raises is the last thing it wrote to the console; and when it fails
    after having reported [COMPLETE], the error is the [TypeError] of
    reading a field of an audit result that is [null]. *)
Theorem X19_migration_failure (JS : Platform) (PROMPTS : PromptTemplates)
    (W : World) (p : value) (ctx : FileMap) (config : ModelConfig)
    (keys : ApiKeys) (tr : Trace) (e : exn) (tr' : Trace) :
  completeMigration JS PROMPTS W p ctx config keys tr = (inl e, tr') ->
  exists k q,
    (1 <= k <= 4)%nat /\
    steps tr'
    = steps tr ++ take k [ARCHITECT; CODER; AUDITOR; COMPLETE] ++ [ERROR] /\
    requests tr' = requests tr ++ q /\ (length q <= Nat.min k 3)%nat /\
    (k = 4%nat -> exists w, e = TypeError w) /\
    exists earlier,
      console tr' = earlier ++ [(lit "Migration Completion Failed:", e)].
Proof.
  intros H.
  apply MigrationFacts.completeMigration_outcome in H
    as (k & q & Hk & Hs & Hq & Hl & Ht & Hc).
  exists k, q. auto 10.
Qed.

(** On an Auditor that answers [null]: [COMPLETE] is reported, and then
    [ERROR]. *)
Example complete_then_error :
  steps (snd (completeMigration Scenario.platform Fixture.prompts
                (Fixture.world
                   (Scenario.script
                      [lit "Design."; Fixture.three_files; lit "null"]))
                VNull [(main_legacy, VStr Fixture.legacy_code)] Fixture.config
                Fixture.keys empty_trace))
  = [ARCHITECT; CODER; AUDITOR; COMPLETE; ERROR].
Proof. vm_compute. reflexivity. Qed.

Lemma X19_migration_failure_witness :
  exists (k : nat) (q : list SdkCall),
    (1 <= k <= 4)%nat /\
    steps (snd (completeMigration Scenario.platform Fixture.prompts
                  (Fixture.world
                     (Scenario.script
                        [lit "Design."; Fixture.three_files; lit "null"]))
                  VNull [(main_legacy, VStr Fixture.legacy_code)]
                  Fixture.config Fixture.keys empty_trace))
    = take k [ARCHITECT; CODER; AUDITOR; COMPLETE] ++ [ERROR] /\
    (length q <= Nat.min k 3)%nat.
Proof.
  pose (run := completeMigration Scenario.platform Fixture.prompts
                 (Fixture.world
                    (Scenario.script
                       [lit "Design."; Fixture.three_files; lit "null"]))
                 VNull [(main_legacy, VStr Fixture.legacy_code)] Fixture.config
                 Fixture.keys empty_trace).
  assert (E : run = (inl (TypeError (lit "security_issues")), snd run)).
  { vm_compute. reflexivity. }
  destruct (X19_migration_failure _ _ _ _ _ _ _ _ _ _ E)
    as (k & q & Hk & Hs & _ & Hl & _).
  exists k, q. split; [exact Hk|]. split; [exact Hs | exact Hl].
Defined.

(** ** The handlers of the application *)

Module HandlerFacts.

Lemma or_else_not_empty s d : d <> [] -> Str.or_else s d <> [].
Proof. unfold Str.or_else. destruct s; simpl; [auto | discriminate]. Qed.

Lemma step_after s tr : analysisStep (setAnalysisStep s tr) = s.
Proof. unfold analysisStep, setAnalysisStep. simpl. apply last_last. Qed.

Section Spread.
Context {V : Type}.
Implicit Types (a b o : list (jsstring * V)) (k : jsstring) (v : V).

Lemma spread_cons a k v b :
  Obj.spread a ((k, v) :: b) = Obj.spread (Obj.define k v a) b.
Proof. reflexivity. Qed.

Lemma spread_other a b k :
  ~ In k (map fst b) -> Obj.get k (Obj.spread a b) = Obj.get k a.
Proof.
  revert a. induction b as [|[k0 v0] b IH]; intros a Hk; [reflexivity|].
  rewrite spread_cons, IH by (simpl in Hk; tauto).
  apply ObjFacts.get_define_ne. simpl in Hk. tauto.
Qed.

Lemma spread_get a b k v :
  NoDup (map fst b) -> In (k, v) b -> Obj.get k (Obj.spread a b) = Some v.
Proof.
  revert a. induction b as [|[k0 v0] b IH]; intros a Hnd Hin; [destruct Hin|].
  simpl in Hnd. apply NoDup_cons in Hnd as [Hk Hnd].
  rewrite spread_cons. destruct Hin as [[= -> ->]|Hin].
  - rewrite spread_other by (rewrite <- list_elem_of_In; exact Hk).
    apply ObjFacts.get_define_eq.
  - now apply IH.
Qed.

Lemma spread_inv a b k v :
  Obj.get k (Obj.spread a b) = Some v -> In (k, v) b \/ Obj.get k a = Some v.
Proof.
  revert a. induction b as [|[k0 v0] b IH]; intros a; [auto|].
  rewrite spread_cons. intros H. apply IH in H as [H|H]; [simpl; auto|].
  destruct (decide (k0 = k)) as [->|Hne].
  - rewrite ObjFacts.get_define_eq in H. injection H as ->. simpl. auto.
  - rewrite ObjFacts.get_define_ne in H by exact Hne. auto.
Qed.

Lemma spread_Forall (Q : V -> Prop) a b :
  Forall (fun kv => Q (snd kv)) a -> Forall (fun kv => Q (snd kv)) b ->
  Forall (fun kv => Q (snd kv)) (Obj.spread a b).
Proof.
  intros Ha Hb. revert a Ha.
  induction Hb as [|[k v] b Hv Hb IH]; intros a Ha; [exact Ha|].
  rewrite spread_cons. apply IH. now apply ObjFacts.Forall_define.
Qed.

(** A lookup in an object finds what the object holds under the key. *)
Lemma get_iff_In o k v :
  NoDup (map fst o) -> (Obj.get k o = Some v <-> In (k, v) o).
Proof.
  intros Hnd. split; [apply ObjMore.get_In | now apply ObjMore.In_get].
Qed.

(** Copying an object changes no lookup. *)
Lemma spread_copy o k :
  NoDup (map fst o) -> Obj.get k (Obj.spread [] o) = Obj.get k o.
Proof.
  intros Hnd. destruct (Obj.get k o) as [v|] eqn:E.
  - apply spread_get; [exact Hnd|]. now apply ObjMore.get_In.
  - rewrite spread_other; [reflexivity|]. now apply ObjMore.get_None.
Qed.

End Spread.
End HandlerFacts.

(** X20: [handleStartAnalysis] settles.  Started on non-blank input with a
    configuration, the handler never leaves the application processing:
    it ends waiting for dependencies with the dialog open and the Plan
    kept, or completed with a result on the code tab, or in error with a
    message to show that is not empty; a result and an error message are
    never both there. *)
Theorem X20_start_settles (JS : Platform) (PROMPTS : PromptTemplates) (W : World)
    (st : AppState) (tr : Trace) (config : ModelConfig) :
  Str.truthy (Str.trim (inputCode st)) = true ->
  modelConfig st = Some config ->
  let st' := fst (handleStartAnalysis JS PROMPTS W st tr) in
  let tr' := snd (handleStartAnalysis JS PROMPTS W st tr) in
  isProcessing (analysisStep tr') = false /\
  ((analysisStep tr' = WAITING_FOR_USER /\ showDependencyModal st' = true /\
    (exists p, partialPlan st' = Some p) /\
    result st' = None /\ error st' = None) \/
   (analysisStep tr' = COMPLETE /\ (exists r, result st' = Some r) /\
    activeTab st' = CODE /\ error st' = None /\ partialPlan st' = None) \/
   (analysisStep tr' = ERROR /\
    (exists msg, error st' = Some msg /\ msg <> []) /\
    result st' = None /\ partialPlan st' = None)).
Proof.
  intros Hin Hcfg. cbv zeta.
  assert (G : forall (s : AppState) (t : Trace),
    (analysisStep t = WAITING_FOR_USER /\ showDependencyModal s = true /\
     (exists p, partialPlan s = Some p) /\
     result s = None /\ error s = None) \/
    (analysisStep t = COMPLETE /\ (exists r, result s = Some r) /\
     activeTab s = CODE /\ error s = None /\ partialPlan s = None) \/
    (analysisStep t = ERROR /\
     (exists msg, error s = Some msg /\ msg <> []) /\
     result s = None /\ partialPlan s = None) ->
    isProcessing (analysisStep t) = false /\
    ((analysisStep t = WAITING_FOR_USER /\ showDependencyModal s = true /\
      (exists p, partialPlan s = Some p) /\
      result s = None /\ error s = None) \/
     (analysisStep t = COMPLETE /\ (exists r, result s = Some r) /\
      activeTab s = CODE /\ error s = None /\ partialPlan s = None) \/
     (analysisStep t = ERROR /\
      (exists msg, error s = Some msg /\ msg <> []) /\
      result s = None /\ partialPlan s = None))).
  { intros s t H. split; [|exact H].
    destruct H as [(-> & _)|[(-> & _)|(-> & _)]]; reflexivity. }
  apply G.
  unfold handleStartAnalysis. rewrite Hin, Hcfg.
  cbn [negb inputCode apiKeys].
  destruct (startAnalysis JS PROMPTS W _ _ _ _) as [[err|[p needsFiles]] tr1].
  - right. right. cbn [fst snd]. rewrite HandlerFacts.step_after.
    unfold failed. cbn [error result partialPlan].
    repeat split; auto. eexists. split; [reflexivity|].
    apply HandlerFacts.or_else_not_empty. discriminate.
  - destruct (ToBoolean needsFiles).
    + left. cbn [fst snd]. rewrite HandlerFacts.step_after.
      cbn [showDependencyModal partialPlan result error]. eauto 6.
    + destruct (completeMigration JS PROMPTS W _ _ _ _ tr1)
        as [[err|res] tr2] eqn:Em; cbn [fst snd].
      * right. right. rewrite HandlerFacts.step_after.
        unfold failed. cbn [error result partialPlan].
        repeat split; auto. eexists. split; [reflexivity|].
        apply HandlerFacts.or_else_not_empty. discriminate.
      * right. left.
        apply MigrationFacts.completeMigration_outcome in Em
          as (k & q & _ & Hs & _ & _ & -> & _).
        unfold finished. cbn [result activeTab error partialPlan].
        split; [|eauto]. unfold analysisStep. rewrite Hs.
        change (take 4 migration_steps ++ [])
          with ([ARCHITECT; CODER; AUDITOR] ++ [COMPLETE]).
        rewrite app_assoc. apply last_last.
Qed.

(** On a Plan that asks for [dep.php]: the application waits. *)
Lemma X20_start_settles_witness :
  isProcessing
    (analysisStep
       (snd (handleStartAnalysis Fixture.platform Fixture.prompts
               (Fixture.world
                  (Fixture.first_answer (Fixture.plan_json "dep.php")))
               Fixture.app empty_trace)))
  = false.
Proof.
  apply (X20_start_settles Fixture.platform Fixture.prompts
           (Fixture.world (Fixture.first_answer (Fixture.plan_json "dep.php")))
           Fixture.app empty_trace Fixture.config).
  - vm_compute. reflexivity.
  - reflexivity.
Defined.

(** X21: [handleDependencySubmit] settles.  With a Plan waiting and a
    configuration, submitting the dependencies closes the dialog and
    ends either completed, with a result for the Plan that was waiting
    shown on the code tab, or in error with a message that is not empty
    and the result left as it was; the first step reported is
    [ARCHITECT]: the Analyst is not run again. *)
Theorem X21_submit_settles (JS : Platform) (PROMPTS : PromptTemplates) (W : World)
    (files : FileMap) (st : AppState) (tr : Trace) (p : value)
    (config : ModelConfig) :
  partialPlan st = Some p -> ToBoolean p = true ->
  modelConfig st = Some config ->
  let st' := fst (handleDependencySubmit JS PROMPTS W files st tr) in
  let tr' := snd (handleDependencySubmit JS PROMPTS W files st tr) in
  showDependencyModal st' = false /\
  isProcessing (analysisStep tr') = false /\
  (exists rest, steps tr' = steps tr ++ ARCHITECT :: rest) /\
  ((analysisStep tr' = COMPLETE /\ activeTab st' = CODE /\
    exists r, result st' = Some r /\ plan r = p /\
              result_modelConfig r = config) \/
   (analysisStep tr' = ERROR /\ result st' = result st /\
    exists msg, error st' = Some msg /\ msg <> [])).
Proof.
  intros Hp Ht Hcfg. cbv zeta. unfold handleDependencySubmit.
  cbn [partialPlan modelConfig inputCode apiKeys]. rewrite Hp, Hcfg, Ht.
  destruct (completeMigration JS PROMPTS W p _ config (apiKeys st) tr)
    as [[err|res] tr2] eqn:Em; cbn [fst snd].
  - apply MigrationFacts.completeMigration_outcome in Em
      as (k & q & Hk & Hs & _).
    rewrite HandlerFacts.step_after. unfold failed.
    cbn [showDependencyModal error result].
    split; [reflexivity|]. split; [reflexivity|]. split.
    + unfold setAnalysisStep. simpl. rewrite Hs.
      destruct k as [|k]; [lia|]. simpl. rewrite <- !app_assoc. simpl. eauto.
    + right. split; [reflexivity|]. split; [reflexivity|].
      eexists. split; [reflexivity|].
      apply HandlerFacts.or_else_not_empty. discriminate.
  - destruct (completeMigration_plan JS PROMPTS W _ _ _ _ _ _ _ Em) as [Hpl Hm].
    apply MigrationFacts.completeMigration_outcome in Em
      as (k & q & _ & Hs & _ & _ & -> & _).
    assert (Hl : analysisStep tr2 = COMPLETE).
    { unfold analysisStep. rewrite Hs.
      change (take 4 migration_steps ++ [])
        with ([ARCHITECT; CODER; AUDITOR] ++ [COMPLETE]).
      rewrite app_assoc. apply last_last. }
    unfold finished. cbn [showDependencyModal result activeTab].
    rewrite Hl. split; [reflexivity|]. split; [reflexivity|]. split.
    + rewrite Hs. simpl. eauto.
    + left. eauto 6.
Qed.

(** X22: The context the resume runs on.  The file map
    [handleDependencySubmit] builds holds every supplied file under its
    name, the input code under [main.legacy] unless a supplied file has
    that name, and nothing else; when the supplied contents are strings,
    the first thing logged is the Architect's prompt built from the
    waiting Plan and that file map. *)
Theorem X22_dependency_context (JS : Platform) (PROMPTS : PromptTemplates)
    (W : World) (files : FileMap) (st : AppState) (tr : Trace) (p : value)
    (config : ModelConfig) :
  partialPlan st = Some p -> ToBoolean p = true ->
  modelConfig st = Some config ->
  NoDup (map fst files) -> all_strings files ->
  let ctx := Obj.spread [(main_legacy, VStr (inputCode st))] files in
  (forall k v, In (k, v) files -> Obj.get k ctx = Some v) /\
  (Obj.get main_legacy files = None ->
   Obj.get main_legacy ctx = Some (VStr (inputCode st))) /\
  (forall k v, Obj.get k ctx = Some v ->
               In (k, v) files \/ (k = main_legacy /\ v = VStr (inputCode st))) /\
  exists contextStr entry rest,
    render (context_line JS) ctx = inr contextStr /\
    logs (snd (handleDependencySubmit JS PROMPTS W files st tr))
    = logs tr ++ entry :: rest /\
    step entry = ARCHITECT /\ entry_type entry = Kind.prompt /\
    content entry
    = using_provider (cfg_ARCHITECT config)
        (PROMPTS_ARCHITECT PROMPTS p contextStr).
Proof.
  intros Hp Ht Hcfg Hnd Hall. cbv zeta.
  set (ctx := Obj.spread [(main_legacy, VStr (inputCode st))] files).
  assert (Hctx : all_strings ctx).
  { apply (HandlerFacts.spread_Forall (fun v => exists s, v = VStr s));
      [|exact Hall].
    repeat constructor. simpl. eauto. }
  split; [|split; [|split]].
  - intros k v Hin. now apply HandlerFacts.spread_get.
  - intros Hn. unfold ctx. rewrite HandlerFacts.spread_other.
    + cbn [Obj.get]. now rewrite decide_True.
    + now apply ObjMore.get_None.
  - intros k v H. apply HandlerFacts.spread_inv in H as [H|H]; [auto|].
    right. cbn [Obj.get] in H.
    destruct (decide (main_legacy = k)); [|discriminate].
    injection H as <-. auto.
  - destruct (completeMigration_prompt JS PROMPTS W p ctx config (apiKeys st) tr
                Hctx) as (contextStr & entry & rest & Hr & Hl & Hs & Hk & Hc).
    exists contextStr, entry, rest. split; [exact Hr|].
    split; [|auto].
    unfold handleDependencySubmit.
    cbn [partialPlan modelConfig inputCode apiKeys]. rewrite Hp, Hcfg, Ht.
    fold ctx.
    destruct (completeMigration JS PROMPTS W p ctx config (apiKeys st) tr)
      as [[err|res] tr2]; cbn [fst snd] in *; exact Hl.
Qed.

(** On the application waiting for [dep.php]. *)
Lemma X21_submit_settles_witness :
  showDependencyModal
    (fst (handleDependencySubmit Scenario.platform Fixture.prompts
            (Fixture.world
               (Scenario.script [lit "Design."; Fixture.three_files; lit "{}"]))
            Scenario.supplied Scenario.waiting empty_trace))
  = false /\
  isProcessing
    (analysisStep
       (snd (handleDependencySubmit Scenario.platform Fixture.prompts
               (Fixture.world
                  (Scenario.script
                     [lit "Design."; Fixture.three_files; lit "{}"]))
               Scenario.supplied Scenario.waiting empty_trace)))
  = false.
Proof.
  destruct (X21_submit_settles Scenario.platform Fixture.prompts
              (Fixture.world
                 (Scenario.script [lit "Design."; Fixture.three_files; lit "{}"]))
              Scenario.supplied Scenario.waiting empty_trace
              (Fixture.plan_value "dep.php") Fixture.config)
    as (H1 & H2 & _); try reflexivity.
  split; [exact H1 | exact H2].
Defined.

Lemma X22_dependency_context_witness :
  Obj.get (lit "dep.php")
    (Obj.spread [(main_legacy, VStr Fixture.legacy_code)] Scenario.supplied)
  = Some (VStr (lit "<?php dep ?>")) /\
  Obj.get main_legacy
    (Obj.spread [(main_legacy, VStr Fixture.legacy_code)] Scenario.supplied)
  = Some (VStr Fixture.legacy_code).
Proof.
  destruct (X22_dependency_context Scenario.platform Fixture.prompts
              (Fixture.world (fun _ => [])) Scenario.supplied Scenario.waiting
              empty_trace (Fixture.plan_value "dep.php") Fixture.config)
    as (Hin & Hmain & _); try reflexivity.
  - apply (bool_decide_unpack _). vm_compute. exact I.
  - repeat constructor. simpl. eauto.
  - split.
    + apply Hin. simpl. auto.
    + apply Hmain. vm_compute. reflexivity.
Defined.

(** ** The dependency dialog *)

Module DialogFacts.

Lemma define_NoDup {V} k (v : V) o :
  NoDup (map fst o) -> NoDup (map fst (Obj.define k v o)).
Proof.
  intros Hnd. unfold Obj.define. destruct (Obj.get k o) as [x|] eqn:E.
  - assert (Hm : map fst (Obj.replace k v o) = map fst o).
    { clear. induction o as [|[k' v'] o IH]; simpl; [reflexivity|].
      destruct (decide (k' = k)) as [->|]; simpl; congruence. }
    now rewrite Hm.
  - apply ObjMore.get_None in E.
    destruct (Obj.array_index k) as [i|].
    + induction o as [|[k' v'] o IH]; simpl.
      * apply NoDup_singleton.
      * simpl in Hnd, E. apply NoDup_cons in Hnd as [Hk Hnd].
        assert (Hins : NoDup (k :: k' :: map fst o)).
        { apply NoDup_cons. split.
          - rewrite list_elem_of_In. exact E.
          - apply NoDup_cons. auto. }
        destruct (Obj.array_index k') as [j|]; [destruct (j <? i)|];
          simpl; try exact Hins.
        apply NoDup_cons. split.
        -- rewrite list_elem_of_In. intros Hin.
           assert (Hsub : forall x, In x (map fst (Obj.insert_index i k v o)) ->
                                    x = k \/ In x (map fst o)).
           { clear. induction o as [|[k1 v1] o IH]; simpl; intros x.
             - intros [<-|[]]. auto.
             - destruct (Obj.array_index k1) as [j|]; [destruct (j <? i)|];
                 simpl.
               + intros [<-|H]; [auto|]. destruct (IH x H); auto.
               + intros [<-|H]; auto.
               + intros [<-|H]; auto. }
           destruct (Hsub _ Hin) as [->|H]; [apply E; auto|].
           apply Hk. now apply list_elem_of_In.
        -- apply IH; [exact Hnd | intros H; apply E; auto].
    + rewrite map_app. simpl. apply NoDup_app. split; [exact Hnd|].
      split; [|apply NoDup_singleton].
      intros x Hx Hin. apply list_elem_of_singleton in Hin as ->.
      apply E. now apply list_elem_of_In.
Qed.

Lemma spread_NoDup {V} (a b : list (jsstring * V)) :
  NoDup (map fst a) -> NoDup (map fst (Obj.spread a b)).
Proof.
  revert a. induction b as [|[k v] b IH]; intros a Ha; [exact Ha|].
  rewrite HandlerFacts.spread_cons. apply IH. now apply define_NoDup.
Qed.

Lemma change_NoDup filename content prev :
  NoDup (map fst (handleContentChange filename content prev)).
Proof.
  unfold handleContentChange. apply define_NoDup, spread_NoDup. constructor.
Qed.

Lemma change_get_eq filename content prev :
  Obj.get filename (handleContentChange filename content prev) = Some content.
Proof. apply ObjFacts.get_define_eq. Qed.

Lemma change_get_ne filename content prev k :
  NoDup (map fst prev) -> filename <> k ->
  Obj.get k (handleContentChange filename content prev) = Obj.get k prev.
Proof.
  intros Hnd Hne. unfold handleContentChange.
  rewrite ObjFacts.get_define_ne by exact Hne.
  now apply HandlerFacts.spread_copy.
Qed.

(** What a complete dialog holds for a required file. *)
Lemma isComplete_provided required contents f :
  isComplete required contents = inr true -> In f required ->
  exists s, Obj.get f contents = Some (VStr s) /\ Str.trim s <> [].
Proof.
  induction required as [|g rest IH]; simpl; [tauto|].
  unfold read. destruct (Obj.get g contents) as [v|] eqn:E.
  - destruct (ToBoolean v); [|discriminate].
    destruct v as [| | | |s| |]; try discriminate.
    destruct (Str.trim s) as [|c t] eqn:Et; simpl; [discriminate|].
    intros H [->|Hin]; [|auto].
    exists s. rewrite Et. split; [exact E | discriminate].
  - destruct (bool_decide _); discriminate.
Qed.

Lemma provided_isComplete required contents :
  (forall f, In f required ->
             exists s, Obj.get f contents = Some (VStr s) /\ Str.trim s <> []) ->
  isComplete required contents = inr true.
Proof.
  induction required as [|g rest IH]; intros H; simpl; [reflexivity|].
  destruct (H g) as (s & Hg & Hs); [simpl; auto|].
  unfold read. rewrite Hg.
  assert (Hne : s <> []).
  { intros ->. apply Hs. reflexivity. }
  destruct s as [|c t]; [congruence|]. cbn [ToBoolean Str.truthy].
  destruct (Str.trim (c :: t)) as [|c' t'] eqn:Et; [congruence|]. simpl.
  apply IH. intros f Hf. apply H. simpl. auto.
Qed.

(** What is in the dialog is what was there or what was entered. *)
Lemma entered_get entries prev k v :
  NoDup (map fst prev) ->
  Obj.get k (entered entries prev) = Some v ->
  Obj.get k prev = Some v \/ exists s, In (k, s) entries /\ v = VStr s.
Proof.
  revert prev. induction entries as [|[name text] entries IH];
    intros prev Hnd H; [auto|].
  apply IH in H; [|apply DialogFacts.change_NoDup].
  destruct H as [H|(s & Hin & ->)].
  - destruct (decide (name = k)) as [->|Hne].
    + rewrite DialogFacts.change_get_eq in H. injection H as <-.
      right. exists text. simpl. auto.
    + rewrite DialogFacts.change_get_ne in H by auto. auto.
  - right. exists s. simpl. auto.
Qed.

(** With strings for contents and no required file named as a property
    of [Object.prototype], the check of the dialog raises nothing. *)
Lemma isComplete_returns required contents :
  Forall (fun f => ~ In f Object_prototype_keys) required ->
  (forall k v, Obj.get k contents = Some v -> exists s, v = VStr s) ->
  exists b, isComplete required contents = inr b.
Proof.
  intros Hreq Hstr. induction Hreq as [|f rest Hf _ IH]; simpl; [eauto|].
  unfold read. destruct (Obj.get f contents) as [v|] eqn:E.
  - destruct (Hstr _ _ E) as [s ->].
    destruct (ToBoolean (VStr s)); [|eauto].
    destruct (negb _); [exact IH | eauto].
  - rewrite bool_decide_eq_false_2; [eauto|].
    rewrite list_elem_of_In. exact Hf.
Qed.

Lemma all_strings_get (m : FileMap) k v :
  all_strings m -> Obj.get k m = Some v -> exists s, v = VStr s.
Proof.
  intros Hall Hg. apply ObjMore.get_In in Hg.
  unfold all_strings in Hall. rewrite List.Forall_forall in Hall.
  apply (Hall _ Hg).
Qed.

End DialogFacts.

(** X23: A complete dialog supplies every required file.  When the dialog
    lets the user resume, each required file has a content of its own in
    the dialog that is a string and not blank, and the file map the
    resume runs on holds that content under the file's name; a required
    file that has no content and whose name [Object.prototype] defines
    does not count as missing: checking it raises. *)
Theorem X23_complete_dialog_supplies_all (required : list jsstring)
    (contents : FileMap) (input : jsstring) :
  NoDup (map fst contents) ->
  (isComplete required contents = inr true ->
   forall f, In f required ->
     exists s,
       Str.trim s <> [] /\
       Obj.get f contents = Some (VStr s) /\
       Obj.get f (Obj.spread [(main_legacy, VStr input)] contents)
       = Some (VStr s)) /\
  (forall f rest,
      Obj.get f contents = None -> In f Object_prototype_keys ->
      isComplete (f :: rest) contents = inl (TypeError (lit "trim"))).
Proof.
  intros Hnd. split.
  - intros Hc f Hf.
    destruct (DialogFacts.isComplete_provided _ _ _ Hc Hf) as (s & Hg & Hs).
    exists s. split; [exact Hs|]. split; [exact Hg|].
    apply HandlerFacts.spread_get; [exact Hnd|]. now apply ObjMore.get_In.
  - intros f rest Hg Hin. simpl. unfold read. rewrite Hg.
    rewrite bool_decide_eq_true_2; [reflexivity|]. now apply list_elem_of_In.
Qed.

(** On the dialog with [dep.php] pasted in. *)
Lemma X23_complete_dialog_supplies_all_witness :
  isComplete [lit "dep.php"] Scenario.supplied = inr true /\
  exists s,
    Obj.get (lit "dep.php")
      (Obj.spread [(main_legacy, VStr Fixture.legacy_code)] Scenario.supplied)
    = Some (VStr s).
Proof.
  assert (E : isComplete [lit "dep.php"] Scenario.supplied = inr true).
  { vm_compute. reflexivity. }
  split; [exact E|].
  destruct (X23_complete_dialog_supplies_all [lit "dep.php"] Scenario.supplied
              Fixture.legacy_code) as [H _].
  - apply (bool_decide_unpack _). vm_compute. exact I.
  - destruct (H E (lit "dep.php")) as (s & _ & _ & Hs); [simpl; auto|].
    exists s. exact Hs.
Defined.



(** ** The progress display *)

(** X25: What the progress display shows.  On [ERROR] every step shows the
    error status; on [COMPLETE] every step is completed; while one of
    the four stages runs, the steps before it are completed, it is the
    one active step and the steps behind it are pending; and on [IDLE]
    and [WAITING_FOR_USER], which are not in the order of steps, every
    step is pending, the Analyst too, whose work is done by then. *)
Theorem X25_progress_display (currentStep : AnalysisStep) :
  (currentStep = ERROR ->
   map (getStepStatus currentStep) shown_steps
   = [status_error; status_error; status_error; status_error]) /\
  (currentStep = COMPLETE ->
   map (getStepStatus currentStep) shown_steps
   = [completed; completed; completed; completed]) /\
  (currentStep = IDLE \/ currentStep = WAITING_FOR_USER ->
   map (getStepStatus currentStep) shown_steps
   = [pending; pending; pending; pending]) /\
  (In currentStep shown_steps ->
   exists before behind,
     shown_steps = before ++ currentStep :: behind /\
     map (getStepStatus currentStep) shown_steps
     = map (fun _ => completed) before ++ active
       :: map (fun _ => pending) behind).
Proof.
  split; [|split; [|split]].
  - intros ->. reflexivity.
  - intros ->. reflexivity.
  - intros [-> | ->]; reflexivity.
  - unfold shown_steps. simpl. intros [<-|[<-|[<-|[<-|[]]]]].
    + exists [], [ARCHITECT; CODER; AUDITOR]. split; reflexivity.
    + exists [ANALYST], [CODER; AUDITOR]. split; reflexivity.
    + exists [ANALYST; ARCHITECT], [AUDITOR]. split; reflexivity.
    + exists [ANALYST; ARCHITECT; CODER], []. split; reflexivity.
Qed.
